(** * ThemeTracker: the trending-topics pipeline of [app.py]

    A shallow embedding of [parse_iso_date], [get_published_after] and
    [get_trending_topics], together with the parts of Python's standard
    library they rest on: [datetime] calendar arithmetic, [isoformat],
    [strptime] for the two formats the program uses, insertion-ordered
    dictionaries ([Counter], [defaultdict]) and [Counter.most_common].

    Conventions.  Python integers are [Z]; counts are [nat].  A Python
    string is the [string] of the bytes of its UTF-8 encoding, read
    character by character where the program looks at characters
    ([next_char]).  A Python exception is a value
    of [exn]; a call that may raise returns [exn + A].  The two remote
    endpoints and the clock are parameters of the pipeline; what the
    program writes to the page ([st.error], [st.info]) and which remote
    calls it makes are recorded in a trace. *)

From Stdlib Require Import ZArith Lia List String Ascii Bool Sorted.
Import ListNotations.

Local Open Scope string_scope.
Local Open Scope list_scope.
Local Open Scope Z_scope.

(* ================================================================== *)
(** * Exceptions *)

Inductive exn_kind := ValueError | TypeError | OverflowError | HttpError.

(** An exception with the text [str(e)] gives for it. *)
Record exn := Exn { exn_class : exn_kind; exn_text : string }.

Definition raises (A : Type) := (exn + A)%type.

Definition ret {A} (a : A) : raises A := inr a.
Definition raise {A} (k : exn_kind) (msg : string) : raises A := inl (Exn k msg).

Definition bind {A B} (m : raises A) (f : A -> raises B) : raises B :=
  match m with
  | inl e => inl e
  | inr a => f a
  end.

Notation "x <- m ;; k" := (bind m (fun x => k))
  (at level 61, m at next level, right associativity).

(* ================================================================== *)
(** * Calendar arithmetic of Python's [datetime] module *)

Module Calendar.

Definition MINYEAR : Z := 1.
Definition MAXYEAR : Z := 9999.
Definition _MAXORDINAL : Z := 3652059.

Definition _DAYS_IN_MONTH : list Z :=
  [-1; 31; 28; 31; 30; 31; 30; 31; 31; 30; 31; 30; 31].

(** [_DAYS_BEFORE_MONTH] is filled by a loop over [_DAYS_IN_MONTH[1:]]. *)
Definition _DAYS_BEFORE_MONTH : list Z :=
  fst (fold_left (fun '(tbl, dbm) dim => (tbl ++ [dbm], dbm + dim))
                 (tl _DAYS_IN_MONTH) ([-1], 0)).

(** List indexing at an index the callers keep in range. *)
Definition index (tbl : list Z) (i : Z) : Z := nth (Z.to_nat i) tbl (-1).

Definition _is_leap (year : Z) : bool :=
  (year mod 4 =? 0) && (negb (year mod 100 =? 0) || (year mod 400 =? 0)).

Definition _days_before_year (year : Z) : Z :=
  let y := year - 1 in
  y * 365 + y / 4 - y / 100 + y / 400.

Definition _days_in_month (year month : Z) : Z :=
  if (month =? 2) && _is_leap year then 29 else index _DAYS_IN_MONTH month.

Definition _days_before_month (year month : Z) : Z :=
  index _DAYS_BEFORE_MONTH month
  + (if (2 <? month) && _is_leap year then 1 else 0).

Definition _ymd2ord (year month day : Z) : Z :=
  _days_before_year year + _days_before_month year month + day.

Definition _DI400Y : Z := _days_before_year 401.
Definition _DI100Y : Z := _days_before_year 101.
Definition _DI4Y : Z := _days_before_year 5.

Definition _ord2ymd (n0 : Z) : Z * Z * Z :=
  let n := n0 - 1 in
  let n400 := n / _DI400Y in
  let n := n mod _DI400Y in
  let year := n400 * 400 + 1 in
  let n100 := n / _DI100Y in
  let n := n mod _DI100Y in
  let n4 := n / _DI4Y in
  let n := n mod _DI4Y in
  let n1 := n / 365 in
  let n := n mod 365 in
  let year := year + n100 * 100 + n4 * 4 + n1 in
  if (n1 =? 4) || (n100 =? 4) then (year - 1, 12, 31)
  else
    let leapyear := (n1 =? 3) && (negb (n4 =? 24) || (n100 =? 3)) in
    let month := Z.shiftr (n + 50) 5 in
    let preceding :=
      index _DAYS_BEFORE_MONTH month
      + (if (2 <? month) && leapyear then 1 else 0) in
    let '(month, preceding) :=
      if n <? preceding
      then (month - 1,
            preceding - (index _DAYS_IN_MONTH (month - 1)
                         + (if (month - 1 =? 2) && leapyear then 1 else 0)))
      else (month, preceding) in
    (year, month, n - preceding + 1).

End Calendar.

(* ================================================================== *)
(** * Naive [datetime] values *)

Record datetime := mkdatetime {
  year : Z; month : Z; day : Z;
  hour : Z; minute : Z; second : Z; microsecond : Z
}.

(** The range checks of the [datetime] constructor
    ([_check_date_fields], [_check_time_fields]). *)
Definition check_date_fields (y m d : Z) : bool :=
  (Calendar.MINYEAR <=? y) && (y <=? Calendar.MAXYEAR)
  && (1 <=? m) && (m <=? 12)
  && (1 <=? d) && (d <=? Calendar._days_in_month y m).

Definition check_time_fields (hh mm ss us : Z) : bool :=
  (0 <=? hh) && (hh <=? 23) && (0 <=? mm) && (mm <=? 59)
  && (0 <=? ss) && (ss <=? 59) && (0 <=? us) && (us <=? 999999).

Definition valid_datetime (t : datetime) : bool :=
  check_date_fields (year t) (month t) (day t)
  && check_time_fields (hour t) (minute t) (second t) (microsecond t).

(** [datetime(y, m, d, hh, mm, ss, us)]. *)
Definition new_datetime (y m d hh mm ss us : Z) : raises datetime :=
  if negb (check_date_fields y m d)
  then raise ValueError "date field out of range"
  else if negb (check_time_fields hh mm ss us)
  then raise ValueError "time field out of range"
  else ret (mkdatetime y m d hh mm ss us).

Definition toordinal (t : datetime) : Z :=
  Calendar._ymd2ord (year t) (month t) (day t).

(** Tuple comparison, as [datetime._cmp] compares
    [(year, month, day, hour, minute, second, microsecond)]. *)
Fixpoint tuple_cmp (a b : list Z) : comparison :=
  match a, b with
  | [], [] => Eq
  | [], _ :: _ => Lt
  | _ :: _, [] => Gt
  | x :: a', y :: b' =>
      match x ?= y with
      | Eq => tuple_cmp a' b'
      | c => c
      end
  end.

Definition fields (t : datetime) : list Z :=
  [year t; month t; day t; hour t; minute t; second t; microsecond t].

Definition datetime_cmp (a b : datetime) : comparison :=
  tuple_cmp (fields a) (fields b).

(** [a >= b] on datetimes. *)
Definition datetime_ge (a b : datetime) : bool :=
  match datetime_cmp a b with
  | Lt => false
  | _ => true
  end.

(** [self - timedelta(days=k)]: the sum is formed as a [timedelta] counted
    from ordinal 0, normalised, and turned back into a date and a time. *)
Definition datetime_sub_days (self : datetime) (k : Z) : raises datetime :=
  let d0 := toordinal self - k in
  let s0 := hour self * 3600 + minute self * 60 + second self in
  let us0 := microsecond self in
  let us := us0 mod 1000000 in
  let s1 := s0 + us0 / 1000000 in
  let s := s1 mod 86400 in
  let days := d0 + s1 / 86400 in
  let hh := s / 3600 in
  let rem := s mod 3600 in
  let mm := rem / 60 in
  let ss := rem mod 60 in
  if (0 <? days) && (days <=? Calendar._MAXORDINAL)
  then
    let '(y, m, d) := Calendar._ord2ymd days in
    ret (mkdatetime y m d hh mm ss us)
  else raise OverflowError "date value out of range".

(* ================================================================== *)
(** * Decimal text *)

Definition digit_char (d : Z) : ascii := ascii_of_nat (48 + Z.to_nat d).

(** The ASCII digits ["0"] to ["9"]. *)
Definition is_digit (c : ascii) : bool :=
  let n := nat_of_ascii c in (48 <=? n)%nat && (n <=? 57)%nat.

Definition digit_value (c : ascii) : Z := Z.of_nat (nat_of_ascii c) - 48.

(** The decimal digits of [v], most significant first, in front of [acc]. *)
Fixpoint dec_digits (fuel : nat) (v : Z) (acc : string) : string :=
  let acc' := String (digit_char (v mod 10)) acc in
  match fuel with
  | O => acc'
  | S fuel' => if v / 10 =? 0 then acc' else dec_digits fuel' (v / 10) acc'
  end.

(** [str(v)] for an integer. *)
Definition str_int (v : Z) : string :=
  if v <? 0
  then String "-" (dec_digits (Z.to_nat (Z.log2 (- v))) (- v) "")
  else dec_digits (Z.to_nat (Z.log2 v)) v "".

Fixpoint zeros (n : nat) : string :=
  match n with
  | O => ""
  | S n' => String "0" (zeros n')
  end.

(** ["%0<width>d" % v] for [v >= 0]. *)
Definition fmt_0d (width : nat) (v : Z) : string :=
  let s := str_int v in
  (zeros (width - String.length s) ++ s)%string.

Definition is_space (c : ascii) : bool :=
  let n := nat_of_ascii c in
  (n =? 32)%nat || ((9 <=? n)%nat && (n <=? 13)%nat).

Fixpoint lstrip (s : string) : string :=
  match s with
  | String c s' => if is_space c then lstrip s' else s
  | EmptyString => s
  end.

Definition byte (a : ascii) : Z := Z.of_nat (nat_of_ascii a).

(** The six low bits of a continuation byte of UTF-8. *)
Definition continuation (a : ascii) : option Z :=
  let b := byte a in
  if (128 <=? b) && (b <=? 191) then Some (b - 128) else None.

(** The first character of a text: its code point, its bytes and the
    text after it.  Bytes that are the encoding of no character give
    [None]. *)
Definition next_char (s : string) : option (Z * string * string) :=
  match s with
  | EmptyString => None
  | String a s1 =>
      let b := byte a in
      if b <? 128 then Some (b, String a "", s1)
      else if (194 <=? b) && (b <=? 223) then
        match s1 with
        | String a1 s2 =>
            match continuation a1 with
            | Some c1 =>
                Some ((b - 192) * 64 + c1, String a (String a1 ""), s2)
            | None => None
            end
        | EmptyString => None
        end
      else if (224 <=? b) && (b <=? 239) then
        match s1 with
        | String a1 (String a2 s3) =>
            match continuation a1, continuation a2 with
            | Some c1, Some c2 =>
                let cp := ((b - 224) * 64 + c1) * 64 + c2 in
                if 2048 <=? cp
                then Some (cp, String a (String a1 (String a2 "")), s3)
                else None
            | _, _ => None
            end
        | _ => None
        end
      else if (240 <=? b) && (b <=? 244) then
        match s1 with
        | String a1 (String a2 (String a3 s4)) =>
            match continuation a1, continuation a2, continuation a3 with
            | Some c1, Some c2, Some c3 =>
                let cp := (((b - 240) * 64 + c1) * 64 + c2) * 64 + c3 in
                if (65536 <=? cp) && (cp <=? 1114111)
                then Some (cp, String a (String a1 (String a2
                                 (String a3 ""))), s4)
                else None
            | _, _, _ => None
            end
        | _ => None
        end
      else None
  end.

(** The decimal digits of Unicode (general category Nd, version 14.0 as
    CPython 3.11 carries it) come in runs of ten, for the values 0 to 9
    in order; these are the code points the runs start at.  They are the
    characters [\d] of a regular expression matches and [int] reads. *)
Definition decimal_blocks : list Z :=
  [48; 1632; 1776; 1984; 2406; 2534; 2662; 2790; 2918; 3046; 3174; 3302;
   3430; 3558; 3664; 3792; 3872; 4160; 4240; 6112; 6160; 6470; 6608; 6784;
   6800; 6992; 7088; 7232; 7248; 42528; 43216; 43264; 43472; 43504; 43600;
   44016; 65296; 66720; 68912; 69734; 69872; 69942; 70096; 70384; 70736;
   70864; 71248; 71360; 71472; 71904; 72016; 72784; 73040; 73120; 92768;
   92864; 93008; 120782; 120792; 120802; 120812; 120822; 123200; 123632;
   125264; 130032].

(** The value of a decimal digit, [None] for any other character. *)
Definition decimal_value (cp : Z) : option Z :=
  match find (fun b => (b <=? cp) && (cp <? b + 10)) decimal_blocks with
  | Some b => Some (cp - b)
  | None => None
  end.

(** The number a run of decimal digits writes, continuing from [acc];
    [fuel] bounds the number of characters. *)
Fixpoint digits_value_from (fuel : nat) (s : string) (acc : Z) : option Z :=
  match s with
  | EmptyString => Some acc
  | String _ _ =>
      match fuel with
      | O => None
      | S fuel' =>
          match next_char s with
          | Some (cp, _, rest) =>
              match decimal_value cp with
              | Some d => digits_value_from fuel' rest (acc * 10 + d)
              | None => None
              end
          | None => None
          end
      end
  end.

Definition digits_value (s : string) (acc : Z) : option Z :=
  digits_value_from (String.length s) s acc.

(** [int(s)] on the texts [strptime] hands it: optional leading blanks,
    then one or more decimal digits. *)
Definition py_int (s : string) : raises Z :=
  match lstrip s with
  | EmptyString => raise ValueError "invalid literal for int()"
  | String c r =>
      match digits_value (String c r) 0 with
      | Some v => ret v
      | None => raise ValueError "invalid literal for int()"
      end
  end.

(** [datetime.isoformat("T")] with the default [timespec]: the fraction is
    written only when the microsecond field is not zero. *)
Definition isoformat (t : datetime) : string :=
  (fmt_0d 4 (year t) ++ "-" ++ fmt_0d 2 (month t) ++ "-" ++ fmt_0d 2 (day t)
   ++ "T"
   ++ fmt_0d 2 (hour t) ++ ":" ++ fmt_0d 2 (minute t) ++ ":"
   ++ fmt_0d 2 (second t)
   ++ (if (microsecond t =? 0)%Z then "" else "." ++ fmt_0d 6 (microsecond t))
  )%string.

(* ================================================================== *)
(** * [datetime.strptime]

    [_strptime] turns the format into a regular expression, matches it
    case-insensitively at the start of the text, refuses text left over,
    converts the named groups, and builds the [datetime].  The table below
    holds the expressions of the directives the program's two formats use. *)

Module Strptime.

Inductive directive := dY | dm | dd | dH | dM | dS | df.

(** One position of an expression: a decimal digit ([\d]), a range of
    ASCII characters, or a given ASCII character. *)
Inductive cls :=
| Digit
| Range (lo hi : ascii)
| Chr (c : ascii).

(** Whether the character with code point [cp] stands at a position. *)
Definition cls_ok (k : cls) (cp : Z) : bool :=
  match k with
  | Digit => match decimal_value cp with Some _ => true | None => false end
  | Range lo hi => (byte lo <=? cp) && (cp <=? byte hi)
  | Chr c => cp =? byte c
  end.

(** A group is an ordered alternation; each branch is a fixed run of
    positions.  The bounded greedy repetition of [%f], [[0-9]{1,6}], tries
    the longest run first, which is the alternation of six down to one
    ASCII digit. *)
Definition regex_of (d : directive) : list (list cls) :=
  match d with
  | dY => [[Digit; Digit; Digit; Digit]]
  | dm => [[Chr "1"; Range "0" "2"]; [Chr "0"; Range "1" "9"]; [Range "1" "9"]]
  | dd => [[Chr "3"; Range "0" "1"]; [Range "1" "2"; Digit];
           [Chr "0"; Range "1" "9"]; [Range "1" "9"]; [Chr " "; Range "1" "9"]]
  | dH => [[Chr "2"; Range "0" "3"]; [Range "0" "1"; Digit]; [Digit]]
  | dM => [[Range "0" "5"; Digit]; [Digit]]
  | dS => [[Chr "6"; Range "0" "1"]; [Range "0" "5"; Digit]; [Digit]]
  | df => [repeat (Range "0" "9") 6; repeat (Range "0" "9") 5;
           repeat (Range "0" "9") 4; repeat (Range "0" "9") 3;
           repeat (Range "0" "9") 2; repeat (Range "0" "9") 1]
  end.

Definition directive_of (c : ascii) : option directive :=
  if Ascii.eqb c "Y" then Some dY
  else if Ascii.eqb c "m" then Some dm
  else if Ascii.eqb c "d" then Some dd
  else if Ascii.eqb c "H" then Some dH
  else if Ascii.eqb c "M" then Some dM
  else if Ascii.eqb c "S" then Some dS
  else if Ascii.eqb c "f" then Some df
  else None.

Inductive atom :=
| Lit (c : ascii)
| Group (d : directive) (alts : list (list cls)).

(** [TimeRE.pattern]: a directive becomes its group, any other character
    stands for itself (the program's formats hold no blank, which alone
    would stand for a run of blanks).  [None] is a bad or stray
    directive. *)
Fixpoint pattern (fmt : string) : option (list atom) :=
  match fmt with
  | EmptyString => Some []
  | String c rest =>
      if Ascii.eqb c "%" then
        match rest with
        | EmptyString => None
        | String k rest' =>
            match directive_of k, pattern rest' with
            | Some d, Some p => Some (Group d (regex_of d) :: p)
            | _, _ => None
            end
        end
      else
        match pattern rest with
        | Some p => Some (Lit c :: p)
        | None => None
        end
  end.

Definition lower (a : ascii) : ascii :=
  let n := nat_of_ascii a in
  if ((65 <=? n) && (n <=? 90))%nat then ascii_of_nat (n + 32) else a.

(** Equality of a byte of the text with a literal of the expression under
    [IGNORECASE].  The literals of the program's formats are "-", "T",
    ":", "." and "Z"; no character outside ASCII equals one of them, also
    when case is ignored. *)
Definition eqb_ci (a c : ascii) : bool := Ascii.eqb (lower a) (lower c).

(** One branch against the start of the text: the text it covers and the
    text after it. *)
Fixpoint match_alt (alt : list cls) (s : string) : option (string * string) :=
  match alt with
  | [] => Some (EmptyString, s)
  | k :: alt' =>
      match next_char s with
      | None => None
      | Some (cp, bytes, s') =>
          if cls_ok k cp then
            match match_alt alt' s' with
            | Some (m, rest) => Some ((bytes ++ m)%string, rest)
            | None => None
            end
          else None
      end
  end.

(** The branches in order; the first one after which the rest of the
    expression succeeds wins. *)
Fixpoint first_alt {R} (alts : list (list cls)) (s : string)
    (k : string -> string -> option R) : option R :=
  match alts with
  | [] => None
  | alt :: more =>
      match match_alt alt s with
      | Some (m, rest) =>
          match k m rest with
          | Some r => Some r
          | None => first_alt more s k
          end
      | None => first_alt more s k
      end
  end.

(** [re.match]: the groups found, and the text after the match. *)
Fixpoint re_match (p : list atom) (s : string)
    : option (list (directive * string) * string) :=
  match p with
  | [] => Some ([], s)
  | Lit c :: p' =>
      match s with
      | EmptyString => None
      | String a s' => if eqb_ci a c then re_match p' s' else None
      end
  | Group d alts :: p' =>
      first_alt alts s (fun m rest =>
        match re_match p' rest with
        | Some (found, tail) => Some ((d, m) :: found, tail)
        | None => None
        end)
  end.

(** The fields [_strptime] collects, with their defaults. *)
Record parsed := mkparsed {
  p_year : Z; p_month : Z; p_day : Z;
  p_hour : Z; p_minute : Z; p_second : Z; p_fraction : Z
}.

Definition defaults : parsed := mkparsed 1900 1 1 0 0 0 0.

Definition convert_group (acc : parsed) (g : directive * string)
    : raises parsed :=
  let '(d, text) := g in
  match d with
  | dY => v <- py_int text ;;
          ret (mkparsed v (p_month acc) (p_day acc) (p_hour acc)
                        (p_minute acc) (p_second acc) (p_fraction acc))
  | dm => v <- py_int text ;;
          ret (mkparsed (p_year acc) v (p_day acc) (p_hour acc)
                        (p_minute acc) (p_second acc) (p_fraction acc))
  | dd => v <- py_int text ;;
          ret (mkparsed (p_year acc) (p_month acc) v (p_hour acc)
                        (p_minute acc) (p_second acc) (p_fraction acc))
  | dH => v <- py_int text ;;
          ret (mkparsed (p_year acc) (p_month acc) (p_day acc) v
                        (p_minute acc) (p_second acc) (p_fraction acc))
  | dM => v <- py_int text ;;
          ret (mkparsed (p_year acc) (p_month acc) (p_day acc) (p_hour acc)
                        v (p_second acc) (p_fraction acc))
  | dS => v <- py_int text ;;
          ret (mkparsed (p_year acc) (p_month acc) (p_day acc) (p_hour acc)
                        (p_minute acc) v (p_fraction acc))
  | df =>
      (* s += "0" * (6 - len(s)); fraction = int(s) *)
      v <- py_int (text ++ zeros (6 - String.length text))%string ;;
      ret (mkparsed (p_year acc) (p_month acc) (p_day acc) (p_hour acc)
                    (p_minute acc) (p_second acc) v)
  end.

Fixpoint convert (found : list (directive * string)) (acc : parsed)
    : raises parsed :=
  match found with
  | [] => ret acc
  | g :: more => acc' <- convert_group acc g ;; convert more acc'
  end.

(** [datetime.datetime.strptime(data_string, format)].  The argument may
    be [None], which is a [TypeError]; every other failure is a
    [ValueError]. *)
Definition strptime (data_string : option string) (format : string)
    : raises datetime :=
  match data_string with
  | None => raise TypeError "strptime() argument 1 must be str, not None"
  | Some s =>
      match pattern format with
      | None => raise ValueError "bad directive in format"
      | Some p =>
          match re_match p s with
          | None => raise ValueError "time data does not match format"
          | Some (found, tail) =>
              match tail with
              | String _ _ => raise ValueError "unconverted data remains"
              | EmptyString =>
                  f <- convert found defaults ;;
                  new_datetime (p_year f) (p_month f) (p_day f) (p_hour f)
                               (p_minute f) (p_second f) (p_fraction f)
              end
          end
      end
  end.

End Strptime.

(* ================================================================== *)
(** * [parse_iso_date] and [get_published_after] *)

Definition formats : list string :=
  ["%Y-%m-%dT%H:%M:%S.%fZ"; "%Y-%m-%dT%H:%M:%SZ"].

(** The loop of [parse_iso_date] over the remaining formats: a
    [ValueError] moves on to the next format, any other exception leaves
    the function. *)
Fixpoint parse_with (fmts : list string) (date_str : option string)
    : raises datetime :=
  match fmts with
  | [] =>
      raise ValueError
        ("Time data '" ++ match date_str with Some s => s | None => "None" end
         ++ "' does not match expected formats.")%string
  | fmt :: more =>
      match Strptime.strptime date_str fmt with
      | inr t => ret t
      | inl e =>
          match exn_class e with
          | ValueError => parse_with more date_str
          | _ => inl e
          end
      end
  end.

Definition parse_iso_date (date_str : option string) : raises datetime :=
  parse_with formats date_str.

(** The number of days of the selected window. *)
Definition delta_days (time_span : string) : Z :=
  if String.eqb time_span "1 Week" then 7
  else if String.eqb time_span "1 Month" then 30
  else if String.eqb time_span "6 Months" then 180
  else 7.

(** [get_published_after], with the reading of the clock
    ([datetime.datetime.utcnow()]) as the argument [now]. *)
Definition get_published_after (now : datetime) (time_span : string)
    : raises string :=
  published <- datetime_sub_days now (delta_days time_span) ;;
  ret (isoformat published ++ "Z")%string.

(* ================================================================== *)
(** * Insertion-ordered dictionaries

    A Python [dict] keeps its keys in the order of their first insertion;
    storing under a key already present replaces the value in place. *)

Section Dict.
Context {V : Type}.

Definition dict := list (string * V).

Fixpoint dict_get (d : dict) (k : string) : option V :=
  match d with
  | [] => None
  | (k', v) :: d' => if String.eqb k' k then Some v else dict_get d' k
  end.

(** [d.get(k, dflt)], and [d[k]] of a [Counter] or [defaultdict]. *)
Definition dict_get_default (d : dict) (k : string) (dflt : V) : V :=
  match dict_get d k with
  | Some v => v
  | None => dflt
  end.

(** [d[k] = v]. *)
Fixpoint dict_set (d : dict) (k : string) (v : V) : dict :=
  match d with
  | [] => [(k, v)]
  | (k', v') :: d' =>
      if String.eqb k' k then (k', v) :: d'
      else (k', v') :: dict_set d' k v
  end.

(** [dict(pairs)]. *)
Definition dict_of_pairs (pairs : list (string * V)) : dict :=
  fold_left (fun d kv => dict_set d (fst kv) (snd kv)) pairs [].

Definition keys (d : dict) : list string := map fst d.
End Dict.

Arguments dict V : clear implicits.

(** [Counter.most_common(n)] is [heapq.nlargest(n, items, key=count)],
    which the library documents as [sorted(items, key=count,
    reverse=True)[:n]]; [sorted] is stable, also with [reverse]. *)
Fixpoint insert_by_count (x : string * nat) (s : list (string * nat))
    : list (string * nat) :=
  match s with
  | [] => [x]
  | y :: s' =>
      if (snd x <? snd y)%nat then y :: insert_by_count x s' else x :: s
  end.

Definition sorted_by_count_desc (l : list (string * nat))
    : list (string * nat) :=
  fold_right insert_by_count [] l.

Definition most_common (n : nat) (counter : dict nat) : list (string * nat) :=
  firstn n (sorted_by_count_desc counter).

(** [sep.join(parts)]. *)
Fixpoint join (sep : string) (parts : list string) : string :=
  match parts with
  | [] => ""
  | [p] => p
  | p :: more => (p ++ sep ++ join sep more)%string
  end.

(* ================================================================== *)
(** * The records of the remote interface *)

(** The [snippet] object of a video resource; the program reads its three
    entries with [.get], so each may be absent. *)
Record snippet_t := mksnippet {
  publishedAt : option string;
  categoryId : option string;
  title : option string
}.

(** A video resource, requested with [part="snippet"] and so carrying its
    snippet object.  The loop over the listing indexes ["snippet"]
    without a default, so a resource without that key would end the
    invocation with a [KeyError]; the resources modelled here are those
    that have it. *)
Record video := mkvideo { video_id : string; snippet : snippet_t }.

(** A video-category resource, with the ["id"] and the ["title"] of its
    snippet.  The program indexes these keys without a default, so a
    resource without one of them would end the invocation with a
    [KeyError]; the resources modelled here are those that have them. *)
Record category := mkcategory { cat_id : string; cat_title : string }.

(** A response carries its resources under ["items"], which may be
    absent. *)
Record response (A : Type) := mkresponse { items : option (list A) }.
Arguments mkresponse {A} _.
Arguments items {A} _.

(** [response.get("items", [])]. *)
Definition get_items {A} (r : response A) : list A :=
  match items r with
  | Some l => l
  | None => []
  end.

(** The API client: [videos().list(part="snippet", chart="mostPopular",
    regionCode, maxResults).execute()] and
    [videoCategories().list(part="snippet", id).execute()]. *)
Record client := mkclient {
  videos_list : string -> Z -> raises (response video);
  videoCategories_list : string -> raises (response category)
}.

(** What an invocation does that can be seen from outside: the remote
    calls with their results, and the messages written to the page. *)
Inductive event :=
| Called_videos (regionCode : string) (maxResults : Z)
                (result : raises (response video))
| Called_categories (id : string) (result : raises (response category))
| St_error (msg : string)
| St_info (msg : string).

(** One entry of the report: the dictionary with the keys ["topic"],
    ["comment"] and ["videos"]. *)
Record topic_t := mktopic {
  topic : string;
  comment : string;
  videos : list string
}.

(** The end of an invocation: the list returned or the exception that
    left the function, and the events up to there. *)
Record outcome := mkoutcome {
  returned : raises (list topic_t);
  trace : list event
}.

(* ================================================================== *)
(** * [get_trending_topics] *)

(** Truth value of an entry read with [.get]: present and not empty. *)
Definition truthy (s : option string) : bool :=
  match s with
  | Some (String _ _) => true
  | _ => false
  end.

(** The body of the loop that keeps the recent videos. *)
Definition keep_recent (threshold_date : datetime)
    (filtered_items : list video) (item : video) : list video :=
  let published_at := publishedAt (snippet item) in
  match parse_iso_date published_at with
  | inl _ => filtered_items
  | inr video_date =>
      if datetime_ge video_date threshold_date
      then filtered_items ++ [item]
      else filtered_items
  end.

Definition recency_filter (items : list video) (threshold_date : datetime)
    : list video :=
  fold_left (keep_recent threshold_date) items [].

(** The body of the loop that groups by category: the counter and the
    title lists change together. *)
Definition count_item (acc : dict nat * dict (list string)) (item : video)
    : dict nat * dict (list string) :=
  let '(category_counter, category_videos) := acc in
  let snip := snippet item in
  let category_id := categoryId snip in
  let title_ := title snip in
  if truthy category_id && truthy title_ then
    match category_id, title_ with
    | Some cid, Some t =>
        (dict_set category_counter cid
                  (dict_get_default category_counter cid 0%nat + 1)%nat,
         dict_set category_videos cid
                  (dict_get_default category_videos cid [] ++ [t]))
    | _, _ => acc
    end
  else acc.

Definition aggregate (filtered_items : list video)
    : dict nat * dict (list string) :=
  fold_left count_item filtered_items ([], []).

(** The loop that fills [category_mapping]. *)
Definition build_mapping (resp : response category) : dict string :=
  fold_left (fun category_mapping item =>
               dict_set category_mapping (cat_id item) (cat_title item))
            (get_items resp) [].

Definition make_comment (count : nat) (cat_name : string) : string :=
  ("There are " ++ str_int (Z.of_nat count)
   ++ " popular videos trending in the '" ++ cat_name
   ++ "' category during this period.")%string.

(** The body of the loop that builds the report. *)
Definition make_topic (category_mapping : dict string)
    (category_videos : dict (list string)) (entry : string * nat) : topic_t :=
  let '(cat_id, count) := entry in
  let cat_name := dict_get_default category_mapping cat_id "Unknown" in
  let comment := make_comment count cat_name in
  let videos := dict_get_default category_videos cat_id [] in
  mktopic cat_name comment videos.

Definition build_topics (top_categories : list (string * nat))
    (category_mapping : dict string) (category_videos : dict (list string))
    : list topic_t :=
  fold_left (fun topics entry =>
               topics ++ [make_topic category_mapping category_videos entry])
            top_categories [].

Section Pipeline.
(** The process-wide client and the reading of the clock. *)
Variable youtube : client.
Variable utcnow : datetime.

(** [get_trending_topics], step by step along its early returns.  The
    call of the resolver stands outside every [try], so its exception
    leaves the invocation; the two remote calls and the parse of the
    threshold are guarded and end it with an empty report. *)
Definition get_trending_topics (time_span region : string) : outcome :=
  match get_published_after utcnow time_span with
  | inl e => mkoutcome (inl e) []
  | inr published_after =>
  let region_code := if String.eqb region "Brazil" then "BR" else "US" in
  let called := videos_list youtube region_code 50 in
  let tr := [Called_videos region_code 50 called] in
  match called with
  | inl e =>
      mkoutcome (ret [])
        (tr ++ [St_error ("Error fetching trending videos: "
                          ++ exn_text e)%string])
  | inr trending_response =>
  let items := get_items trending_response in
  match items with
  | [] =>
      mkoutcome (ret [])
        (tr ++ [St_info "No trending videos found for the selected region."])
  | _ :: _ =>
  match parse_iso_date (Some published_after) with
  | inl e =>
      mkoutcome (ret [])
        (tr ++ [St_error ("Error parsing threshold date: "
                          ++ exn_text e)%string])
  | inr threshold_date =>
  let filtered_items := recency_filter items threshold_date in
  match filtered_items with
  | [] =>
      mkoutcome (ret [])
        (tr ++ [St_info
           "No trending videos found for the selected time span and region."])
  | _ :: _ =>
  let '(category_counter, category_videos) := aggregate filtered_items in
  match category_counter with
  | [] =>
      mkoutcome (ret [])
        (tr ++ [St_info "No category information found for the videos."])
  | _ :: _ =>
  let top_categories := most_common 10 category_counter in
  let category_ids_list := keys (dict_of_pairs top_categories) in
  let id := join "," category_ids_list in
  let called2 := videoCategories_list youtube id in
  let tr := tr ++ [Called_categories id called2] in
  match called2 with
  | inl e =>
      mkoutcome (ret [])
        (tr ++ [St_error ("Error fetching category details: "
                          ++ exn_text e)%string])
  | inr categories_response =>
  let category_mapping := build_mapping categories_response in
  mkoutcome
    (ret (build_topics top_categories category_mapping category_videos))
    tr
  end end end end end end end.
End Pipeline.

(* ================================================================== *)
(** * Auxiliary definitions used by the proofs *)

(** The month and day part of [_ord2ymd], from the day offset [n] in the
    year and the leap flag. *)
Definition month_day (n : Z) (leapyear : bool) : Z * Z :=
  let month := Z.shiftr (n + 50) 5 in
  let preceding :=
    Calendar.index Calendar._DAYS_BEFORE_MONTH month
    + (if (2 <? month) && leapyear then 1 else 0) in
  let '(month, preceding) :=
    if n <? preceding
    then (month - 1,
          preceding - (Calendar.index Calendar._DAYS_IN_MONTH (month - 1)
                       + (if (month - 1 =? 2) && leapyear then 1 else 0)))
    else (month, preceding) in
  (month, n - preceding + 1).

(** Length of the month and days before it, by leap flag instead of year. *)
Definition dim_leap (leap : bool) (m : Z) : Z :=
  if (m =? 2) && leap then 29 else Calendar.index Calendar._DAYS_IN_MONTH m.

Definition dbm_leap (leap : bool) (m : Z) : Z :=
  Calendar.index Calendar._DAYS_BEFORE_MONTH m
  + (if (2 <? m) && leap then 1 else 0).

Definition month_day_ok (leap : bool) (i : nat) : bool :=
  let n := Z.of_nat i in
  let '(m, d) := month_day n leap in
  (1 <=? m) && (m <=? 12) && (1 <=? d) && (d <=? dim_leap leap m)
  && (dbm_leap leap m + d =? n + 1).

(** The position of a datetime on the time line: microseconds counted
    from the start of day 0 of the proleptic Gregorian calendar. *)
Definition instant (t : datetime) : Z :=
  ((toordinal t * 86400
    + (hour t * 3600 + minute t * 60 + second t)) * 1000000)
  + microsecond t.

Definition microseconds_per_day : Z := 86400 * 1000000.

(** The [k] lowest decimal digits of [v], most significant first. *)
Fixpoint digits (k : nat) (v : Z) : string :=
  match k with
  | O => ""
  | S k' => (digits k' (v / 10) ++ String (digit_char (v mod 10)) "")%string
  end.

Fixpoint all_digits (s : string) : bool :=
  match s with
  | EmptyString => true
  | String c s' => is_digit c && all_digits s'
  end.

(** What a group contributes to the result of the expression after it. *)
Definition found_cons (d : Strptime.directive) (m : string)
    (o : option (list (Strptime.directive * string) * string))
    : option (list (Strptime.directive * string) * string) :=
  match o with
  | Some (found, tail) => Some ((d, m) :: found, tail)
  | None => None
  end.

(** The values a two-digit field of a valid datetime can take. *)
Definition field_range (d : Strptime.directive) : Z * Z :=
  match d with
  | Strptime.dm => (1, 12)
  | Strptime.dd => (1, 31)
  | Strptime.dH => (0, 23)
  | Strptime.dM => (0, 59)
  | Strptime.dS => (0, 59)
  | Strptime.dY => (1, 9999)
  | Strptime.df => (0, 999999)
  end.

(** The expression both formats start with: the date, ["T"], the time to
    the seconds. *)
Definition date_time_atoms : list Strptime.atom :=
  [Strptime.Group Strptime.dY (Strptime.regex_of Strptime.dY);
   Strptime.Lit "-";
   Strptime.Group Strptime.dm (Strptime.regex_of Strptime.dm);
   Strptime.Lit "-";
   Strptime.Group Strptime.dd (Strptime.regex_of Strptime.dd);
   Strptime.Lit "T";
   Strptime.Group Strptime.dH (Strptime.regex_of Strptime.dH);
   Strptime.Lit ":";
   Strptime.Group Strptime.dM (Strptime.regex_of Strptime.dM);
   Strptime.Lit ":";
   Strptime.Group Strptime.dS (Strptime.regex_of Strptime.dS)].

(** The text [isoformat] writes up to the seconds, in front of [rest]. *)
Definition date_time_text (t : datetime) (rest : string) : string :=
  (digits 4 (year t) ++ String "-" (digits 2 (month t) ++ String "-"
   (digits 2 (day t) ++ String "T" (digits 2 (hour t) ++ String ":"
   (digits 2 (minute t) ++ String ":" (digits 2 (second t) ++ rest))))))%string.

Definition date_time_found (t : datetime)
    (o : option (list (Strptime.directive * string) * string))
    : option (list (Strptime.directive * string) * string) :=
  found_cons Strptime.dY (digits 4 (year t))
   (found_cons Strptime.dm (digits 2 (month t))
    (found_cons Strptime.dd (digits 2 (day t))
     (found_cons Strptime.dH (digits 2 (hour t))
      (found_cons Strptime.dM (digits 2 (minute t))
       (found_cons Strptime.dS (digits 2 (second t)) o))))).

(** The bytes an atom can take: those of the ASCII characters it
    accepts, and for a group any byte of a character outside ASCII. *)
Definition atom_accepts (c : ascii) (a : Strptime.atom) : bool :=
  match a with
  | Strptime.Lit l => Strptime.eqb_ci c l
  | Strptime.Group _ alts =>
      (128 <=? byte c)
      || existsb (existsb (fun k => Strptime.cls_ok k (byte c))) alts
  end.

Fixpoint string_forall (P : ascii -> bool) (s : string) : bool :=
  match s with
  | EmptyString => true
  | String c s' => P c && string_forall P s'
  end.

(* ================================================================== *)
(** * The properties, in the words of the specification *)

(** A publish timestamp parses under one of the two accepted formats. *)
Definition parses_to (s : option string) (t : datetime) : Prop :=
  exists fmt, In fmt formats /\ Strptime.strptime s fmt = inr t.

(** The test of the recency filter on one record: its timestamp parses,
    to a time at or after the cutoff. *)
Definition recent (cutoff : datetime) (item : video) : bool :=
  match parse_iso_date (publishedAt (snippet item)) with
  | inr t => datetime_ge t cutoff
  | inl _ => false
  end.

(** The timestamp reads as the time [t] under one of the two accepted
    formats, with or without a fraction of a second. *)
Definition reads_as (ts : option string) (t : datetime) : Prop :=
  Strptime.strptime ts "%Y-%m-%dT%H:%M:%S.%fZ" = inr t
  \/ Strptime.strptime ts "%Y-%m-%dT%H:%M:%SZ" = inr t.

(** The record's publish timestamp reads under one of the two formats
    as a time on the time line at or after the cutoff. *)
Definition published_since (cutoff : datetime) (item : video) : bool :=
  let ts := publishedAt (snippet item) in
  match Strptime.strptime ts "%Y-%m-%dT%H:%M:%S.%fZ" with
  | inr t => instant cutoff <=? instant t
  | inl _ =>
      match Strptime.strptime ts "%Y-%m-%dT%H:%M:%SZ" with
      | inr t => instant cutoff <=? instant t
      | inl _ => false
      end
  end.

(** [l1] is [l2] with some elements left out, order kept. *)
Inductive subsequence {A : Type} : list A -> list A -> Prop :=
| subseq_nil : subsequence [] []
| subseq_skip x l1 l2 : subsequence l1 l2 -> subsequence l1 (x :: l2)
| subseq_keep x l1 l2 : subsequence l1 l2 -> subsequence (x :: l1) (x :: l2).

(** The record is one the aggregator counts: category id and title are
    present and not empty. *)
Definition counted (item : video) : bool :=
  truthy (categoryId (snippet item)) && truthy (title (snippet item)).

(** The record is a counted record of category [cid]. *)
Definition in_category (cid : string) (item : video) : bool :=
  counted item
  && match categoryId (snippet item) with
     | Some c => String.eqb c cid
     | None => false
     end.

(** The titles of the counted records of a category, in the order of the
    records. *)
Fixpoint category_titles (cid : string) (items : list video) : list string :=
  match items with
  | [] => []
  | item :: more =>
      if in_category cid item
      then match title (snippet item) with
           | Some t => t :: category_titles cid more
           | None => category_titles cid more
           end
      else category_titles cid more
  end.

(** The position, in the list of records, of the first counted record
    of a category. *)
Fixpoint first_seen (cid : string) (items : list video) : option nat :=
  match items with
  | [] => None
  | item :: more =>
      if in_category cid item then Some O
      else option_map S (first_seen cid more)
  end.

(** [x] stands somewhere in front of [y] in [l]. *)
Definition before {A : Type} (l : list A) (x y : A) : Prop :=
  exists l1 l2 l3, l = l1 ++ x :: l2 ++ y :: l3.

Definition sum_counts (counter : dict nat) : nat :=
  fold_right (fun kv acc => (snd kv + acc)%nat) 0%nat counter.

(** The categories the aggregator selects and the title lists, from the
    raw records and the cutoff. *)
Definition selected (items : list video) (threshold_date : datetime)
    : list (string * nat) * dict (list string) :=
  let '(category_counter, category_videos) :=
    aggregate (recency_filter items threshold_date) in
  (most_common 10 category_counter, category_videos).

(** Filling the placeholders [{key}] of a template; [hole] is the key
    being read, if the scan is inside braces. *)
Fixpoint fill (env : list (string * string)) (template : string)
    (hole : option string) : string :=
  match template with
  | EmptyString => ""
  | String c rest =>
      match hole with
      | None =>
          if Ascii.eqb c "{" then fill env rest (Some "")
          else String c (fill env rest None)
      | Some key =>
          if Ascii.eqb c "}"
          then (dict_get_default env key "" ++ fill env rest None)%string
          else fill env rest (Some (key ++ String c "")%string)
      end
  end.

Definition comment_template : string :=
  "There are {count} popular videos trending in the '{name}' category during this period.".

(** The comment as the specification words it. *)
Definition spec_comment (count : nat) (name : string) : string :=
  fill [("count", str_int (Z.of_nat count)); ("name", name)]
       comment_template None.

(** The three raw records of the scenario: two in category ["10"]
    published now, one in category ["20"] published at [ago]. *)
Definition scenario_records (idA idB idC : string) (now ago : datetime)
    : list video :=
  [mkvideo idA (mksnippet (Some (isoformat now ++ "Z")%string)
                          (Some "10") (Some "A"));
   mkvideo idB (mksnippet (Some (isoformat now ++ "Z")%string)
                          (Some "10") (Some "B"));
   mkvideo idC (mksnippet (Some (isoformat ago ++ "Z")%string)
                          (Some "20") (Some "C"))].

(** Order of two counter entries by count, larger first. *)
Definition count_ge (a b : string * nat) : Prop := (snd b <= snd a)%nat.

(* ================================================================== *)
(** * Concrete inputs *)

(** A record that passes the recency filter and has no title, with a
    cutoff before it. *)
Definition untitled_video : video :=
  mkvideo "v1" (mksnippet (Some "2024-03-15T12:00:00Z") (Some "10") None).

Definition cutoff_2024_03_08 : datetime := mkdatetime 2024 3 8 12 0 0 0.

(** A client whose listing of trending videos fails, and one whose
    category lookup fails after a listing of one recent video. *)
Definition quota_exceeded : exn := Exn HttpError "quotaExceeded".

Definition recent_video : video :=
  mkvideo "v1" (mksnippet (Some "2024-03-15T12:00:00Z") (Some "10") (Some "A")).

Definition failing_listing : client :=
  mkclient (fun _ _ => inl quota_exceeded)
           (fun _ => inr (mkresponse (Some []))).

Definition failing_lookup : client :=
  mkclient (fun _ _ => inr (mkresponse (Some [recent_video])))
           (fun _ => inl quota_exceeded).

(** A client whose category lookup answers without the category asked
    for. *)
Definition silent_lookup : client :=
  mkclient (fun _ _ => inr (mkresponse (Some [recent_video])))
           (fun _ => inr (mkresponse (Some [mkcategory "24" "Entertainment"]))).

Definition clock_2024_03_15 : datetime := mkdatetime 2024 3 15 18 30 0 250000.

(* ================================================================== *)
(** * [main]: the page *)

(** What [main] puts on the page, in order; the events of the call of
    [get_trending_topics] stand among them where they happen. *)
Inductive ui :=
| Title (text : string)
| Write (text : string)
| Sidebar_header (text : string)
| Sidebar_radio (label : string) (options : list string)
| Header (text : string)
| Subheader (text : string)
| Markdown (text : string)
| Caption (text : string)
| During (e : event).

(** The end of [main]: it returns nothing, or an exception leaves it. *)
Record page_outcome := mkpage {
  finished : raises unit;
  page : list ui
}.

Definition time_span_options : list string := ["1 Week"; "1 Month"; "6 Months"].
Definition region_options : list string := ["Brazil"; "World"].

(** [st.sidebar.radio(label, options)] returns the option the user has
    selected; [choice] is its index, and the first option is selected
    when the user has not chosen. *)
Definition radio (options : list string) (choice : nat) : string :=
  nth choice options (hd "" options).

(** [enumerate(l, start)]. *)
Fixpoint enumerate {A : Type} (l : list A) (start : Z) : list (Z * A) :=
  match l with
  | [] => []
  | x :: more => (start, x) :: enumerate more (start + 1)
  end.

(** The body of the loop over the topics. *)
Definition render_topic (rendered : list ui) (numbered : Z * topic_t)
    : list ui :=
  let '(i, topic_data) := numbered in
  rendered
  ++ [Subheader (str_int i ++ ". " ++ topic topic_data)%string;
      Write (comment topic_data)]
  ++ match videos topic_data with
     | [] => []
     | _ :: _ =>
         Markdown "**Trending Video Titles:**"
         :: fold_left (fun out title => out ++ [Markdown ("- " ++ title)%string])
                      (videos topic_data) []
     end
  ++ [Markdown "---"].

Section Main.
(** The client, the reading of the clock by [get_published_after], the
    selections in the side bar, and the text
    [datetime.datetime.now().strftime('%Y-%m-%d %H:%M:%S')] gives when
    the caption is written. *)
Variable youtube : client.
Variable utcnow : datetime.
Variable time_span_choice region_choice : nat.
Variable now_text : string.

Definition main : page_outcome :=
  let time_span := radio time_span_options time_span_choice in
  let region := radio region_options region_choice in
  let top_of_page :=
    [Title "YouTube Trends Explorer";
     Write "Explore the top 10 trending topics on YouTube over different time spans and regions based on video categories.";
     Sidebar_header "Configuration";
     Sidebar_radio "Select Time Span:" time_span_options;
     Sidebar_radio "Select Region:" region_options;
     Header ("Trending Topics for the Past " ++ time_span
             ++ " (" ++ region ++ ")")%string] in
  let run := get_trending_topics youtube utcnow time_span region in
  let shown := top_of_page ++ map During (trace run) in
  match returned run with
  | inl e => mkpage (inl e) shown
  | inr topics =>
      let body :=
        match topics with
        | _ :: _ => fold_left render_topic (enumerate topics 1) []
        | [] =>
            [Write "No data available for the selected time span and region."]
        end in
      mkpage (ret tt)
             (shown ++ body
              ++ [Markdown "---";
                  Caption ("Data last updated: " ++ now_text)%string])
  end.
End Main.

(* ================================================================== *)
(** * Further notions used by the properties *)

(** The titles a report shows, topic after topic. *)
Definition report_titles (topics : list topic_t) : list string :=
  flat_map videos topics.

(** The texts of the sub-headings of a page, in order. *)
Fixpoint subheadings (p : list ui) : list string :=
  match p with
  | [] => []
  | Subheader text :: more => text :: subheadings more
  | _ :: more => subheadings more
  end.

(** The texts of the [st.markdown] elements of a page, in order. *)
Fixpoint markdowns (p : list ui) : list string :=
  match p with
  | [] => []
  | Markdown text :: more => text :: markdowns more
  | _ :: more => markdowns more
  end.

(** The messages ([st.error], [st.info]) among events. *)
Definition is_message (e : event) : bool :=
  match e with
  | St_error _ | St_info _ => true
  | _ => false
  end.

(** The title of the last category of a list that has the identifier
    [k]. *)
Fixpoint last_title (k : string) (l : list category) : option string :=
  match l with
  | [] => None
  | c :: more =>
      match last_title k more with
      | Some t => Some t
      | None => if String.eqb (cat_id c) k then Some (cat_title c) else None
      end
  end.

(** A client that answers the listing with [recent_video] and
    [untitled_video] and knows the category ["10"] under two names. *)
Definition two_names_lookup : client :=
  mkclient (fun _ _ => inr (mkresponse (Some [recent_video; untitled_video])))
           (fun _ => inr (mkresponse (Some [mkcategory "10" "Music";
                                            mkcategory "10" "Musique"]))).

(** The characters a publish timestamp may hold to be read at all: the
    decimal digits, and "-", ":", ".", "T", "t", "Z", "z" and the
    blank. *)
Definition timestamp_code (cp : Z) : bool :=
  match decimal_value cp with Some _ => true | None => false end
  || existsb (fun c => cp =? byte c) (list_ascii_of_string "-:.TtZz ").

(** A text is made of characters that all satisfy [P]. *)
Inductive made_of (P : Z -> bool) : string -> Prop :=
| made_of_nil : made_of P ""
| made_of_char s cp bytes rest :
    next_char s = Some (cp, bytes, rest) -> P cp = true ->
    made_of P rest -> made_of P s.

(** The positions and atoms of the expressions of the two formats. *)
Definition cls_fine (k : Strptime.cls) : bool :=
  match k with
  | Strptime.Digit => true
  | Strptime.Range lo hi => is_digit lo && is_digit hi
  | Strptime.Chr c => is_digit c || Ascii.eqb c " "
  end.

Definition atom_fine (a : Strptime.atom) : bool :=
  match a with
  | Strptime.Lit l => existsb (Ascii.eqb l) (list_ascii_of_string "-:.TZ")
  | Strptime.Group _ alts => forallb (forallb cls_fine) alts
  end.

(** What the loop of [main] puts on the page for one numbered topic. *)
Definition topic_block (numbered : Z * topic_t) : list ui :=
  render_topic [] numbered.

(** The [st.markdown] texts of one topic that has titles. *)
Definition topic_markdowns (t : topic_t) : list string :=
  "**Trending Video Titles:**"
  :: map (fun title => ("- " ++ title)%string) (videos t) ++ ["---"].

Definition no_data_text : string :=
  "No data available for the selected time span and region.".

(* ================================================================== *)
(** * Facts about the calendar *)

Section CalendarFacts.
Import Calendar.

Lemma bounded_check (P : nat -> bool) (N : nat) :
  forallb P (seq 0 N) = true -> forall i, (i < N)%nat -> P i = true.
Proof.
  intros H i Hi. rewrite forallb_forall in H. apply H.
  apply in_seq. lia.
Qed.

Lemma month_day_spec (leap : bool) (n : Z) :
  0 <= n < (if leap then 366 else 365) ->
  let '(m, d) := month_day n leap in
  1 <= m <= 12 /\ 1 <= d <= dim_leap leap m /\ dbm_leap leap m + d = n + 1.
Proof.
  intros Hn.
  assert (H : month_day_ok leap (Z.to_nat n) = true).
  { destruct leap.
    - apply (bounded_check (month_day_ok true) 366); [vm_compute; reflexivity | lia].
    - apply (bounded_check (month_day_ok false) 365); [vm_compute; reflexivity | lia]. }
  unfold month_day_ok in H. rewrite Z2Nat.id in H by lia.
  destruct (month_day n leap) as [m d].
  repeat rewrite andb_true_iff in H.
  destruct H as [[[[H1 H2] H3] H4] H5].
  lia.
Qed.

Lemma is_leap_dim (y m : Z) : _days_in_month y m = dim_leap (_is_leap y) m.
Proof. reflexivity. Qed.

Lemma is_leap_dbm (y m : Z) : _days_before_month y m = dbm_leap (_is_leap y) m.
Proof. reflexivity. Qed.

(** [_ord2ymd] yields a date the constructor accepts, and [_ymd2ord]
    takes it back to the ordinal. *)
Lemma ord2ymd_spec (n : Z) :
  1 <= n <= _MAXORDINAL ->
  let '(y, m, d) := _ord2ymd n in
  check_date_fields y m d = true /\ _ymd2ord y m d = n.
Proof.
  intros Hn. unfold _MAXORDINAL in Hn.
  unfold _ord2ymd.
  change _DI400Y with 146097. change _DI100Y with 36524. change _DI4Y with 1461.
  set (n400 := (n - 1) / 146097).
  set (r400 := (n - 1) mod 146097).
  set (n100 := r400 / 36524).
  set (r100 := r400 mod 36524).
  set (n4 := r100 / 1461).
  set (r4 := r100 mod 1461).
  set (n1 := r4 / 365).
  set (r1 := r4 mod 365).
  assert (E400 : n - 1 = 146097 * n400 + r400 /\ 0 <= r400 < 146097)
    by (subst n400 r400; split; [apply Z.div_mod; lia | apply Z.mod_pos_bound; lia]).
  assert (E100 : r400 = 36524 * n100 + r100 /\ 0 <= r100 < 36524)
    by (subst n100 r100; split; [apply Z.div_mod; lia | apply Z.mod_pos_bound; lia]).
  assert (E4 : r100 = 1461 * n4 + r4 /\ 0 <= r4 < 1461)
    by (subst n4 r4; split; [apply Z.div_mod; lia | apply Z.mod_pos_bound; lia]).
  assert (E1 : r4 = 365 * n1 + r1 /\ 0 <= r1 < 365)
    by (subst n1 r1; split; [apply Z.div_mod; lia | apply Z.mod_pos_bound; lia]).
  assert (B400 : 0 <= n400) by (subst n400; apply Z.div_pos; lia).
  assert (B100 : 0 <= n100) by (subst n100; apply Z.div_pos; lia).
  assert (B4 : 0 <= n4) by (subst n4; apply Z.div_pos; lia).
  assert (B1 : 0 <= n1) by (subst n1; apply Z.div_pos; lia).
  clearbody n400 r400 n100 r100 n4 r4 n1 r1.
  set (Y := n400 * 400 + 100 * n100 + 4 * n4 + n1).
  assert (HY : n400 * 400 + 1 + n100 * 100 + n4 * 4 + n1 = Y + 1) by (subst Y; lia).
  rewrite HY.
  assert (Hdby : forall k, 0 <= k ->
             forall a b c d, 0 <= b -> 0 <= c -> 0 <= d ->
             100 * b + 4 * c + d < 400 -> 4 * c + d < 100 -> d < 4 ->
             k = 400 * a + 100 * b + 4 * c + d ->
             _days_before_year (k + 1) = 146097 * a + 36524 * b + 1461 * c + 365 * d).
  { intros k Hk a b c d Hb Hc Hd H1 H2 H3 ->. unfold _days_before_year.
    replace (400 * a + 100 * b + 4 * c + d + 1 - 1) with (400 * a + 100 * b + 4 * c + d) by lia.
    assert ((400 * a + 100 * b + 4 * c + d) / 400 = a)
      by (symmetry; apply (Z.div_unique _ 400 a (100 * b + 4 * c + d)); lia).
    assert ((400 * a + 100 * b + 4 * c + d) / 100 = 4 * a + b)
      by (symmetry; apply (Z.div_unique _ 100 (4 * a + b) (4 * c + d)); lia).
    assert ((400 * a + 100 * b + 4 * c + d) / 4 = 100 * a + 25 * b + c)
      by (symmetry; apply (Z.div_unique _ 4 (100 * a + 25 * b + c) d); lia).
    lia. }
  assert (Hleap : forall a b c d, 0 <= b < 4 -> 0 <= c < 25 -> 0 <= d < 4 ->
             _is_leap (400 * a + 100 * b + 4 * c + d + 1)
             = (d =? 3) && (negb (c =? 24) || (b =? 3))).
  { intros a b c d Hb Hc Hd. unfold _is_leap.
    set (k := 400 * a + 100 * b + 4 * c + d + 1).
    assert (M4 : k mod 4 = (d + 1) mod 4).
    { subst k. replace (400 * a + 100 * b + 4 * c + d + 1)
        with ((d + 1) + (100 * a + 25 * b + c) * 4) by lia.
      apply Z.mod_add. lia. }
    assert (M100 : k mod 100 = (4 * c + d + 1) mod 100).
    { subst k. replace (400 * a + 100 * b + 4 * c + d + 1)
        with ((4 * c + d + 1) + (4 * a + b) * 100) by lia.
      apply Z.mod_add. lia. }
    assert (M400 : k mod 400 = (100 * b + 4 * c + d + 1) mod 400).
    { subst k. replace (400 * a + 100 * b + 4 * c + d + 1)
        with ((100 * b + 4 * c + d + 1) + a * 400) by lia.
      apply Z.mod_add. lia. }
    rewrite M4, M100, M400.
    assert (d = 0 \/ d = 1 \/ d = 2 \/ d = 3) as Hd' by lia.
    destruct (Z.eqb_spec d 3) as [->|Hd3].
    - replace ((3 + 1) mod 4) with 0 by reflexivity.
      change (0 =? 0) with true. cbn [andb].
      destruct (Z.eqb_spec c 24) as [->|Hc24].
      + replace ((4 * 24 + 3 + 1) mod 100) with 0 by reflexivity.
        change (0 =? 0) with true. cbn [andb orb negb].
        destruct (Z.eqb_spec b 3) as [->|Hb3].
        * reflexivity.
        * assert (b = 0 \/ b = 1 \/ b = 2) as [-> | [-> | ->]] by lia; reflexivity.
      + cbn [andb orb negb]. rewrite (Z.mod_small (4 * c + 3 + 1)) by lia.
        destruct (Z.eqb_spec (4 * c + 3 + 1) 0); [lia | reflexivity].
    - rewrite (Z.mod_small (d + 1)) by lia.
      destruct (Z.eqb_spec (d + 1) 0); [lia | reflexivity]. }
  idtac.
  destruct (Z.eqb_spec n1 4) as [Hn1|Hn1]; [|destruct (Z.eqb_spec n100 4) as [Hn100|Hn100]]; simpl orb; cbv iota.
  - (* the last day of a leap year that ends a four-year cycle *)
    assert (r1 = 0) by lia. assert (n4 < 25) by lia. assert (n100 < 4) by lia.
    replace (Y + 1 - 1) with ((Y - 1) + 1) by lia.
    assert (HL : _is_leap (Y - 1 + 1) = true).
    { replace (Y - 1 + 1) with (400 * n400 + 100 * n100 + 4 * n4 + 3 + 1) by (subst Y; lia).
      rewrite Hleap by lia. simpl.
      destruct (Z.eqb_spec n4 24); [lia | reflexivity]. }
    split.
    + unfold check_date_fields, MINYEAR, MAXYEAR.
      rewrite is_leap_dim, HL. unfold dim_leap. simpl.
      repeat rewrite andb_true_iff. repeat split; try reflexivity; apply Z.leb_le; subst Y; lia.
    + unfold _ymd2ord. rewrite is_leap_dbm, HL.
      rewrite (Hdby (Y - 1) ltac:(subst Y; lia) n400 n100 n4 3) by (subst Y; lia).
      change (dbm_leap true 12) with 335. lia.
  - (* the last day of a year that ends a 400-year cycle *)
    assert (r100 = 0) by lia. assert (n4 = 0) by lia. assert (r4 = 0) by lia.
    assert (n1 = 0) by lia.
    replace (Y + 1 - 1) with ((Y - 1) + 1) by lia.
    assert (HL : _is_leap (Y - 1 + 1) = true).
    { replace (Y - 1 + 1) with (400 * n400 + 100 * 3 + 4 * 24 + 3 + 1) by (subst Y; lia).
      rewrite Hleap by lia. reflexivity. }
    split.
    + unfold check_date_fields, MINYEAR, MAXYEAR.
      rewrite is_leap_dim, HL. unfold dim_leap. simpl.
      repeat rewrite andb_true_iff. repeat split; try reflexivity; apply Z.leb_le; subst Y; lia.
    + unfold _ymd2ord. rewrite is_leap_dbm, HL.
      rewrite (Hdby (Y - 1) ltac:(subst Y; lia) n400 3 24 3) by (subst Y; lia).
      change (dbm_leap true 12) with 335. lia.
  - assert (n1 < 4) by lia. assert (n100 < 4) by lia. assert (n4 < 25) by lia.
    set (leapyear := (n1 =? 3) && (negb (n4 =? 24) || (n100 =? 3))).
    assert (HL : _is_leap (Y + 1) = leapyear).
    { subst Y leapyear. rewrite <- (Hleap n400 n100 n4 n1) by lia. f_equal. lia. }
    assert (Hr : 0 <= r1 < (if leapyear then 366 else 365)) by (destruct leapyear; lia).
    pose proof (month_day_spec leapyear r1 Hr) as Hmd.
    unfold month_day in Hmd.
    destruct (if r1 <? _ then _ else _) as [m p] in Hmd |- *.
    destruct Hmd as (Hm & Hd & He).
    split.
    + unfold check_date_fields, MINYEAR, MAXYEAR.
      rewrite is_leap_dim, HL.
      repeat rewrite andb_true_iff. repeat split; apply Z.leb_le; subst Y; lia.
    + unfold _ymd2ord. rewrite is_leap_dbm, HL.
      rewrite (Hdby Y ltac:(subst Y; lia) n400 n100 n4 n1) by (subst Y; lia).
      lia.
Qed.

End CalendarFacts.

(* ================================================================== *)
(** * Fields and ordinals order dates alike *)

Section OrderFacts.
Import Calendar.

Lemma days_before_year_succ (y : Z) :
  1 <= y ->
  _days_before_year (y + 1)
  = _days_before_year y + (if _is_leap y then 366 else 365).
Proof.
  intros Hy. unfold _days_before_year, _is_leap.
  replace (y + 1 - 1) with y by lia.
  destruct (Z.eqb_spec (y mod 4) 0) as [H4|H4];
  destruct (Z.eqb_spec (y mod 100) 0) as [H100|H100];
  destruct (Z.eqb_spec (y mod 400) 0) as [H400|H400];
  cbn [andb orb negb]; Z.div_mod_to_equations; lia.
Qed.

Lemma days_before_year_mono (y1 y2 : Z) :
  1 <= y1 <= y2 -> _days_before_year y1 <= _days_before_year y2.
Proof.
  intros H. unfold _days_before_year. Z.div_mod_to_equations. lia.
Qed.

Lemma dbm_leap_step (leap : bool) (m : Z) :
  1 <= m <= 12 ->
  0 <= dbm_leap leap m /\
  dbm_leap leap m + dim_leap leap m <= (if leap then 366 else 365) /\
  forall m', m < m' <= 12 -> dbm_leap leap m + dim_leap leap m <= dbm_leap leap m'.
Proof.
  intros Hm.
  assert (m = 1 \/ m = 2 \/ m = 3 \/ m = 4 \/ m = 5 \/ m = 6 \/ m = 7 \/ m = 8
          \/ m = 9 \/ m = 10 \/ m = 11 \/ m = 12) as Hc by lia.
  assert (forall m', 1 <= m' <= 12 -> m' = 1 \/ m' = 2 \/ m' = 3 \/ m' = 4
          \/ m' = 5 \/ m' = 6 \/ m' = 7 \/ m' = 8
          \/ m' = 9 \/ m' = 10 \/ m' = 11 \/ m' = 12) as Hc' by (intros; lia).
  destruct leap;
  repeat (destruct Hc as [-> | Hc]; [ repeat split; try (vm_compute; congruence);
    intros m' Hm'; destruct (Hc' m' ltac:(lia)) as [-> | [-> | [-> | [-> | [-> | [-> | [-> | [-> | [-> | [-> | [-> | ->]]]]]]]]]]]; try lia; vm_compute; congruence | ]);
  subst m; (repeat split; try (vm_compute; congruence);
    intros m' Hm'; lia).
Qed.

(** Dates the constructor accepts compare by their fields the way their
    ordinals compare. *)
Lemma date_cmp_ordinal (y1 m1 d1 y2 m2 d2 : Z) :
  check_date_fields y1 m1 d1 = true ->
  check_date_fields y2 m2 d2 = true ->
  tuple_cmp [y1; m1; d1] [y2; m2; d2]
  = (_ymd2ord y1 m1 d1 ?= _ymd2ord y2 m2 d2).
Proof.
  unfold check_date_fields, MINYEAR, MAXYEAR.
  repeat rewrite andb_true_iff. repeat rewrite Z.leb_le.
  intros [[[[[Hy1 Hy1'] Hm1] Hm1'] Hd1] Hd1'] [[[[[Hy2 Hy2'] Hm2] Hm2'] Hd2] Hd2'].
  rewrite is_leap_dim in Hd1', Hd2'.
  unfold _ymd2ord. rewrite !is_leap_dbm.
  pose proof (dbm_leap_step (_is_leap y1) m1 ltac:(lia)) as (P1 & Q1 & R1).
  pose proof (dbm_leap_step (_is_leap y2) m2 ltac:(lia)) as (P2 & Q2 & R2).
  cbn [tuple_cmp].
  destruct (Z.compare_spec y1 y2) as [Ey | Ly | Ly].
  - subst y2.
    destruct (Z.compare_spec m1 m2) as [Em | Lm | Lm].
    + subst m2.
      destruct (Z.compare_spec d1 d2) as [Ed | Ld | Ld]; symmetry.
      * apply Z.compare_eq_iff. lia.
      * apply Z.compare_lt_iff. lia.
      * apply Z.compare_gt_iff. lia.
    + symmetry. apply Z.compare_lt_iff. specialize (R1 m2 ltac:(lia)). lia.
    + symmetry. apply Z.compare_gt_iff. specialize (R2 m1 ltac:(lia)). lia.
  - symmetry. apply Z.compare_lt_iff.
    pose proof (days_before_year_succ y1 ltac:(lia)).
    pose proof (days_before_year_mono (y1 + 1) y2 ltac:(lia)).
    destruct (_is_leap y1); lia.
  - symmetry. apply Z.compare_gt_iff.
    pose proof (days_before_year_succ y2 ltac:(lia)).
    pose proof (days_before_year_mono (y2 + 1) y1 ltac:(lia)).
    destruct (_is_leap y2); lia.
Qed.

End OrderFacts.

(* ================================================================== *)
(** * Comparison and subtraction of datetimes *)

Section DatetimeFacts.
Import Calendar.

Lemma valid_datetime_fields (t : datetime) :
  valid_datetime t = true ->
  check_date_fields (year t) (month t) (day t) = true /\
  0 <= hour t <= 23 /\ 0 <= minute t <= 59 /\ 0 <= second t <= 59 /\
  0 <= microsecond t <= 999999.
Proof.
  unfold valid_datetime, check_time_fields.
  repeat rewrite andb_true_iff. repeat rewrite Z.leb_le. intuition.
Qed.

Lemma valid_datetime_intro (y m d hh mm ss us : Z) :
  check_date_fields y m d = true ->
  0 <= hh <= 23 -> 0 <= mm <= 59 -> 0 <= ss <= 59 -> 0 <= us <= 999999 ->
  valid_datetime (mkdatetime y m d hh mm ss us) = true.
Proof.
  intros Hd Hh Hm Hs Hu. unfold valid_datetime, check_time_fields. cbn.
  rewrite Hd. repeat rewrite andb_true_iff. repeat rewrite Z.leb_le. intuition.
Qed.

Lemma tuple_cmp_app (a b a' b' : list Z) :
  List.length a = List.length b ->
  tuple_cmp (a ++ a') (b ++ b')
  = match tuple_cmp a b with Eq => tuple_cmp a' b' | c => c end.
Proof.
  revert b. induction a as [|x a IH]; intros [|y b] Hl; try discriminate.
  - reflexivity.
  - cbn. destruct (x ?= y); auto.
Qed.

Lemma time_cmp_seconds (h1 m1 s1 u1 h2 m2 s2 u2 : Z) :
  0 <= m1 <= 59 -> 0 <= s1 <= 59 -> 0 <= u1 <= 999999 ->
  0 <= m2 <= 59 -> 0 <= s2 <= 59 -> 0 <= u2 <= 999999 ->
  tuple_cmp [h1; m1; s1; u1] [h2; m2; s2; u2]
  = ((h1 * 3600 + m1 * 60 + s1) * 1000000 + u1
     ?= (h2 * 3600 + m2 * 60 + s2) * 1000000 + u2).
Proof.
  intros. cbn [tuple_cmp].
  destruct (Z.compare_spec h1 h2); [destruct (Z.compare_spec m1 m2);
    [destruct (Z.compare_spec s1 s2); [destruct (Z.compare_spec u1 u2)| |]| |]| |];
  symmetry;
  first [ apply Z.compare_eq_iff; lia | apply Z.compare_lt_iff; lia
        | apply Z.compare_gt_iff; lia ].
Qed.

(** Comparison of datetimes is comparison of their instants. *)
Lemma datetime_cmp_instant (a b : datetime) :
  valid_datetime a = true -> valid_datetime b = true ->
  datetime_cmp a b = (instant a ?= instant b).
Proof.
  intros Ha Hb.
  apply valid_datetime_fields in Ha as (Da & Hh1 & Hm1 & Hs1 & Hu1).
  apply valid_datetime_fields in Hb as (Db & Hh2 & Hm2 & Hs2 & Hu2).
  unfold datetime_cmp, fields, instant, toordinal.
  change [year a; month a; day a; hour a; minute a; second a; microsecond a]
    with ([year a; month a; day a] ++ [hour a; minute a; second a; microsecond a]).
  change [year b; month b; day b; hour b; minute b; second b; microsecond b]
    with ([year b; month b; day b] ++ [hour b; minute b; second b; microsecond b]).
  rewrite tuple_cmp_app by reflexivity.
  rewrite (date_cmp_ordinal _ _ _ _ _ _ Da Db).
  rewrite time_cmp_seconds by lia.
  set (o1 := _ymd2ord (year a) (month a) (day a)).
  set (o2 := _ymd2ord (year b) (month b) (day b)).
  destruct (Z.compare_spec o1 o2); symmetry;
  [ subst o2;
    destruct (Z.compare_spec ((hour a * 3600 + minute a * 60 + second a) * 1000000 + microsecond a)
                             ((hour b * 3600 + minute b * 60 + second b) * 1000000 + microsecond b));
    [ apply Z.compare_eq_iff | apply Z.compare_lt_iff | apply Z.compare_gt_iff ]; lia
  | apply Z.compare_lt_iff; lia
  | apply Z.compare_gt_iff; lia ].
Qed.

Lemma datetime_ge_instant (a b : datetime) :
  valid_datetime a = true -> valid_datetime b = true ->
  datetime_ge a b = (instant b <=? instant a).
Proof.
  intros Ha Hb. unfold datetime_ge. rewrite datetime_cmp_instant by assumption.
  destruct (Z.compare_spec (instant a) (instant b)); symmetry;
  [ apply Z.leb_le | apply Z.leb_gt | apply Z.leb_le ]; lia.
Qed.

(** Subtracting whole days keeps the time of day and moves the ordinal. *)
Lemma datetime_sub_days_spec (now : datetime) (k : Z) :
  valid_datetime now = true ->
  0 < toordinal now - k <= _MAXORDINAL ->
  exists t,
    datetime_sub_days now k = inr t /\
    valid_datetime t = true /\
    toordinal t = toordinal now - k /\
    hour t = hour now /\ minute t = minute now /\ second t = second now /\
    microsecond t = microsecond now.
Proof.
  intros Hv Hk.
  apply valid_datetime_fields in Hv as (Hd & Hh & Hm & Hs & Hu).
  unfold datetime_sub_days.
  rewrite (Z.div_small (microsecond now)) by lia.
  rewrite (Z.mod_small (microsecond now)) by lia.
  rewrite Z.add_0_r.
  set (s := hour now * 3600 + minute now * 60 + second now).
  assert (Hsb : 0 <= s < 86400) by (subst s; lia).
  rewrite (Z.div_small s) by lia. rewrite (Z.mod_small s) by lia.
  rewrite Z.add_0_r.
  assert (Hhh : s / 3600 = hour now)
    by (symmetry; apply (Z.div_unique s 3600 (hour now) (minute now * 60 + second now)); subst s; lia).
  assert (Hrem : s mod 3600 = minute now * 60 + second now)
    by (symmetry; apply (Z.mod_unique s 3600 (hour now) (minute now * 60 + second now)); subst s; lia).
  rewrite Hhh, Hrem.
  assert (Hmm : (minute now * 60 + second now) / 60 = minute now)
    by (symmetry; apply (Z.div_unique _ 60 (minute now) (second now)); lia).
  assert (Hss : (minute now * 60 + second now) mod 60 = second now)
    by (symmetry; apply (Z.mod_unique _ 60 (minute now) (second now)); lia).
  rewrite Hmm, Hss.
  replace ((0 <? toordinal now - k) && (toordinal now - k <=? _MAXORDINAL)) with true
    by (symmetry; apply andb_true_iff; split; [apply Z.ltb_lt | apply Z.leb_le]; lia).
  pose proof (ord2ymd_spec (toordinal now - k) ltac:(lia)) as Ho.
  destruct (_ord2ymd (toordinal now - k)) as [[y m] d].
  destruct Ho as [Hc Ho].
  eexists. split; [reflexivity|].
  split; [apply valid_datetime_intro; assumption|].
  cbn. unfold toordinal. cbn. auto.
Qed.

End DatetimeFacts.

(* ================================================================== *)
(** * Facts about decimal text *)

Section TextFacts.

Lemma append_assoc (a b c : string) : ((a ++ b) ++ c = a ++ (b ++ c))%string.
Proof. induction a as [|x a IH]; cbn; [reflexivity | now rewrite IH]. Qed.

Lemma append_nil_r (a : string) : (a ++ "" = a)%string.
Proof. induction a as [|x a IH]; cbn; [reflexivity | now rewrite IH]. Qed.

Lemma append_length (a b : string) :
  String.length (a ++ b) = (String.length a + String.length b)%nat.
Proof. induction a as [|x a IH]; cbn; [reflexivity | now rewrite IH]. Qed.

Lemma zeros_length (n : nat) : String.length (zeros n) = n.
Proof. induction n; cbn; congruence. Qed.

Lemma zeros_snoc (n : nat) : (zeros n ++ "0" = zeros (S n))%string.
Proof. induction n as [|n IH]; cbn; [reflexivity | now rewrite IH]. Qed.

Lemma zeros_add (m n : nat) : (zeros m ++ zeros n = zeros (m + n))%string.
Proof. induction m as [|m IH]; cbn; [reflexivity | now rewrite IH]. Qed.

Lemma digit_char_cases (d : Z) :
  0 <= d < 10 ->
  d = 0 \/ d = 1 \/ d = 2 \/ d = 3 \/ d = 4 \/ d = 5 \/ d = 6 \/ d = 7
  \/ d = 8 \/ d = 9.
Proof. lia. Qed.

Lemma is_digit_digit_char (d : Z) : 0 <= d < 10 -> is_digit (digit_char d) = true.
Proof.
  intros H. destruct (digit_char_cases d H) as [-> | [-> | [-> | [-> | [-> | [-> | [-> | [-> | [-> | ->]]]]]]]]]; reflexivity.
Qed.

Lemma digit_value_digit_char (d : Z) : 0 <= d < 10 -> digit_value (digit_char d) = d.
Proof.
  intros H. destruct (digit_char_cases d H) as [-> | [-> | [-> | [-> | [-> | [-> | [-> | [-> | [-> | ->]]]]]]]]]; reflexivity.
Qed.

Lemma is_space_digit (c : ascii) : is_digit c = true -> is_space c = false.
Proof.
  unfold is_digit, is_space. intros H.
  apply andb_true_iff in H as [H1 H2].
  apply Nat.leb_le in H1. apply Nat.leb_le in H2.
  apply orb_false_iff. split.
  - apply Nat.eqb_neq. lia.
  - apply andb_false_iff. right. apply Nat.leb_gt. lia.
Qed.

Lemma digits_length (k : nat) (v : Z) : String.length (digits k v) = k.
Proof.
  revert v. induction k as [|k IH]; intros v; cbn [digits]; [reflexivity|].
  rewrite append_length, IH. cbn [String.length]. lia.
Qed.

Lemma all_digits_app (a b : string) :
  all_digits (a ++ b) = all_digits a && all_digits b.
Proof.
  induction a as [|x a IH]; cbn; [reflexivity|].
  rewrite IH. now rewrite andb_assoc.
Qed.

Lemma digits_all_digits (k : nat) (v : Z) : all_digits (digits k v) = true.
Proof.
  revert v. induction k as [|k IH]; intros v; cbn [digits]; [reflexivity|].
  rewrite all_digits_app, IH. cbn [all_digits andb].
  rewrite is_digit_digit_char; [reflexivity|].
  apply Z.mod_pos_bound. lia.
Qed.

Lemma digits_zero (m : nat) : digits m 0 = zeros m.
Proof.
  induction m as [|m IH]; [reflexivity|].
  cbn [digits]. change (0 / 10) with 0. change (0 mod 10) with 0.
  rewrite IH. apply zeros_snoc.
Qed.

(** Digits beyond the size of the number are zeros in front. *)
Lemma digits_pad (j m : nat) (v : Z) :
  0 <= v < 10 ^ Z.of_nat j ->
  digits (m + j) v = (zeros m ++ digits j v)%string.
Proof.
  revert v. induction j as [|j IH]; intros v Hv.
  - assert (v = 0) by (cbn in Hv; lia). subst v.
    rewrite Nat.add_0_r, digits_zero. cbn. now rewrite append_nil_r.
  - rewrite Nat.add_succ_r. cbn [digits].
    rewrite IH.
    + now rewrite append_assoc.
    + rewrite Nat2Z.inj_succ, Z.pow_succ_r in Hv by lia.
      split; [apply Z.div_pos; lia | apply Z.div_lt_upper_bound; lia].
Qed.

Lemma dec_digits_spec (fuel : nat) :
  forall (v : Z) (acc : string),
  0 <= v < 2 ^ (Z.of_nat fuel + 1) ->
  exists j : nat,
    (1 <= j)%nat /\
    dec_digits fuel v acc = (digits j v ++ acc)%string /\
    v < 10 ^ Z.of_nat j /\
    (j = 1%nat \/ 10 ^ (Z.of_nat j - 1) <= v).
Proof.
  induction fuel as [|fuel IH]; intros v acc Hv.
  - exists 1%nat. cbn in Hv. cbn [dec_digits digits].
    split; [lia|]. split; [reflexivity|]. split; [cbn; lia | now left].
  - cbn [dec_digits].
    destruct (Z.eqb_spec (v / 10) 0) as [E|E].
    + exists 1%nat. split; [lia|]. split; [reflexivity|]. split; [|now left].
      change (10 ^ Z.of_nat 1) with 10.
      pose proof (Z.div_mod v 10 ltac:(lia)). pose proof (Z.mod_pos_bound v 10 ltac:(lia)). lia.
    + assert (H10 : 0 <= v / 10 < 2 ^ (Z.of_nat fuel + 1)).
      { split; [apply Z.div_pos; lia|].
        apply Z.div_lt_upper_bound; [lia|].
        rewrite Nat2Z.inj_succ in Hv.
        replace (Z.succ (Z.of_nat fuel) + 1) with (Z.succ (Z.of_nat fuel + 1)) in Hv by lia.
        rewrite Z.pow_succ_r in Hv by lia. lia. }
      destruct (IH (v / 10) (String (digit_char (v mod 10)) acc) H10)
        as (j & Hj & Hd & Hlt & Hge).
      exists (S j). split; [lia|]. split; [|split].
      * rewrite Hd. cbn [digits]. rewrite append_assoc. reflexivity.
      * rewrite Nat2Z.inj_succ, Z.pow_succ_r by lia.
        pose proof (Z.div_mod v 10 ltac:(lia)). pose proof (Z.mod_pos_bound v 10 ltac:(lia)). lia.
      * right. rewrite Nat2Z.inj_succ.
        replace (Z.succ (Z.of_nat j) - 1) with (Z.succ (Z.of_nat j - 1)) by lia.
        rewrite Z.pow_succ_r by lia.
        pose proof (Z.div_mod v 10 ltac:(lia)). pose proof (Z.mod_pos_bound v 10 ltac:(lia)).
        destruct Hge as [-> | Hge].
        -- change (10 ^ (Z.of_nat 1 - 1)) with 1.
           assert (0 < v / 10) by lia. lia.
        -- lia.
Qed.

Lemma str_int_digits (v : Z) :
  0 <= v ->
  exists j : nat,
    (1 <= j)%nat /\ str_int v = digits j v /\ v < 10 ^ Z.of_nat j /\
    (j = 1%nat \/ 10 ^ (Z.of_nat j - 1) <= v).
Proof.
  intros Hv. unfold str_int.
  destruct (Z.ltb_spec v 0) as [?|_]; [lia|].
  assert (Hf : 0 <= v < 2 ^ (Z.of_nat (Z.to_nat (Z.log2 v)) + 1)).
  { rewrite Z2Nat.id by apply Z.log2_nonneg.
    destruct (Z.eq_dec v 0) as [->|Hn]; [cbn; lia|].
    pose proof (Z.log2_spec v ltac:(lia)).
    replace (Z.log2 v + 1) with (Z.succ (Z.log2 v)) by lia. lia. }
  destruct (dec_digits_spec _ v "" Hf) as (j & H1 & H2 & H3 & H4).
  exists j. rewrite H2, append_nil_r. auto.
Qed.

(** A number that fits the width is written with exactly that many
    digits. *)
Lemma fmt_0d_digits (k : nat) (v : Z) :
  (1 <= k)%nat -> 0 <= v < 10 ^ Z.of_nat k -> fmt_0d k v = digits k v.
Proof.
  intros Hk Hv. unfold fmt_0d.
  destruct (str_int_digits v ltac:(lia)) as (j & Hj & Hs & Hlt & Hge).
  rewrite Hs, digits_length.
  assert (Hjk : (j <= k)%nat).
  { destruct Hge as [-> | Hge]; [lia|].
    destruct (Nat.le_gt_cases j k) as [?|Hgt]; [assumption|exfalso].
    assert (10 ^ Z.of_nat k <= 10 ^ (Z.of_nat j - 1))
      by (apply Z.pow_le_mono_r; lia).
    lia. }
  replace k with ((k - j) + j)%nat at 2 by lia.
  now rewrite digits_pad.
Qed.

Lemma byte_range (a : ascii) : 0 <= byte a < 256.
Proof.
  unfold byte. pose proof (nat_ascii_bounded a). lia.
Qed.

Lemma next_char_ascii (a : ascii) (s : string) :
  byte a < 128 -> next_char (String a s) = Some (byte a, String a "", s).
Proof.
  intros H. unfold next_char.
  destruct (Z.ltb_spec (byte a) 128); [reflexivity | lia].
Qed.

Lemma is_digit_byte (a : ascii) :
  is_digit a = true -> 48 <= byte a <= 57.
Proof.
  unfold is_digit, byte. intros H. apply andb_true_iff in H as [H1 H2].
  apply Nat.leb_le in H1. apply Nat.leb_le in H2. lia.
Qed.

Lemma decimal_value_ascii (cp : Z) :
  48 <= cp <= 57 -> decimal_value cp = Some (cp - 48).
Proof.
  intros H. unfold decimal_value, decimal_blocks. cbn [find].
  destruct (Z.leb_spec 48 cp); [|lia].
  destruct (Z.ltb_spec cp (48 + 10)); [reflexivity | lia].
Qed.

Lemma byte_digit_char (d : Z) : 0 <= d < 10 -> byte (digit_char d) = 48 + d.
Proof.
  intros H. destruct (digit_char_cases d H) as [-> | [-> | [-> | [-> | [-> | [-> | [-> | [-> | [-> | ->]]]]]]]]]; reflexivity.
Qed.

Lemma digits_value_app (k : nat) :
  forall (v acc : Z) (rest : string) (fuel : nat),
  0 <= v < 10 ^ Z.of_nat k ->
  digits_value_from (k + fuel) (digits k v ++ rest) acc
  = digits_value_from fuel rest (acc * 10 ^ Z.of_nat k + v).
Proof.
  induction k as [|k IH]; intros v acc rest fuel Hv.
  - cbn in Hv. assert (v = 0) by lia. subst. cbn [digits append Nat.add].
    f_equal. cbn. lia.
  - cbn [digits]. rewrite append_assoc.
    rewrite Nat2Z.inj_succ, Z.pow_succ_r in * by lia.
    pose proof (Z.div_mod v 10 ltac:(lia)). pose proof (Z.mod_pos_bound v 10 ltac:(lia)).
    replace (S k + fuel)%nat with (k + S fuel)%nat by lia.
    rewrite IH by (split; [apply Z.div_pos; lia | apply Z.div_lt_upper_bound; lia]).
    cbn [append digits_value_from].
    rewrite next_char_ascii by (rewrite byte_digit_char; lia).
    rewrite byte_digit_char by lia.
    rewrite decimal_value_ascii by lia.
    f_equal. lia.
Qed.

(** [int] reads back what the padded format wrote. *)
Lemma py_int_digits (k : nat) (v : Z) :
  (1 <= k)%nat -> 0 <= v < 10 ^ Z.of_nat k -> py_int (digits k v) = inr v.
Proof.
  intros Hk Hv. unfold py_int.
  pose proof (digits_all_digits k v) as Ha.
  pose proof (digits_length k v) as Hl.
  pose proof (digits_value_app k v 0 "" 0 Hv) as Hd.
  rewrite append_nil_r, Nat.add_0_r in Hd.
  destruct (digits k v) as [|c r] eqn:E; [cbn in Hl; lia|].
  cbn [all_digits] in Ha. apply andb_true_iff in Ha as [Hc _].
  cbn [lstrip]. rewrite (is_space_digit c Hc).
  unfold digits_value. rewrite Hl, Hd. cbn [digits_value_from].
  unfold ret; repeat f_equal; try lia.
Qed.

End TextFacts.

(* ================================================================== *)
(** * How the groups of the expression read digits *)

Section MatchFacts.
Import Strptime.

Lemma re_match_group (d : directive) (alts : list (list cls)) (p : list atom)
    (s : string) :
  re_match (Group d alts :: p) s
  = first_alt alts s (fun m rest => found_cons d m (re_match p rest)).
Proof. reflexivity. Qed.

Lemma re_match_lit (c a : ascii) (p : list atom) (s : string) :
  re_match (Lit c :: p) (String a s)
  = if eqb_ci a c then re_match p s else None.
Proof. reflexivity. Qed.

Lemma cls_ok_digit (k : cls) (a : ascii) :
  k = Digit \/ k = Range "0" "9" ->
  is_digit a = true -> cls_ok k (byte a) = true.
Proof.
  intros Hk Ha. apply is_digit_byte in Ha.
  destruct Hk as [-> | ->]; cbn [cls_ok].
  - now rewrite decimal_value_ascii.
  - change (byte "0") with 48. change (byte "9") with 57.
    apply andb_true_iff. split; apply Z.leb_le; lia.
Qed.

Lemma match_alt_digits (k : cls) (s rest : string) :
  k = Digit \/ k = Range "0" "9" ->
  all_digits s = true ->
  match_alt (repeat k (String.length s)) (s ++ rest) = Some (s, rest).
Proof.
  intros Hk. induction s as [|c s IH]; intros H; cbn [all_digits] in H.
  - reflexivity.
  - apply andb_true_iff in H as [Hc Hs].
    cbn [String.length repeat append match_alt].
    rewrite next_char_ascii by (apply is_digit_byte in Hc; lia).
    rewrite (cls_ok_digit k c Hk Hc), (IH Hs). reflexivity.
Qed.

Lemma found_cons_idem (R : Type) (o : option R) :
  match o with Some r => Some r | None => None end = o.
Proof. destruct o; reflexivity. Qed.

(** The year group takes the four digits of the year. *)
Lemma re_match_year (v : Z) (p : list atom) (rest : string) :
  re_match (Group dY (regex_of dY) :: p) (digits 4 v ++ rest)
  = found_cons dY (digits 4 v) (re_match p rest).
Proof.
  rewrite re_match_group. cbn [regex_of first_alt].
  change [Digit; Digit; Digit; Digit] with (repeat Digit 4).
  rewrite <- (digits_length 4 v) at 1.
  rewrite match_alt_digits by (auto using digits_all_digits).
  apply found_cons_idem.
Qed.

(** The fraction group is greedy: six digits are taken whole. *)
Lemma re_match_fraction (v : Z) (p : list atom) (rest : string) f tail :
  re_match p rest = Some (f, tail) ->
  re_match (Group df (regex_of df) :: p) (digits 6 v ++ rest)
  = Some ((df, digits 6 v) :: f, tail).
Proof.
  intros H. rewrite re_match_group. cbn [regex_of first_alt].
  rewrite <- (digits_length 6 v) at 1.
  rewrite match_alt_digits by (auto using digits_all_digits).
  rewrite H. reflexivity.
Qed.

Lemma range_enum (lo hi v : Z) :
  lo <= v <= hi -> exists i : nat, v = lo + Z.of_nat i /\ (i <= Z.to_nat (hi - lo))%nat.
Proof. intros H. exists (Z.to_nat (v - lo)). lia. Qed.

Ltac two_digit_case K HK rest :=
  match goal with
  | |- context [digits 2 ?v] =>
      let s := eval vm_compute in (digits 2 v) in
      change (digits 2 v) with s
  end;
  vm_compute; rewrite ?HK by reflexivity;
  destruct (K rest) as [[? ?]|]; reflexivity.

(** A two-digit field followed by something no digit can start: the
    group takes both digits or the match fails. *)
Lemma first_alt_two_digits (d : directive) (v : Z)
    (K : string -> option (list (directive * string) * string))
    (rest : string) :
  match d with dY | df => False | _ => True end ->
  fst (field_range d) <= v <= snd (field_range d) ->
  (forall a s, is_digit a = true -> K (String a s) = None) ->
  first_alt (regex_of d) (digits 2 v ++ rest)
            (fun m r => found_cons d m (K r))
  = found_cons d (digits 2 v) (K rest).
Proof.
  intros Hd Hv HK.
  destruct (range_enum _ _ _ Hv) as (i & -> & Hi). clear Hv.
  destruct d; try contradiction; cbn [field_range fst snd] in Hi;
    change (Z.to_nat (12 - 1)) with 11%nat in Hi;
    change (Z.to_nat (31 - 1)) with 30%nat in Hi;
    change (Z.to_nat (23 - 0)) with 23%nat in Hi;
    change (Z.to_nat (59 - 0)) with 59%nat in Hi;
    cbn [field_range fst];
    do 60 (destruct i as [|i];
           [first [exfalso; lia | two_digit_case K HK rest] | ]);
    exfalso; lia.
Qed.

End MatchFacts.

(* ================================================================== *)
(** * [strptime] reads back what [isoformat] writes *)

Section RoundTrip.
Import Strptime.

Lemma lower_digit (a : ascii) : is_digit a = true -> lower a = a.
Proof.
  unfold is_digit, lower. intros H.
  apply andb_true_iff in H as [H1 H2].
  apply Nat.leb_le in H1. apply Nat.leb_le in H2.
  replace ((65 <=? nat_of_ascii a)%nat) with false
    by (symmetry; apply Nat.leb_gt; lia).
  reflexivity.
Qed.

Lemma digit_not_sep (a c : ascii) :
  is_digit a = true -> is_digit c = false -> eqb_ci a c = false.
Proof.
  intros Ha Hc. unfold eqb_ci. rewrite (lower_digit a Ha).
  apply Ascii.eqb_neq. intros E.
  unfold lower in E.
  destruct ((65 <=? nat_of_ascii c)%nat && (nat_of_ascii c <=? 90)%nat) eqn:U.
  - apply andb_true_iff in U as [U1 U2].
    apply Nat.leb_le in U1. apply Nat.leb_le in U2.
    assert (N : nat_of_ascii a = (nat_of_ascii c + 32)%nat)
      by (rewrite E; apply nat_ascii_embedding; lia).
    unfold is_digit in Ha. apply andb_true_iff in Ha as [H1 H2].
    apply Nat.leb_le in H1. apply Nat.leb_le in H2. lia.
  - subst c. congruence.
Qed.

Lemma re_match_lit_same (c : ascii) (p : list atom) (s : string) :
  re_match (Lit c :: p) (String c s) = re_match p s.
Proof.
  rewrite re_match_lit. unfold eqb_ci. now rewrite Ascii.eqb_refl.
Qed.

Lemma re_match_two_digits (d : directive) (v : Z) (c : ascii)
    (p : list atom) (rest : string) :
  match d with dY | df => False | _ => True end ->
  fst (field_range d) <= v <= snd (field_range d) ->
  is_digit c = false ->
  re_match (Group d (regex_of d) :: Lit c :: p) (digits 2 v ++ rest)
  = found_cons d (digits 2 v) (re_match (Lit c :: p) rest).
Proof.
  intros Hd Hv Hc. rewrite re_match_group.
  apply (first_alt_two_digits d v (re_match (Lit c :: p)) rest Hd Hv).
  intros a s Ha. rewrite re_match_lit, (digit_not_sep a c Ha Hc). reflexivity.
Qed.

Lemma valid_datetime_ranges (t : datetime) :
  valid_datetime t = true ->
  1 <= year t <= 9999 /\ 1 <= month t <= 12 /\ 1 <= day t <= 31 /\
  0 <= hour t <= 23 /\ 0 <= minute t <= 59 /\ 0 <= second t <= 59 /\
  0 <= microsecond t <= 999999.
Proof.
  intros H. apply valid_datetime_fields in H as (Hd & Hh & Hm & Hs & Hu).
  unfold check_date_fields, Calendar.MINYEAR, Calendar.MAXYEAR in Hd.
  repeat rewrite andb_true_iff in Hd. repeat rewrite Z.leb_le in Hd.
  destruct Hd as [[[[[Y1 Y2] M1] M2] D1] D2].
  assert (Calendar._days_in_month (year t) (month t) <= 31).
  { rewrite is_leap_dim.
    assert (month t = 1 \/ month t = 2 \/ month t = 3 \/ month t = 4
            \/ month t = 5 \/ month t = 6 \/ month t = 7 \/ month t = 8
            \/ month t = 9 \/ month t = 10 \/ month t = 11 \/ month t = 12)
      as Hc by lia.
    destruct (Calendar._is_leap (year t));
    repeat (destruct Hc as [-> | Hc]; [vm_compute; congruence|]);
    rewrite Hc; vm_compute; congruence. }
  lia.
Qed.

(** The expression for date and time reads the text for date and time,
    whatever follows, as long as no digit can start it. *)
Lemma re_match_date_time (t : datetime) (c : ascii) (p : list atom)
    (rest : string) :
  valid_datetime t = true ->
  is_digit c = false ->
  re_match (date_time_atoms ++ Lit c :: p) (date_time_text t rest)
  = date_time_found t (re_match (Lit c :: p) rest).
Proof.
  intros Hv Hc.
  apply valid_datetime_ranges in Hv as (Hy & Hm & Hd & Hh & Hmi & Hs & Hu).
  unfold date_time_atoms, date_time_text, date_time_found.
  cbn [app].
  rewrite re_match_year, re_match_lit_same.
  rewrite (re_match_two_digits dm) by (cbn; auto; lia).
  rewrite re_match_lit_same.
  rewrite (re_match_two_digits dd) by (cbn; auto; lia).
  rewrite re_match_lit_same.
  rewrite (re_match_two_digits dH) by (cbn; auto; lia).
  rewrite re_match_lit_same.
  rewrite (re_match_two_digits dM) by (cbn; auto; lia).
  rewrite re_match_lit_same.
  rewrite (re_match_two_digits dS) by (cbn; auto; lia).
  reflexivity.
Qed.

Lemma pattern_fractional :
  pattern "%Y-%m-%dT%H:%M:%S.%fZ"
  = Some (date_time_atoms ++ [Lit "."; Group df (regex_of df); Lit "Z"]).
Proof. reflexivity. Qed.

Lemma pattern_plain :
  pattern "%Y-%m-%dT%H:%M:%SZ" = Some (date_time_atoms ++ [Lit "Z"]).
Proof. reflexivity. Qed.

(** The text [isoformat] writes, followed by ["Z"]. *)
Lemma isoformat_text (t : datetime) :
  valid_datetime t = true ->
  (isoformat t ++ "Z")%string
  = date_time_text t
      (if (microsecond t =? 0)%Z then "Z"
       else String "." (digits 6 (microsecond t) ++ "Z"))%string.
Proof.
  intros Hv.
  apply valid_datetime_ranges in Hv as (Hy & Hm & Hd & Hh & Hmi & Hs & Hu).
  unfold isoformat, date_time_text.
  rewrite !fmt_0d_digits by (try lia; cbn; lia).
  repeat (rewrite append_assoc; cbn [append]).
  destruct (microsecond t =? 0); cbn [append]; reflexivity.
Qed.

Lemma convert_date_time (t : datetime) (more : list (directive * string))
    (us : Z) :
  valid_datetime t = true ->
  convert more (mkparsed (year t) (month t) (day t) (hour t) (minute t)
                         (second t) 0)
  = inr (mkparsed (year t) (month t) (day t) (hour t) (minute t)
                  (second t) us) ->
  convert ((dY, digits 4 (year t)) :: (dm, digits 2 (month t))
           :: (dd, digits 2 (day t)) :: (dH, digits 2 (hour t))
           :: (dM, digits 2 (minute t)) :: (dS, digits 2 (second t)) :: more)
          defaults
  = inr (mkparsed (year t) (month t) (day t) (hour t) (minute t)
                  (second t) us).
Proof.
  intros Hv Hmore.
  apply valid_datetime_ranges in Hv as (Hy & Hm & Hd & Hh & Hmi & Hs & Hu).
  cbn [convert convert_group].
  rewrite !py_int_digits by (try lia; cbn; lia).
  cbn [bind ret defaults p_year p_month p_day p_hour p_minute p_second p_fraction].
  exact Hmore.
Qed.

Lemma new_datetime_valid (t : datetime) :
  valid_datetime t = true ->
  new_datetime (year t) (month t) (day t) (hour t) (minute t) (second t)
               (microsecond t) = inr t.
Proof.
  intros Hv. unfold new_datetime. unfold valid_datetime in Hv.
  apply andb_true_iff in Hv as [Hd Ht]. rewrite Hd, Ht. cbn.
  destruct t; reflexivity.
Qed.

(** The format with a fraction reads the text exactly when a fraction was
    written. *)
Lemma strptime_fractional_isoformat (t : datetime) :
  valid_datetime t = true ->
  strptime (Some (isoformat t ++ "Z")%string) "%Y-%m-%dT%H:%M:%S.%fZ"
  = if microsecond t =? 0
    then raise ValueError "time data does not match format"
    else inr t.
Proof.
  intros Hv. rewrite (isoformat_text t Hv).
  pose proof (valid_datetime_ranges t Hv) as (Hy & Hm & Hd & Hh & Hmi & Hs & Hu).
  unfold strptime. rewrite pattern_fractional.
  rewrite (re_match_date_time t "." _ _ Hv eq_refl).
  destruct (Z.eqb_spec (microsecond t) 0) as [E|E].
  - rewrite re_match_lit. change (eqb_ci "Z" ".") with false.
    reflexivity.
  - rewrite re_match_lit_same.
    rewrite (re_match_fraction (microsecond t) [Lit "Z"] "Z" [] "")
      by (rewrite re_match_lit_same; reflexivity).
    cbn [date_time_found found_cons].
    rewrite (convert_date_time t [(df, digits 6 (microsecond t))] (microsecond t) Hv).
    + cbn [bind p_year p_month p_day p_hour p_minute p_second p_fraction].
      apply (new_datetime_valid t Hv).
    + cbn [convert convert_group]. rewrite digits_length.
      cbn [Nat.sub zeros]. rewrite append_nil_r.
      rewrite py_int_digits by (try lia; cbn; lia).
      reflexivity.
Qed.

(** The format without a fraction reads the text when none was written. *)
Lemma strptime_plain_isoformat (t : datetime) :
  valid_datetime t = true ->
  microsecond t = 0 ->
  strptime (Some (isoformat t ++ "Z")%string) "%Y-%m-%dT%H:%M:%SZ" = inr t.
Proof.
  intros Hv E. rewrite (isoformat_text t Hv).
  rewrite E. change (0 =? 0) with true. cbv iota.
  unfold strptime. rewrite pattern_plain.
  rewrite (re_match_date_time t "Z" _ _ Hv eq_refl).
  rewrite re_match_lit_same. cbn [re_match date_time_found found_cons].
  rewrite (convert_date_time t [] 0 Hv eq_refl).
  cbn [bind p_year p_month p_day p_hour p_minute p_second p_fraction].
  rewrite <- E. apply (new_datetime_valid t Hv).
Qed.

(** Reading back what [isoformat] wrote gives the datetime it was
    written from. *)
Lemma parse_isoformat (t : datetime) :
  valid_datetime t = true ->
  parse_iso_date (Some (isoformat t ++ "Z")%string) = inr t.
Proof.
  intros Hv. unfold parse_iso_date, formats. cbn [parse_with].
  rewrite (strptime_fractional_isoformat t Hv).
  destruct (Z.eqb_spec (microsecond t) 0) as [E|E]; [|reflexivity].
  cbn [raise exn_class].
  now rewrite (strptime_plain_isoformat t Hv E).
Qed.

End RoundTrip.

(* ================================================================== *)
(** * The two formats read disjoint sets of texts *)

Section Exclusive.
Import Strptime.

Lemma string_forall_app (P : ascii -> bool) (a b : string) :
  string_forall P (a ++ b) = string_forall P a && string_forall P b.
Proof.
  induction a as [|x a IH]; cbn; [reflexivity|].
  rewrite IH. now rewrite andb_assoc.
Qed.

Lemma string_forall_impl (P Q : ascii -> bool) (s : string) :
  (forall c, P c = true -> Q c = true) ->
  string_forall P s = true -> string_forall Q s = true.
Proof.
  intros H. induction s as [|x s IH]; cbn; [reflexivity|].
  intros E. apply andb_true_iff in E as [E1 E2].
  rewrite (H x E1), (IH E2). reflexivity.
Qed.

Lemma continuation_range (a : ascii) (c : Z) :
  continuation a = Some c -> 0 <= c < 64 /\ 128 <= byte a.
Proof.
  unfold continuation.
  destruct (Z.leb_spec 128 (byte a)); destruct (Z.leb_spec (byte a) 191);
    cbn [andb]; intros E; inversion E; lia.
Qed.

(** A character is made of the bytes in front of the rest; outside ASCII
    every one of its bytes is 128 or more. *)
Lemma next_char_sound (s : string) (cp : Z) (bytes rest : string) :
  next_char s = Some (cp, bytes, rest) ->
  s = (bytes ++ rest)%string
  /\ ((exists a, bytes = String a "" /\ cp = byte a /\ cp < 128)
      \/ (128 <= cp
          /\ string_forall (fun b => 128 <=? byte b) bytes = true)).
Proof.
  unfold next_char. destruct s as [|a s1]; [discriminate|].
  destruct (Z.ltb_spec (byte a) 128) as [L|L].
  - intros E. inversion E; subst. split; [reflexivity|]. left. eauto.
  - assert (B : (128 <=? byte a) = true) by (apply Z.leb_le; lia).
    destruct ((194 <=? byte a) && (byte a <=? 223)) eqn:T2.
    { apply andb_true_iff in T2 as [T2 _]. apply Z.leb_le in T2.
      destruct s1 as [|a1 s2]; [discriminate|].
      destruct (continuation a1) as [c1|] eqn:C1; [|discriminate].
      apply continuation_range in C1 as [R1 B1].
      intros E. inversion E; subst. split; [reflexivity|]. right.
      split; [lia|]. cbn [string_forall]. rewrite B.
      replace (128 <=? byte a1) with true by (symmetry; apply Z.leb_le; lia).
      reflexivity. }
    destruct ((224 <=? byte a) && (byte a <=? 239)) eqn:T3.
    { destruct s1 as [|a1 [|a2 s3]]; try discriminate.
      destruct (continuation a1) as [c1|] eqn:C1; [|discriminate].
      destruct (continuation a2) as [c2|] eqn:C2; [|discriminate].
      apply continuation_range in C1 as [R1 B1].
      apply continuation_range in C2 as [R2 B2].
      destruct (Z.leb_spec 2048 (((byte a - 224) * 64 + c1) * 64 + c2));
        [|discriminate].
      intros E. inversion E; subst. split; [reflexivity|]. right.
      split; [lia|]. cbn [string_forall]. rewrite B.
      replace (128 <=? byte a1) with true by (symmetry; apply Z.leb_le; lia).
      replace (128 <=? byte a2) with true by (symmetry; apply Z.leb_le; lia).
      reflexivity. }
    destruct ((240 <=? byte a) && (byte a <=? 244)) eqn:T4; [|discriminate].
    destruct s1 as [|a1 [|a2 [|a3 s4]]]; try discriminate.
    destruct (continuation a1) as [c1|] eqn:C1; [|discriminate].
    destruct (continuation a2) as [c2|] eqn:C2; [|discriminate].
    destruct (continuation a3) as [c3|] eqn:C3; [|discriminate].
    apply continuation_range in C1 as [R1 B1].
    apply continuation_range in C2 as [R2 B2].
    apply continuation_range in C3 as [R3 B3].
    destruct ((65536 <=? _) && (_ <=? 1114111)) eqn:T; [|discriminate].
    apply andb_true_iff in T as [T _]. apply Z.leb_le in T.
    intros E. inversion E; subst. split; [reflexivity|]. right.
    split; [lia|]. cbn [string_forall]. rewrite B.
    replace (128 <=? byte a1) with true by (symmetry; apply Z.leb_le; lia).
    replace (128 <=? byte a2) with true by (symmetry; apply Z.leb_le; lia).
    replace (128 <=? byte a3) with true by (symmetry; apply Z.leb_le; lia).
    reflexivity.
Qed.

Lemma match_alt_sound (alt : list cls) :
  forall (s m rest : string),
  match_alt alt s = Some (m, rest) ->
  s = (m ++ rest)%string /\
  string_forall (fun c => (128 <=? byte c)
                          || existsb (fun k => cls_ok k (byte c)) alt) m
  = true.
Proof.
  induction alt as [|k alt IH]; intros s m rest H; cbn [match_alt] in H.
  - inversion H; subst. split; reflexivity.
  - destruct (next_char s) as [[[cp bytes] s']|] eqn:En; [|discriminate].
    destruct (cls_ok k cp) eqn:Ek; [|discriminate].
    destruct (match_alt alt s') as [[m' rest']|] eqn:Em; [|discriminate].
    inversion H; subst. destruct (IH _ _ _ Em) as [-> Hf].
    destruct (next_char_sound _ _ _ _ En) as [-> Hb].
    split; [now rewrite append_assoc|].
    rewrite string_forall_app. apply andb_true_iff. split.
    + destruct Hb as [(a & -> & -> & _) | (_ & Hb)].
      * cbn [string_forall existsb]. rewrite Ek.
        now rewrite orb_true_r.
      * revert Hb. apply string_forall_impl. intros c Hc. now rewrite Hc.
    + revert Hf. apply string_forall_impl. intros c Hc.
      apply orb_true_iff in Hc as [Hc | Hc]; [now rewrite Hc|].
      cbn [existsb]. rewrite Hc. now rewrite !orb_true_r.
Qed.

Lemma first_alt_sound {R} (alts : list (list cls)) (s : string)
    (k : string -> string -> option R) (r : R) :
  first_alt alts s k = Some r ->
  exists alt m rest,
    In alt alts /\ match_alt alt s = Some (m, rest) /\ k m rest = Some r.
Proof.
  induction alts as [|alt alts IH]; cbn [first_alt]; [discriminate|].
  intros H.
  destruct (match_alt alt s) as [[m rest]|] eqn:Em.
  - destruct (k m rest) as [r'|] eqn:Ek.
    + inversion H; subst. exists alt, m, rest. cbn. auto.
    + destruct (IH H) as (alt' & m' & rest' & Hin & H1 & H2).
      exists alt', m', rest'. cbn. auto.
  - destruct (IH H) as (alt' & m' & rest' & Hin & H1 & H2).
    exists alt', m', rest'. cbn. auto.
Qed.

(** Every character a match covers is one some atom of the expression
    can take. *)
Lemma re_match_chars (p : list atom) :
  forall (s : string) f tail,
  re_match p s = Some (f, tail) ->
  exists m, s = (m ++ tail)%string /\
            string_forall (fun c => existsb (atom_accepts c) p) m = true.
Proof.
  induction p as [|a p IH]; intros s f tail H.
  - cbn in H. inversion H; subst. exists ""%string. split; reflexivity.
  - destruct a as [c | d alts].
    + destruct s as [|x s]; [discriminate|].
      rewrite re_match_lit in H.
      destruct (eqb_ci x c) eqn:E; [|discriminate].
      destruct (IH _ _ _ H) as (m & -> & Hm).
      exists (String x m). split; [reflexivity|].
      cbn [string_forall existsb atom_accepts]. rewrite E. cbn [orb andb].
      revert Hm. apply string_forall_impl. intros y Hy. rewrite Hy.
      apply orb_true_r.
    + rewrite re_match_group in H.
      apply first_alt_sound in H as (alt & m1 & rest & Hin & Hm & Hk).
      unfold found_cons in Hk.
      destruct (re_match p rest) as [[f' tail']|] eqn:Er; [|discriminate].
      inversion Hk; subst.
      destruct (IH _ _ _ Er) as (m2 & -> & Hm2).
      destruct (match_alt_sound _ _ _ _ Hm) as [-> Hm1].
      exists (m1 ++ m2)%string. split; [now rewrite append_assoc|].
      rewrite string_forall_app. apply andb_true_iff. split.
      * revert Hm1. apply string_forall_impl. intros y Hy.
        cbn [existsb atom_accepts]. apply orb_true_iff. left.
        apply orb_true_iff in Hy as [Hy | Hy]; [now rewrite Hy|].
        apply orb_true_iff. right.
        apply existsb_exists. exists alt. auto.
      * revert Hm2. apply string_forall_impl. intros y Hy.
        cbn [existsb]. rewrite Hy. apply orb_true_r.
Qed.

(** A literal of the expression is found in the text. *)
Lemma re_match_has_lit (c : ascii) (p : list atom) :
  In (Lit c) p ->
  forall (s : string) f tail,
  re_match p s = Some (f, tail) ->
  exists pre x post, s = (pre ++ String x post)%string /\ eqb_ci x c = true.
Proof.
  induction p as [|a p IH]; intros Hin s f tail H; [contradiction|].
  destruct a as [l | d alts].
  - destruct s as [|x s]; [discriminate|].
    rewrite re_match_lit in H.
    destruct (eqb_ci x l) eqn:E; [|discriminate].
    destruct Hin as [Hl | Hin].
    + inversion Hl; subst. exists ""%string, x, s. auto.
    + destruct (IH Hin _ _ _ H) as (pre & y & post & -> & Hy).
      exists (String x pre), y, post. auto.
  - destruct Hin as [Hl | Hin]; [discriminate|].
    rewrite re_match_group in H.
    apply first_alt_sound in H as (alt & m1 & rest & _ & Hm & Hk).
    unfold found_cons in Hk.
    destruct (re_match p rest) as [[f' tail']|] eqn:Er; [|discriminate].
    destruct (IH Hin _ _ _ Er) as (pre & y & post & -> & Hy).
    destruct (match_alt_sound _ _ _ _ Hm) as [-> _].
    exists (m1 ++ pre)%string, y, post. split; [now rewrite append_assoc | assumption].
Qed.

Lemma eqb_ci_dot (x : ascii) : eqb_ci x "." = true -> x = "."%char.
Proof.
  destruct x as [[] [] [] [] [] [] [] []]; vm_compute; congruence.
Qed.

Lemma strptime_some (s : string) (fmt : string) (t : datetime) :
  strptime (Some s) fmt = inr t ->
  exists p found,
    pattern fmt = Some p /\ re_match p s = Some (found, ""%string) /\
    valid_datetime t = true.
Proof.
  unfold strptime. intros H.
  destruct (pattern fmt) as [p|] eqn:Ep; [|discriminate].
  destruct (re_match p s) as [[found tail]|] eqn:Er; [|discriminate].
  destruct tail; [|discriminate].
  exists p, found. split; [reflexivity|]. split; [assumption|].
  destruct (convert found defaults) as [e|f]; [discriminate|].
  cbn [bind] in H. unfold new_datetime in H.
  destruct (check_date_fields _ _ _) eqn:Ed; [|discriminate].
  destruct (check_time_fields _ _ _ _) eqn:Et; [|discriminate].
  cbn in H. inversion H; subst. unfold valid_datetime. cbn. now rewrite Ed, Et.
Qed.

(** No text is read by both formats. *)
Lemma formats_exclusive (s : string) (t1 t2 : datetime) :
  strptime (Some s) "%Y-%m-%dT%H:%M:%S.%fZ" = inr t1 ->
  strptime (Some s) "%Y-%m-%dT%H:%M:%SZ" = inr t2 ->
  False.
Proof.
  intros H1 H2.
  apply strptime_some in H1 as (p1 & f1 & Hp1 & Hr1 & _).
  apply strptime_some in H2 as (p2 & f2 & Hp2 & Hr2 & _).
  rewrite pattern_fractional in Hp1. inversion Hp1; subst p1. clear Hp1.
  rewrite pattern_plain in Hp2. inversion Hp2; subst p2. clear Hp2.
  apply (re_match_has_lit ".") in Hr1 as (pre & x & post & -> & Hx);
    [|cbn; tauto].
  apply eqb_ci_dot in Hx. subst x.
  apply re_match_chars in Hr2 as (m & Hm & Hall).
  rewrite append_nil_r in Hm. subst m.
  rewrite string_forall_app in Hall. apply andb_true_iff in Hall as [_ Hall].
  cbn [string_forall] in Hall. apply andb_true_iff in Hall as [Hdot _].
  vm_compute in Hdot. discriminate.
Qed.

(** A failure of [strptime] on a text is a [ValueError]. *)
Lemma strptime_error_class (s : string) (fmt : string) (e : exn) :
  strptime (Some s) fmt = inl e -> exn_class e = ValueError.
Proof.
  unfold strptime. intros H.
  destruct (pattern fmt) as [p|]; [|inversion H; reflexivity].
  destruct (re_match p s) as [[found tail]|]; [|inversion H; reflexivity].
  destruct tail; [|inversion H; reflexivity].
  assert (Hc : forall found acc e', convert found acc = inl e' -> exn_class e' = ValueError).
  { clear. induction found as [|[d text] found IH]; intros acc e' H; [discriminate|].
    cbn [convert] in H.
    assert (Hi : forall x e0, py_int x = inl e0 -> exn_class e0 = ValueError).
    { intros x e0. unfold py_int. destruct (lstrip x); [intros E; inversion E; reflexivity|].
      destruct (digits_value _ _); [discriminate|]. intros E; inversion E; reflexivity. }
    unfold convert_group in H.
    destruct d;
      match type of H with
      | context [py_int ?x] => destruct (py_int x) as [e0|v] eqn:Ep
      end; cbn [bind ret] in H;
      try (inversion H; subst; eapply Hi; eassumption);
      eapply IH; eassumption. }
  destruct (convert found defaults) as [e'|f] eqn:Ec.
  - cbn [bind] in H. inversion H; subst. eapply Hc; eassumption.
  - cbn [bind] in H. unfold new_datetime in H.
    destruct (negb _); [inversion H; reflexivity|].
    destruct (negb _); [inversion H; reflexivity|]. unfold ret in H. discriminate.
Qed.

End Exclusive.

(* ================================================================== *)
(** * The recency filter *)

Section RecencyFacts.

Lemma parse_iso_date_iff (s : option string) (t : datetime) :
  parse_iso_date s = inr t <-> parses_to s t.
Proof.
  unfold parse_iso_date, parses_to, formats. cbn [parse_with].
  split.
  - intros H.
    destruct (Strptime.strptime s "%Y-%m-%dT%H:%M:%S.%fZ") as [e1|t1] eqn:E1.
    + destruct (exn_class e1); try discriminate.
      destruct (Strptime.strptime s "%Y-%m-%dT%H:%M:%SZ") as [e2|t2] eqn:E2.
      * destruct (exn_class e2); discriminate.
      * inversion H; subst. eexists. split; [|exact E2]. cbn. auto.
    + inversion H; subst. eexists. split; [|exact E1]. cbn. auto.
  - intros (fmt & Hin & Hp).
    destruct s as [s|]; [|discriminate].
    destruct Hin as [<- | [<- | []]].
    + rewrite Hp. reflexivity.
    + destruct (Strptime.strptime (Some s) "%Y-%m-%dT%H:%M:%S.%fZ") as [e1|t1] eqn:E1.
      * rewrite (strptime_error_class _ _ _ E1), Hp. reflexivity.
      * exfalso. exact (formats_exclusive s t1 t E1 Hp).
Qed.

Lemma recent_iff (cutoff : datetime) (item : video) :
  recent cutoff item = true <->
  exists t, parses_to (publishedAt (snippet item)) t
            /\ datetime_ge t cutoff = true.
Proof.
  unfold recent. split.
  - destruct (parse_iso_date _) as [e|t] eqn:E; [discriminate|].
    intros H. exists t. split; [now apply parse_iso_date_iff | assumption].
  - intros (t & Hp & Hge). apply parse_iso_date_iff in Hp. now rewrite Hp.
Qed.

(** When the cutoff is a datetime the constructor accepts, the test of
    the filter is the order of instants on the time line. *)
Lemma recent_instant (cutoff : datetime) (item : video) :
  valid_datetime cutoff = true ->
  (recent cutoff item = true <->
   exists t, parses_to (publishedAt (snippet item)) t
             /\ instant cutoff <= instant t).
Proof.
  intros Hc. rewrite recent_iff.
  assert (V : forall t, parses_to (publishedAt (snippet item)) t ->
                        valid_datetime t = true).
  { intros t (fmt & _ & Hs).
    destruct (publishedAt (snippet item)) as [s|]; [|discriminate].
    apply strptime_some in Hs as (p & found & _ & _ & Hv). exact Hv. }
  split; intros (t & Hp & H); exists t; (split; [assumption|]).
  - rewrite datetime_ge_instant in H by auto. now apply Z.leb_le.
  - rewrite datetime_ge_instant by auto. now apply Z.leb_le.
Qed.

Lemma keep_recent_filter (cutoff : datetime) (items acc : list video) :
  fold_left (keep_recent cutoff) items acc = acc ++ filter (recent cutoff) items.
Proof.
  revert acc. induction items as [|item items IH]; intros acc; cbn [fold_left filter].
  - now rewrite app_nil_r.
  - rewrite IH. unfold keep_recent, recent.
    destruct (parse_iso_date _) as [e|t]; [reflexivity|].
    destruct (datetime_ge t cutoff); [|reflexivity].
    now rewrite <- app_assoc.
Qed.

Lemma recency_filter_filter (items : list video) (cutoff : datetime) :
  recency_filter items cutoff = filter (recent cutoff) items.
Proof. unfold recency_filter. now rewrite keep_recent_filter. Qed.

Lemma filter_subsequence {A} (f : A -> bool) (l : list A) :
  subsequence (filter f l) l.
Proof.
  induction l as [|x l IH]; cbn; [constructor|].
  destruct (f x); now constructor.
Qed.

Lemma reads_as_parses_to (ts : option string) (t : datetime) :
  reads_as ts t <-> parses_to ts t.
Proof.
  unfold reads_as, parses_to, formats. split.
  - intros [H | H]; eexists; (split; [|exact H]); cbn; auto.
  - intros (fmt & [<- | [<- | []]] & H); auto.
Qed.

Lemma reads_as_unique (ts : option string) (t1 t2 : datetime) :
  reads_as ts t1 -> reads_as ts t2 -> t1 = t2.
Proof.
  destruct ts as [s|]; [|intros [H | H]; discriminate].
  intros [H1 | H1] [H2 | H2]; try congruence; exfalso;
    eauto using formats_exclusive.
Qed.

Lemma published_since_iff (cutoff : datetime) (item : video) :
  published_since cutoff item = true <->
  exists t, reads_as (publishedAt (snippet item)) t
            /\ instant cutoff <= instant t.
Proof.
  unfold published_since. cbv zeta. split.
  - destruct (Strptime.strptime _ "%Y-%m-%dT%H:%M:%S.%fZ") as [e1|t1] eqn:E1.
    + destruct (Strptime.strptime _ "%Y-%m-%dT%H:%M:%SZ") as [e2|t2] eqn:E2;
        [discriminate|].
      intros H. apply Z.leb_le in H. exists t2. split; [now right | assumption].
    + intros H. apply Z.leb_le in H. exists t1. split; [now left | assumption].
  - intros (t & Hr & Hle).
    destruct (Strptime.strptime _ "%Y-%m-%dT%H:%M:%S.%fZ") as [e1|t1] eqn:E1.
    + destruct Hr as [Hr | Hr]; [congruence|]. rewrite Hr. now apply Z.leb_le.
    + assert (t1 = t) as -> by (apply (reads_as_unique _ _ _ (or_introl E1) Hr)).
      now apply Z.leb_le.
Qed.

(** For a cutoff that is a datetime, the test of the loop is the test by
    instants under the two formats. *)
Lemma recent_published_since (cutoff : datetime) (item : video) :
  valid_datetime cutoff = true ->
  recent cutoff item = published_since cutoff item.
Proof.
  intros Hc. apply eq_true_iff_eq.
  rewrite (recent_instant cutoff item Hc), published_since_iff.
  split; intros (t & Hp & Hle); exists t; (split; [|assumption]);
    now apply reads_as_parses_to.
Qed.

Lemma recency_filter_since (items : list video) (cutoff : datetime) :
  valid_datetime cutoff = true ->
  recency_filter items cutoff = filter (published_since cutoff) items.
Proof.
  intros Hc. rewrite recency_filter_filter. apply filter_ext.
  intros item. now apply recent_published_since.
Qed.

(** C1.  For a cutoff that is a datetime, the recency filter keeps, in
    their original order, exactly the records whose publish timestamp
    reads under "%Y-%m-%dT%H:%M:%S.%fZ" or "%Y-%m-%dT%H:%M:%SZ" as a
    time on the time line at or after the cutoff: its result is the
    input filtered by that test, hence a subsequence of it; a record is
    in the result if and only if it is in the input and its timestamp
    reads as such a time; a timestamp reads as at most one time, so no
    record in the result has a publish time before the cutoff; and a
    record whose timestamp does not read is left out while the records
    before and after it are still examined. *)
Theorem recency_filter_exact (items : list video) (cutoff : datetime) :
  valid_datetime cutoff = true ->
  recency_filter items cutoff = filter (published_since cutoff) items
  /\ subsequence (recency_filter items cutoff) items
  /\ (forall item,
        published_since cutoff item = true <->
        exists t, reads_as (publishedAt (snippet item)) t
                  /\ instant cutoff <= instant t)
  /\ (forall item,
        In item (recency_filter items cutoff) <->
        In item items
        /\ exists t, reads_as (publishedAt (snippet item)) t
                     /\ instant cutoff <= instant t)
  /\ (forall item t,
        In item (recency_filter items cutoff) ->
        reads_as (publishedAt (snippet item)) t ->
        instant cutoff <= instant t)
  /\ (forall before_ item after_,
        (forall t, ~ reads_as (publishedAt (snippet item)) t) ->
        recency_filter (before_ ++ item :: after_) cutoff
        = recency_filter before_ cutoff ++ recency_filter after_ cutoff).
Proof.
  intros Hc.
  split; [now apply recency_filter_since|].
  split; [rewrite recency_filter_filter; apply filter_subsequence|].
  split; [apply published_since_iff|].
  split; [|split].
  - intros item.
    rewrite recency_filter_since, filter_In, published_since_iff by assumption.
    tauto.
  - intros item t Hin Hr.
    rewrite recency_filter_since, filter_In, published_since_iff in Hin
      by assumption.
    destruct Hin as (_ & t' & Hr' & Hle).
    now rewrite (reads_as_unique _ _ _ Hr Hr').
  - intros b item a Hno. rewrite !recency_filter_since, filter_app by assumption.
    cbn [filter].
    destruct (published_since cutoff item) eqn:E; [|reflexivity].
    apply published_since_iff in E as (t & Hp & _). exfalso. exact (Hno t Hp).
Qed.

Lemma recency_filter_exact_witness :
  recency_filter [recent_video; untitled_video] cutoff_2024_03_08
  = filter (published_since cutoff_2024_03_08) [recent_video; untitled_video]
  /\ subsequence (recency_filter [recent_video; untitled_video]
                                 cutoff_2024_03_08)
                 [recent_video; untitled_video]
  /\ (forall item,
        published_since cutoff_2024_03_08 item = true <->
        exists t, reads_as (publishedAt (snippet item)) t
                  /\ instant cutoff_2024_03_08 <= instant t)
  /\ (forall item,
        In item (recency_filter [recent_video; untitled_video]
                                cutoff_2024_03_08) <->
        In item [recent_video; untitled_video]
        /\ exists t, reads_as (publishedAt (snippet item)) t
                     /\ instant cutoff_2024_03_08 <= instant t)
  /\ (forall item t,
        In item (recency_filter [recent_video; untitled_video]
                                cutoff_2024_03_08) ->
        reads_as (publishedAt (snippet item)) t ->
        instant cutoff_2024_03_08 <= instant t)
  /\ (forall before_ item after_,
        (forall t, ~ reads_as (publishedAt (snippet item)) t) ->
        recency_filter (before_ ++ item :: after_) cutoff_2024_03_08
        = recency_filter before_ cutoff_2024_03_08
          ++ recency_filter after_ cutoff_2024_03_08).
Proof.
  apply (recency_filter_exact [recent_video; untitled_video] cutoff_2024_03_08).
  vm_compute. reflexivity.
Defined.

End RecencyFacts.

(* ================================================================== *)
(** * Facts about dictionaries *)

Section DictFacts.
Context {V : Type}.
Implicit Types (d : dict V) (k : string) (v : V).

Lemma dict_get_none d k : dict_get d k = None <-> ~ In k (keys d).
Proof.
  induction d as [|[k' v'] d IH]; cbn; [tauto|].
  destruct (String.eqb_spec k' k) as [->|N].
  - split; [discriminate | tauto].
  - rewrite IH. tauto.
Qed.

Lemma dict_get_in d k v : dict_get d k = Some v -> In (k, v) d.
Proof.
  induction d as [|[k' v'] d IH]; cbn; [discriminate|].
  destruct (String.eqb_spec k' k) as [->|N].
  - intros E. inversion E. auto.
  - auto.
Qed.

Lemma dict_in_get d k v : NoDup (keys d) -> In (k, v) d -> dict_get d k = Some v.
Proof.
  induction d as [|[k' v'] d IH]; cbn; [contradiction|].
  intros Hn [E | Hin].
  - inversion E; subst. now rewrite String.eqb_refl.
  - inversion Hn; subst.
    destruct (String.eqb_spec k' k) as [->|N]; [|auto].
    exfalso. apply H1. change k with (fst (k, v)). now apply in_map.
Qed.

Lemma dict_get_set_same d k v : dict_get (dict_set d k v) k = Some v.
Proof.
  induction d as [|[k' v'] d IH]; cbn.
  - now rewrite String.eqb_refl.
  - destruct (String.eqb_spec k' k) as [->|N]; cbn.
    + now rewrite String.eqb_refl.
    + destruct (String.eqb_spec k' k); [contradiction | assumption].
Qed.

Lemma dict_get_set_other d k k' v :
  k <> k' -> dict_get (dict_set d k v) k' = dict_get d k'.
Proof.
  intros N. induction d as [|[k0 v0] d IH]; cbn.
  - destruct (String.eqb_spec k k'); [contradiction | reflexivity].
  - destruct (String.eqb_spec k0 k) as [->|N0]; cbn.
    + destruct (String.eqb_spec k k'); [contradiction | reflexivity].
    + now rewrite IH.
Qed.

Lemma keys_dict_set_in d k v : In k (keys d) -> keys (dict_set d k v) = keys d.
Proof.
  induction d as [|[k' v'] d IH]; cbn; [contradiction|].
  intros H. destruct (String.eqb_spec k' k) as [->|N]; cbn; [reflexivity|].
  f_equal. apply IH. destruct H; [contradiction | assumption].
Qed.

Lemma keys_dict_set_new d k v :
  ~ In k (keys d) -> keys (dict_set d k v) = keys d ++ [k].
Proof.
  induction d as [|[k' v'] d IH]; cbn; [reflexivity|].
  intros H. destruct (String.eqb_spec k' k) as [->|N]; cbn; [tauto|].
  f_equal. apply IH. tauto.
Qed.
End DictFacts.

(* ================================================================== *)
(** * The aggregation loop *)

Section AggregateFacts.

Lemma sum_counts_set (d : dict nat) (k : string) (v : nat) :
  (sum_counts (dict_set d k v) + dict_get_default d k 0 = sum_counts d + v)%nat.
Proof.
  unfold dict_get_default, sum_counts.
  induction d as [|[k' v'] d IH]; cbn [dict_set dict_get fold_right snd].
  - lia.
  - destruct (String.eqb k' k); cbn [fold_right snd]; lia.
Qed.

Lemma first_seen_lt (cid : string) (items : list video) (a : nat) :
  first_seen cid items = Some a -> (a < List.length items)%nat.
Proof.
  revert a. induction items as [|x items IH]; intros a;
    cbn [first_seen List.length]; [discriminate|].
  destruct (in_category cid x).
  - intros E. inversion E. lia.
  - destruct (first_seen cid items) as [b|]; [|discriminate].
    cbn. intros E. inversion E. specialize (IH b eq_refl). lia.
Qed.

Lemma first_seen_snoc (cid : string) (items : list video) (x : video) :
  first_seen cid (items ++ [x])
  = match first_seen cid items with
    | Some a => Some a
    | None => if in_category cid x then Some (List.length items) else None
    end.
Proof.
  induction items as [|y items IH]; cbn [app first_seen List.length].
  - destruct (in_category cid x); reflexivity.
  - destruct (in_category cid y); [reflexivity|].
    rewrite IH. destruct (first_seen cid items); [reflexivity|].
    destruct (in_category cid x); reflexivity.
Qed.

Lemma category_titles_snoc (cid : string) (items : list video) (x : video) :
  category_titles cid (items ++ [x])
  = category_titles cid items ++ category_titles cid [x].
Proof.
  induction items as [|y items IH]; cbn [app category_titles]; [reflexivity|].
  rewrite IH.
  destruct (in_category cid y); [|reflexivity].
  destruct (title (snippet y)); reflexivity.
Qed.

Lemma before_snoc {A} (l : list A) (z x y : A) :
  before (l ++ [z]) x y -> before l x y \/ (In x l /\ y = z).
Proof.
  intros (l1 & l2 & l3 & E).
  destruct (rev l3) as [|w r3] eqn:R.
  - right. apply (f_equal (@rev A)) in R. rewrite rev_involutive in R. cbn in R.
    subst l3.
    assert (E' : l ++ [z] = (l1 ++ x :: l2) ++ [y]) by (rewrite E, <- app_assoc; reflexivity).
    apply app_inj_tail in E' as [-> ->].
    split; [apply in_or_app; right; left; reflexivity | reflexivity].
  - left. apply (f_equal (@rev A)) in R. rewrite rev_involutive in R. cbn in R.
    subst l3.
    assert (E' : l ++ [z] = (l1 ++ x :: l2 ++ y :: rev r3) ++ [w]).
    { rewrite E. rewrite <- !app_assoc. cbn. rewrite <- !app_assoc. reflexivity. }
    apply app_inj_tail in E' as [-> _].
    exists l1, l2, (rev r3). reflexivity.
Qed.

(** What the aggregation loop has built after the records [items]. *)
Lemma aggregate_invariant (items : list video) :
  let '(counter, vids) := aggregate items in
  keys counter = keys vids
  /\ NoDup (keys counter)
  /\ (forall k, dict_get_default counter k 0%nat
                = List.length (category_titles k items))
  /\ (forall k, dict_get_default vids k [] = category_titles k items)
  /\ sum_counts counter = List.length (filter counted items)
  /\ (forall k, In k (keys counter) <-> first_seen k items <> None)
  /\ (forall k1 k2, before (keys counter) k1 k2 ->
        exists a b, first_seen k1 items = Some a
                    /\ first_seen k2 items = Some b /\ (a < b)%nat).
Proof.
  unfold aggregate.
  induction items as [|x items IH] using rev_ind.
  - cbn. repeat split; try constructor; try tauto; try contradiction.
    intros k1 k2 (l1 & l2 & l3 & E). destruct l1; discriminate.
  - rewrite fold_left_app. cbn [fold_left].
    destruct (fold_left count_item items ([], [])) as [counter vids].
    destruct IH as (K & ND & CNT & TIT & SUM & SEEN & ORD).
    unfold count_item.
    assert (Hcx : forall k, in_category k x = false -> category_titles k [x] = [])
      by (intros k E; cbn; now rewrite E).
    destruct (truthy (categoryId (snippet x)) && truthy (title (snippet x))) eqn:Ec.
    + destruct (categoryId (snippet x)) as [cid|] eqn:Ecid; [|discriminate].
      destruct (title (snippet x)) as [t|] eqn:Et;
        [|rewrite andb_false_r in Ec; discriminate].
      assert (Hin : forall k, in_category k x = String.eqb cid k)
        by (intros k; unfold in_category, counted; now rewrite Ecid, Et, Ec).
      assert (Hself : category_titles cid [x] = [t])
        by (cbn; now rewrite Hin, String.eqb_refl, Et).
      assert (Hkeys : keys (dict_set counter cid (dict_get_default counter cid 0 + 1)%nat)
                      = if in_dec string_dec cid (keys counter)
                        then keys counter else keys counter ++ [cid]).
      { destruct (in_dec string_dec cid (keys counter));
          [now apply keys_dict_set_in | now apply keys_dict_set_new]. }
      split; [|split; [|split; [|split; [|split; [|split]]]]].
      * rewrite Hkeys.
        destruct (in_dec string_dec cid (keys counter)) as [I|I].
        -- rewrite keys_dict_set_in by (rewrite <- K; assumption). assumption.
        -- rewrite keys_dict_set_new by (rewrite <- K; assumption). now rewrite K.
      * rewrite Hkeys.
        destruct (in_dec string_dec cid (keys counter)) as [I|I]; [assumption|].
        apply NoDup_app; [assumption | constructor; [tauto | constructor] |].
        intros a Ha [<- | []]. contradiction.
      * intros k. rewrite category_titles_snoc, length_app.
        unfold dict_get_default.
        destruct (String.eqb_spec cid k) as [<-|N].
        -- rewrite dict_get_set_same, Hself, <- CNT. reflexivity.
        -- rewrite dict_get_set_other by assumption.
           rewrite Hcx by (rewrite Hin; now apply String.eqb_neq).
           cbn. rewrite Nat.add_0_r. apply CNT.
      * intros k. rewrite category_titles_snoc.
        unfold dict_get_default.
        destruct (String.eqb_spec cid k) as [<-|N].
        -- rewrite dict_get_set_same, Hself, <- TIT. reflexivity.
        -- rewrite dict_get_set_other by assumption.
           rewrite Hcx by (rewrite Hin; now apply String.eqb_neq).
           rewrite app_nil_r. apply TIT.
      * rewrite filter_app, length_app. cbn [filter]. unfold counted at 2.
        rewrite Ecid, Et, Ec. cbn [List.length].
        pose proof (sum_counts_set counter cid (dict_get_default counter cid 0 + 1)%nat).
        lia.
      * intros k. rewrite Hkeys, first_seen_snoc, Hin.
        destruct (in_dec string_dec cid (keys counter)) as [I|I].
        -- rewrite SEEN. destruct (first_seen k items) eqn:F; [split; congruence|].
           destruct (String.eqb_spec cid k) as [<-|N]; [|tauto].
           apply SEEN in I. contradiction.
        -- rewrite in_app_iff, SEEN. cbn [In].
           destruct (first_seen k items) eqn:F.
           ++ split; [congruence | intros _; left; congruence].
           ++ destruct (String.eqb_spec cid k) as [<-|N].
              ** split; [congruence | tauto].
              ** split; [intros [H | [H | []]]; [congruence | contradiction] | congruence].
      * intros k1 k2. rewrite Hkeys.
        destruct (in_dec string_dec cid (keys counter)) as [I|I].
        -- intros B. destruct (ORD k1 k2 B) as (a & b & Fa & Fb & Lt).
           exists a, b. rewrite !first_seen_snoc, Fa, Fb. auto.
        -- intros B. apply before_snoc in B as [B | [B ->]].
           ++ destruct (ORD k1 k2 B) as (a & b & Fa & Fb & Lt).
              exists a, b. rewrite !first_seen_snoc, Fa, Fb. auto.
           ++ assert (F2 : first_seen cid items = None).
              { destruct (first_seen cid items) eqn:F; [|reflexivity].
                exfalso. apply I, SEEN. congruence. }
              apply SEEN in B.
              destruct (first_seen k1 items) as [a|] eqn:F1; [|contradiction].
              exists a, (List.length items).
              rewrite !first_seen_snoc, F1, F2, Hin, String.eqb_refl.
              split; [reflexivity|]. split; [reflexivity|].
              now apply (first_seen_lt k1).
    + assert (Hin : forall k, in_category k x = false)
        by (intros k; unfold in_category, counted; now rewrite Ec).
      split; [assumption|]. split; [assumption|].
      split; [|split; [|split; [|split]]].
      * intros k. rewrite category_titles_snoc, Hcx, app_nil_r by apply Hin. apply CNT.
      * intros k. rewrite category_titles_snoc, Hcx, app_nil_r by apply Hin. apply TIT.
      * rewrite filter_app, length_app. cbn [filter]. unfold counted at 2.
        rewrite Ec. cbn. lia.
      * intros k. rewrite first_seen_snoc, Hin, SEEN.
        destruct (first_seen k items); tauto.
      * intros k1 k2 B. destruct (ORD k1 k2 B) as (a & b & Fa & Fb & Lt).
        exists a, b. rewrite !first_seen_snoc, Fa, Fb. auto.
Qed.

End AggregateFacts.

(* ================================================================== *)
(** * Sorting by count and the selection of the top ten *)

Section SortFacts.

Lemma insert_by_count_in (x e : string * nat) (s : list (string * nat)) :
  In e (insert_by_count x s) <-> e = x \/ In e s.
Proof.
  induction s as [|y s IH]; cbn [insert_by_count].
  - cbn. intuition.
  - destruct (snd x <? snd y)%nat; cbn [In].
    + rewrite IH. intuition.
    + intuition.
Qed.

Lemma sorted_by_count_desc_in (e : string * nat) (l : list (string * nat)) :
  In e (sorted_by_count_desc l) <-> In e l.
Proof.
  induction l as [|x l IH]; cbn [sorted_by_count_desc fold_right]; [tauto|].
  fold (sorted_by_count_desc l).
  rewrite insert_by_count_in, IH. cbn. intuition.
Qed.

Lemma insert_by_count_sorted (x : string * nat) (s : list (string * nat)) :
  StronglySorted count_ge s -> StronglySorted count_ge (insert_by_count x s).
Proof.
  induction s as [|y s IH]; intros H; cbn [insert_by_count].
  - repeat constructor.
  - inversion H as [|? ? Hs Hy]; subst.
    destruct (Nat.ltb_spec (snd x) (snd y)).
    + constructor; [now apply IH|].
      apply Forall_forall. intros e He.
      apply insert_by_count_in in He as [-> | He].
      * unfold count_ge. lia.
      * rewrite Forall_forall in Hy. now apply Hy.
    + constructor; [assumption|].
      constructor; [unfold count_ge; lia|].
      rewrite Forall_forall in *. intros e He. specialize (Hy e He).
      unfold count_ge in *. lia.
Qed.

Lemma sorted_by_count_desc_sorted (l : list (string * nat)) :
  StronglySorted count_ge (sorted_by_count_desc l).
Proof.
  induction l as [|x l IH]; cbn [sorted_by_count_desc fold_right].
  - constructor.
  - now apply insert_by_count_sorted.
Qed.

Lemma firstn_sorted {A} (R : A -> A -> Prop) (n : nat) (l : list A) :
  StronglySorted R l -> StronglySorted R (firstn n l).
Proof.
  revert n. induction l as [|x l IH]; intros [|n] H; cbn [firstn]; try constructor.
  - inversion H; subst. now apply IH.
  - inversion H as [|? ? _ Hx]; subst.
    rewrite Forall_forall in *. intros e He. apply Hx.
    rewrite <- (firstn_skipn n l). apply in_or_app. now left.
Qed.

Lemma before_cons {A} (y a b : A) (l : list A) :
  before (y :: l) a b <-> (a = y /\ In b l) \/ before l a b.
Proof.
  split.
  - intros (l1 & l2 & l3 & E). destruct l1 as [|z l1]; cbn in E.
    + inversion E; subst. left. split; [reflexivity|].
      apply in_or_app. right. now left.
    + inversion E; subst. right. exists l1, l2, l3. reflexivity.
  - intros [[-> Hin] | (l1 & l2 & l3 & ->)].
    + apply in_split in Hin as (l2 & l3 & ->). exists [], l2, l3. reflexivity.
    + exists (y :: l1), l2, l3. reflexivity.
Qed.

Lemma before_app_l {A} (l l' : list A) (a b : A) :
  before l a b -> before (l ++ l') a b.
Proof.
  intros (l1 & l2 & l3 & ->). exists l1, l2, (l3 ++ l').
  rewrite <- !app_assoc. cbn. rewrite <- !app_assoc. reflexivity.
Qed.

Lemma before_map {A B} (f : A -> B) (l : list A) (a b : A) :
  before l a b -> before (map f l) (f a) (f b).
Proof.
  intros (l1 & l2 & l3 & ->). exists (map f l1), (map f l2), (map f l3).
  rewrite map_app. cbn. rewrite map_app. reflexivity.
Qed.

Lemma nth_error_before {A} (l : list A) (i j : nat) (a b : A) :
  (i < j)%nat -> nth_error l i = Some a -> nth_error l j = Some b ->
  before l a b.
Proof.
  revert i j. induction l as [|x l IH]; intros i j Hij Hi Hj.
  - destruct i; discriminate.
  - destruct j as [|j]; [lia|]. cbn in Hj.
    apply before_cons. destruct i as [|i]; cbn in Hi.
    + inversion Hi; subst. left. split; [reflexivity|].
      now apply nth_error_In in Hj.
    + right. apply (IH i j); [lia | assumption | assumption].
Qed.

(** Insertion never puts the new entry behind an entry of the same
    count. *)
Lemma insert_by_count_before (x a b : string * nat) (s : list (string * nat)) :
  before (insert_by_count x s) a b -> snd a = snd b ->
  (a = x /\ In b s) \/ before s a b.
Proof.
  induction s as [|y s IH]; cbn [insert_by_count]; intros B T.
  - destruct B as (l1 & l2 & l3 & E).
    destruct l1 as [|? [|? ?]]; cbn in E; inversion E;
      destruct l2; discriminate.
  - destruct (Nat.ltb_spec (snd x) (snd y)).
    + apply before_cons in B as [[-> Hin] | B].
      * apply insert_by_count_in in Hin as [-> | Hin]; [lia|].
        right. apply before_cons. left. auto.
      * destruct (IH B T) as [[-> Hin] | B'].
        -- left. split; [reflexivity | now right].
        -- right. apply before_cons. now right.
    + apply before_cons in B. exact B.
Qed.

(** The sort is stable: entries of equal count keep their order. *)
Lemma sorted_by_count_desc_stable (l : list (string * nat)) (a b : string * nat) :
  before (sorted_by_count_desc l) a b -> snd a = snd b -> before l a b.
Proof.
  revert a b. induction l as [|x l IH]; intros a b B T;
    cbn [sorted_by_count_desc fold_right] in B.
  - destruct B as (l1 & l2 & l3 & E). destruct l1; discriminate.
  - fold (sorted_by_count_desc l) in B.
    apply before_cons.
    destruct (insert_by_count_before _ _ _ _ B T) as [[-> Hin] | B'].
    + left. split; [reflexivity|].
      exact (proj1 (sorted_by_count_desc_in b l) Hin).
    + right. now apply IH.
Qed.

Lemma build_topics_map (top : list (string * nat)) (mapping : dict string)
    (vids : dict (list string)) :
  build_topics top mapping vids = map (make_topic mapping vids) top.
Proof.
  unfold build_topics.
  assert (G : forall acc,
            fold_left (fun topics entry => topics ++ [make_topic mapping vids entry])
                      top acc
            = acc ++ map (make_topic mapping vids) top).
  { induction top as [|e top IH]; intros acc; cbn [fold_left map].
    - now rewrite app_nil_r.
    - rewrite IH, <- app_assoc. reflexivity. }
  apply G.
Qed.

(** C2.  Whatever records reach the aggregator, the categories it selects
    are at most ten, stand in order of non-increasing count, and two of
    them with the same count stand in the order in which their first
    records were met; the report built from them has one entry for each,
    in the same order. *)
Theorem most_common_selection (filtered_items : list video) :
  let top_categories := most_common 10 (fst (aggregate filtered_items)) in
  (List.length top_categories <= 10)%nat
  /\ StronglySorted count_ge top_categories
  /\ (forall i j e1 e2,
        (i < j)%nat ->
        nth_error top_categories i = Some e1 ->
        nth_error top_categories j = Some e2 ->
        snd e1 = snd e2 ->
        exists a b,
          first_seen (fst e1) filtered_items = Some a
          /\ first_seen (fst e2) filtered_items = Some b
          /\ (a < b)%nat)
  /\ (forall mapping vids,
        map topic (build_topics top_categories mapping vids)
        = map (fun e => dict_get_default mapping (fst e) "Unknown")
              top_categories).
Proof.
  cbv zeta. unfold most_common.
  pose proof (aggregate_invariant filtered_items) as Inv.
  destruct (aggregate filtered_items) as [counter vids0].
  destruct Inv as (_ & _ & _ & _ & _ & _ & ORD). cbn [fst].
  split; [apply firstn_le_length|].
  split; [apply firstn_sorted, sorted_by_count_desc_sorted|].
  split.
  - intros i j e1 e2 Hij H1 H2 T.
    apply ORD.
    change (keys counter) with (map fst counter).
    apply before_map.
    apply sorted_by_count_desc_stable; [|assumption].
    rewrite <- (firstn_skipn 10 (sorted_by_count_desc counter)).
    apply before_app_l.
    exact (nth_error_before _ i j e1 e2 Hij H1 H2).
  - intros mapping vids. rewrite build_topics_map, map_map.
    apply map_ext. intros [cid count]. reflexivity.
Qed.

End SortFacts.
(** Case analysis along the early returns of [get_trending_topics]. *)
Ltac run_cases :=
  unfold get_trending_topics;
  repeat match goal with
         | |- context [match get_published_after ?a ?b with _ => _ end] =>
             destruct (get_published_after a b) as [? | published_after] eqn:?
         | |- context [match videos_list ?y ?r ?n with _ => _ end] =>
             destruct (videos_list y r n) as [? | trending_response] eqn:?
         | |- context [match get_items ?r with _ => _ end] =>
             destruct (get_items r) as [| ? ?] eqn:?
         | |- context [match parse_iso_date ?s with _ => _ end] =>
             destruct (parse_iso_date s) as [? | threshold_date] eqn:?
         | |- context [match recency_filter ?a ?b with _ => _ end] =>
             destruct (recency_filter a b) as [| ? ?] eqn:?
         | |- context [match aggregate ?a with _ => _ end] =>
             let c := fresh "category_counter" in
             destruct (aggregate a) as [c category_videos] eqn:?;
             destruct c as [| ? ?]
         | |- context [match videoCategories_list ?y ?i with _ => _ end] =>
             destruct (videoCategories_list y i) as [? | categories_response] eqn:?
         end;
  cbn [returned trace ret].

(* ================================================================== *)
(** * Counts, titles and the report *)

Section ReportFacts.

(** C3, as stated, fails: a record that passes the recency filter but has
    no title is not counted, so the counts sum to less than the number of
    surviving records. *)
Lemma sum_counts_misses_untitled :
  recency_filter [untitled_video] cutoff_2024_03_08 = [untitled_video]
  /\ sum_counts (fst (aggregate (recency_filter [untitled_video]
                                                cutoff_2024_03_08)))
     <> List.length (recency_filter [untitled_video] cutoff_2024_03_08).
Proof.
  split; [vm_compute; reflexivity|].
  vm_compute. discriminate.
Qed.

(** C3, amended.  The counts of all categories sum to the number of
    surviving records that carry a category id and a title, both not
    empty; together with the surviving records that lack one of them,
    which the aggregator skips, they make up the number of surviving
    records. *)
Theorem sum_counts_counted (items : list video) (cutoff : datetime) :
  let surviving := recency_filter items cutoff in
  sum_counts (fst (aggregate surviving))
  = List.length (filter counted surviving)
  /\ (sum_counts (fst (aggregate surviving))
      + List.length (filter (fun item => negb (counted item)) surviving)
      = List.length surviving)%nat.
Proof.
  cbv zeta. set (surviving := recency_filter items cutoff).
  pose proof (aggregate_invariant surviving) as Inv.
  destruct (aggregate surviving) as [counter vids].
  destruct Inv as (_ & _ & _ & _ & SUM & _). cbn [fst].
  split; [assumption|].
  rewrite SUM. clear.
  induction surviving as [|x l IH]; [reflexivity|].
  cbn [filter]. destruct (counted x); cbn [negb List.length]; lia.
Qed.

Lemma most_common_in (n : nat) (counter : dict nat) (e : string * nat) :
  In e (most_common n counter) -> In e counter.
Proof.
  unfold most_common. intros H.
  apply sorted_by_count_desc_in.
  rewrite <- (firstn_skipn n (sorted_by_count_desc counter)).
  apply in_or_app. now left.
Qed.

(** Every selected entry carries as count the number of titles kept for
    its category. *)
Lemma selected_count_titles (filtered_items : list video)
    (cid : string) (count : nat) :
  In (cid, count) (most_common 10 (fst (aggregate filtered_items))) ->
  count = List.length (dict_get_default (snd (aggregate filtered_items)) cid [])
  /\ dict_get_default (snd (aggregate filtered_items)) cid []
     = category_titles cid filtered_items.
Proof.
  pose proof (aggregate_invariant filtered_items) as Inv.
  destruct (aggregate filtered_items) as [counter vids].
  destruct Inv as (_ & ND & CNT & TIT & _). cbn [fst snd].
  intros H. apply most_common_in in H.
  apply (dict_in_get _ _ _ ND) in H.
  split; [|apply TIT].
  rewrite TIT, <- CNT. unfold dict_get_default. now rewrite H.
Qed.

(** C9.  In every report, the count a topic's comment states is the
    length of that topic's title list; and in the aggregator the count of
    every category is the length of its title list, for every category
    id, after any list of records. *)
Theorem comment_count_is_title_count (youtube : client) (utcnow : datetime)
    (time_span region : string) :
  match returned (get_trending_topics youtube utcnow time_span region) with
  | inr topics =>
      Forall (fun t => comment t
                       = make_comment (List.length (videos t)) (topic t))
             topics
  | inl _ => True
  end
  /\ forall (filtered_items : list video) (cid : string),
       dict_get_default (fst (aggregate filtered_items)) cid 0%nat
       = List.length (dict_get_default (snd (aggregate filtered_items)) cid []).
Proof.
  split.
  - run_cases; try exact I; try (constructor; fail).
    match goal with
    | E : aggregate ?f = (?c, ?v) |- _ =>
        pose proof (selected_count_titles f) as HS; rewrite E in HS;
        cbn [fst snd] in HS
    end.
    rewrite build_topics_map. apply Forall_forall. intros t Ht.
    apply in_map_iff in Ht as ([cid count] & <- & Hin).
    destruct (HS cid count) as [Hc _]; [exact Hin|].
    cbn [make_topic comment videos topic]. now rewrite <- Hc.
  - intros filtered_items cid.
    pose proof (aggregate_invariant filtered_items) as Inv.
    destruct (aggregate filtered_items) as [counter vids].
    destruct Inv as (_ & _ & CNT & TIT & _). cbn [fst snd].
    now rewrite CNT, TIT.
Qed.

End ReportFacts.

(* ================================================================== *)
(** * The comment and the category names *)

Section AssemblerFacts.

(** C7.  The comment of a topic is the template of the specification with
    the count and the resolved name put in, for every count and name; and
    every entry of a report carries that comment for the count of its
    category and the name resolved for it. *)
Theorem comment_is_template :
  (forall (count : nat) (cat_name : string),
     make_comment count cat_name = spec_comment count cat_name)
  /\ (forall top_categories category_mapping category_videos,
        build_topics top_categories category_mapping category_videos
        = map (fun e =>
                 let name := dict_get_default category_mapping (fst e) "Unknown" in
                 mktopic name (spec_comment (snd e) name)
                         (dict_get_default category_videos (fst e) []))
              top_categories).
Proof.
  assert (H : forall count cat_name,
            make_comment count cat_name = spec_comment count cat_name)
    by (intros; reflexivity).
  split; [exact H|].
  intros top mapping vids. rewrite build_topics_map.
  apply map_ext. intros [cid count]. cbn [make_topic fst snd].
  now rewrite H.
Qed.

Lemma build_mapping_keys (l : list category) (acc : dict string) (k : string) :
  In k (keys (fold_left (fun m item => dict_set m (cat_id item) (cat_title item))
                        l acc))
  <-> In k (keys acc) \/ In k (map cat_id l).
Proof.
  revert acc. induction l as [|c l IH]; intros acc; cbn [fold_left map In].
  - tauto.
  - rewrite IH.
    destruct (in_dec string_dec (cat_id c) (keys acc)) as [I|I].
    + rewrite keys_dict_set_in by assumption.
      split; [tauto|]. intros [H | [<- | H]]; tauto.
    + rewrite keys_dict_set_new, in_app_iff by assumption. cbn [In]. tauto.
Qed.

Lemma build_mapping_unknown (resp : response category) (cid : string) :
  ~ In cid (map cat_id (get_items resp)) ->
  dict_get_default (build_mapping resp) cid "Unknown" = "Unknown".
Proof.
  intros H. unfold dict_get_default, build_mapping.
  destruct (dict_get _ cid) as [v|] eqn:E; [|reflexivity].
  exfalso. apply H.
  assert (I : In cid (keys (fold_left
              (fun m item => dict_set m (cat_id item) (cat_title item))
              (get_items resp) []))).
  { destruct (in_dec string_dec cid (keys (fold_left
              (fun m item => dict_set m (cat_id item) (cat_title item))
              (get_items resp) []))) as [I|I]; [assumption|].
    apply dict_get_none in I. congruence. }
  apply build_mapping_keys in I as [[] | I]. exact I.
Qed.

End AssemblerFacts.

(* ================================================================== *)
(** * Failing and incomplete answers of the remote interface *)

Section FailureFacts.

Ltac in_trace H :=
  cbn [trace app In] in H;
  repeat match type of H with
         | _ \/ _ => destruct H as [H | H]
         | False => contradiction
         end;
  try discriminate.

(** C5.  When a remote call of an invocation raises, be it the listing of
    trending videos or the category lookup, the invocation returns the
    empty list, no exception leaves it, and the last thing it writes to
    the page is the error message naming that call with the text of the
    exception. *)
Theorem remote_failure_gives_empty_report (youtube : client)
    (utcnow : datetime) (time_span region : string) (e : exn) :
  let run := get_trending_topics youtube utcnow time_span region in
  (exists regionCode maxResults,
      In (Called_videos regionCode maxResults (inl e)) (trace run))
  \/ (exists id, In (Called_categories id (inl e)) (trace run)) ->
  returned run = inr []
  /\ exists what,
       last (trace run) (St_info "") = St_error (what ++ exn_text e)%string
       /\ ((exists regionCode maxResults,
              In (Called_videos regionCode maxResults (inl e)) (trace run))
           /\ what = "Error fetching trending videos: "
           \/ (exists id, In (Called_categories id (inl e)) (trace run))
              /\ what = "Error fetching category details: ").
Proof.
  cbv zeta. run_cases; intros H.
  - destruct H as [(rc & n & H) | (id & H)]; in_trace H.
  - split; [reflexivity|].
    exists "Error fetching trending videos: ".
    destruct H as [(rc & n & H) | (id & H)]; in_trace H.
    inversion H; subst. split; [reflexivity|].
    left. split; [|reflexivity]. eexists _, _. cbn. left. reflexivity.
  - destruct H as [(rc & n & H) | (id & H)]; in_trace H.
  - destruct H as [(rc & n & H) | (id & H)]; in_trace H.
  - destruct H as [(rc & n & H) | (id & H)]; in_trace H.
  - destruct H as [(rc & n & H) | (id & H)]; in_trace H.
  - split; [reflexivity|].
    exists "Error fetching category details: ".
    destruct H as [(rc & n & H) | (id & H)]; in_trace H.
    inversion H; subst. split; [reflexivity|].
    right. split; [|reflexivity]. eexists. cbn. right. left. reflexivity.
  - destruct H as [(rc & n & H) | (id & H)]; in_trace H.
Qed.

Lemma remote_failure_gives_empty_report_witness :
  returned (get_trending_topics failing_listing clock_2024_03_15
                                "1 Week" "Brazil") = inr []
  /\ returned (get_trending_topics failing_lookup clock_2024_03_15
                                   "1 Month" "World") = inr [].
Proof.
  split.
  - apply (remote_failure_gives_empty_report failing_listing clock_2024_03_15
             "1 Week" "Brazil" quota_exceeded).
    left. exists "BR", 50. vm_compute. left. reflexivity.
  - apply (remote_failure_gives_empty_report failing_lookup clock_2024_03_15
             "1 Month" "World" quota_exceeded).
    right. exists "10". vm_compute. right. left. reflexivity.
Defined.

(** C6.  When the category lookup answers, the report has one entry for
    each selected category, in their order; an entry whose category id
    the answer does not contain has the name "Unknown", the comment made
    from its count and that name, and the titles kept for the category. *)
Theorem unknown_category_still_reported (youtube : client)
    (utcnow : datetime) (time_span region : string)
    (id : string) (lookup_response : response category) :
  let run := get_trending_topics youtube utcnow time_span region in
  In (Called_categories id (inr lookup_response)) (trace run) ->
  exists trending_response threshold_date top_categories category_videos topics,
    In (Called_videos (if String.eqb region "Brazil" then "BR" else "US") 50
                      (inr trending_response)) (trace run)
    /\ selected (get_items trending_response) threshold_date
       = (top_categories, category_videos)
    /\ returned run = inr topics
    /\ List.length topics = List.length top_categories
    /\ forall i cid count,
         nth_error top_categories i = Some (cid, count) ->
         ~ In cid (map cat_id (get_items lookup_response)) ->
         nth_error topics i
         = Some (mktopic "Unknown" (make_comment count "Unknown")
                         (dict_get_default category_videos cid []))
         /\ dict_get_default category_videos cid []
            = category_titles cid (recency_filter (get_items trending_response)
                                                  threshold_date)
         /\ count = List.length (dict_get_default category_videos cid []).
Proof.
  cbv zeta. run_cases; intros H; in_trace H.
  inversion H; subst. clear H.
  match goal with
  | E : get_items trending_response = _ |- _ => rewrite <- E in *
  end.
  match goal with
  | E : recency_filter _ _ = _ |- _ => rewrite <- E in *
  end.
  match goal with
  | E : aggregate ?f = (?c, ?v) |- _ =>
      exists trending_response, threshold_date, (most_common 10 c), v,
             (build_topics (most_common 10 c) (build_mapping lookup_response) v);
      pose proof (selected_count_titles f) as HS; rewrite E in HS;
      cbn [fst snd] in HS;
      split; [left; reflexivity|];
      split; [unfold selected; rewrite E; reflexivity|]
  end.
  split; [reflexivity|].
  split; [rewrite build_topics_map; apply length_map|].
  intros i cid count Hn Hno.
  destruct (HS cid count (nth_error_In _ _ Hn)) as [Hc Ht].
  split; [|split; assumption].
  rewrite build_topics_map, nth_error_map, Hn. cbn [option_map make_topic].
  now rewrite (build_mapping_unknown _ _ Hno).
Qed.

Lemma unknown_category_still_reported_witness :
  exists trending_response threshold_date top_categories category_videos topics,
    In (Called_videos "US" 50 (inr trending_response))
       (trace (get_trending_topics silent_lookup clock_2024_03_15
                                   "1 Week" "World"))
    /\ selected (get_items trending_response) threshold_date
       = (top_categories, category_videos)
    /\ returned (get_trending_topics silent_lookup clock_2024_03_15
                                     "1 Week" "World") = inr topics
    /\ List.length topics = List.length top_categories
    /\ forall i cid count,
         nth_error top_categories i = Some (cid, count) ->
         ~ In cid (map cat_id (get_items (mkresponse
                     (Some [mkcategory "24" "Entertainment"])))) ->
         nth_error topics i
         = Some (mktopic "Unknown" (make_comment count "Unknown")
                         (dict_get_default category_videos cid []))
         /\ dict_get_default category_videos cid []
            = category_titles cid (recency_filter (get_items trending_response)
                                                  threshold_date)
         /\ count = List.length (dict_get_default category_videos cid []).
Proof.
  apply (unknown_category_still_reported silent_lookup clock_2024_03_15
           "1 Week" "World" "10"
           (mkresponse (Some [mkcategory "24" "Entertainment"]))).
  vm_compute. right. left. reflexivity.
Defined.

End FailureFacts.

(* ================================================================== *)
(** * The time window *)

Section WindowFacts.
Import Calendar.

Lemma toordinal_range (t : datetime) :
  valid_datetime t = true -> 1 <= toordinal t <= _MAXORDINAL.
Proof.
  intros Hv. apply valid_datetime_fields in Hv as (Hd & _).
  unfold check_date_fields, MINYEAR, MAXYEAR in Hd.
  repeat rewrite andb_true_iff in Hd. repeat rewrite Z.leb_le in Hd.
  destruct Hd as [[[[[Y1 Y2] M1] M2] D1] D2].
  rewrite is_leap_dim in D2.
  unfold toordinal, _ymd2ord. rewrite is_leap_dbm.
  pose proof (dbm_leap_step (_is_leap (year t)) (month t) ltac:(lia)) as (P & Q & _).
  pose proof (days_before_year_succ (year t) ltac:(lia)) as S.
  pose proof (days_before_year_mono 1 (year t) ltac:(lia)) as M1'.
  pose proof (days_before_year_mono (year t + 1) 10000 ltac:(lia)) as M2'.
  change (_days_before_year 1) with 0 in M1'.
  change (_days_before_year 10000) with 3652059 in M2'.
  unfold _MAXORDINAL.
  destruct (_is_leap (year t)); lia.
Qed.

Lemma instant_sub_days (now t : datetime) (k : Z) :
  toordinal t = toordinal now - k ->
  hour t = hour now -> minute t = minute now -> second t = second now ->
  microsecond t = microsecond now ->
  instant t = instant now - k * microseconds_per_day.
Proof.
  intros Ho Hh Hm Hs Hu. unfold instant, microseconds_per_day.
  rewrite Ho, Hh, Hm, Hs, Hu. lia.
Qed.

Lemma delta_days_cases (time_span : string) :
  delta_days time_span = 7 \/ delta_days time_span = 30
  \/ delta_days time_span = 180.
Proof.
  unfold delta_days.
  destruct (String.eqb time_span "1 Week"); [auto|].
  destruct (String.eqb time_span "1 Month"); [auto|].
  destruct (String.eqb time_span "6 Months"); auto.
Qed.

(** C4.  The resolver maps "1 Week", "1 Month" and "6 Months" to 7, 30 and
    180 days and every other selection to 7 days; for a reading of the
    clock that lies more than that many days after the first day the
    calendar can represent, it returns, without raising, the text of the
    instant that many whole days before the reading, a text that parses
    back to that instant. *)
Theorem cutoff_is_now_minus_window (now : datetime) (time_span : string) :
  valid_datetime now = true ->
  delta_days time_span < toordinal now ->
  (delta_days "1 Week" = 7 /\ delta_days "1 Month" = 30
   /\ delta_days "6 Months" = 180
   /\ (time_span <> "1 Week" -> time_span <> "1 Month" ->
       time_span <> "6 Months" -> delta_days time_span = 7))
  /\ exists cutoff,
       get_published_after now time_span = inr (isoformat cutoff ++ "Z")%string
       /\ valid_datetime cutoff = true
       /\ instant cutoff
          = instant now - delta_days time_span * microseconds_per_day
       /\ parse_iso_date (Some (isoformat cutoff ++ "Z")%string) = inr cutoff.
Proof.
  intros Hv Hd. split.
  - repeat split; try reflexivity.
    intros N1 N2 N3. unfold delta_days.
    apply String.eqb_neq in N1, N2, N3. now rewrite N1, N2, N3.
  - pose proof (toordinal_range now Hv) as Hr.
    pose proof (delta_days_cases time_span) as Hc.
    destruct (datetime_sub_days_spec now (delta_days time_span) Hv ltac:(lia))
      as (t & Hs & Hvt & Ho & Hh & Hm & Hsec & Hu).
    exists t. unfold get_published_after. rewrite Hs. cbn [bind ret].
    split; [reflexivity|]. split; [assumption|].
    split; [now apply instant_sub_days | now apply parse_isoformat].
Qed.

Lemma cutoff_is_now_minus_window_witness :
  exists cutoff,
    get_published_after clock_2024_03_15 "6 Months"
    = inr (isoformat cutoff ++ "Z")%string
    /\ valid_datetime cutoff = true
    /\ instant cutoff
       = instant clock_2024_03_15
         - delta_days "6 Months" * microseconds_per_day
    /\ parse_iso_date (Some (isoformat cutoff ++ "Z")%string) = inr cutoff.
Proof.
  apply (cutoff_is_now_minus_window clock_2024_03_15 "6 Months");
    vm_compute; reflexivity.
Defined.

End WindowFacts.

(* ================================================================== *)
(** * The threshold always parses *)

Section ThresholdFacts.
Import Calendar.

Lemma get_published_after_inv (now : datetime) (time_span s : string) :
  valid_datetime now = true ->
  get_published_after now time_span = inr s ->
  exists cutoff,
    s = (isoformat cutoff ++ "Z")%string /\ valid_datetime cutoff = true
    /\ microsecond cutoff = microsecond now
    /\ instant cutoff = instant now - delta_days time_span * microseconds_per_day.
Proof.
  intros Hv H. unfold get_published_after in H.
  destruct (datetime_sub_days now (delta_days time_span)) as [e|t] eqn:E;
    [discriminate|].
  cbn [bind ret] in H. inversion H; subst. clear H.
  assert (Hr : 0 < toordinal now - delta_days time_span <= _MAXORDINAL).
  { unfold datetime_sub_days in E.
    pose proof (toordinal_range now Hv) as Hr.
    pose proof (delta_days_cases time_span) as Hc.
    apply valid_datetime_fields in Hv as (_ & Hh & Hm & Hs & Hu).
    rewrite (Z.div_small (microsecond now)) in E by lia.
    rewrite Z.add_0_r in E.
    rewrite (Z.div_small (hour now * 3600 + minute now * 60 + second now)) in E by lia.
    rewrite Z.add_0_r in E.
    destruct ((0 <? _) && (_ <=? _)) eqn:B; [|discriminate].
    apply andb_true_iff in B as [B1 B2].
    apply Z.ltb_lt in B1. apply Z.leb_le in B2. lia. }
  destruct (datetime_sub_days_spec now (delta_days time_span) Hv Hr)
    as (t' & Hs & Hvt & Ho & Hh & Hm & Hsec & Hu).
  rewrite E in Hs. inversion Hs; subst t'.
  exists t. split; [reflexivity|]. split; [assumption|]. split; [assumption|].
  now apply instant_sub_days.
Qed.

(** C10.  Whatever the selection and the reading of the clock, the text
    the resolver returns parses: under the format with a fraction when
    the reading has microseconds, under the one without when it has none;
    so no invocation reports an error about the threshold date. *)
Theorem cutoff_text_always_parses (now : datetime)
    (time_span published_after : string) :
  valid_datetime now = true ->
  get_published_after now time_span = inr published_after ->
  (exists threshold_date,
     parse_iso_date (Some published_after) = inr threshold_date
     /\ Strptime.strptime (Some published_after)
          (if microsecond now =? 0
           then "%Y-%m-%dT%H:%M:%SZ" else "%Y-%m-%dT%H:%M:%S.%fZ")
        = inr threshold_date)
  /\ forall youtube region msg,
       In (St_error msg)
          (trace (get_trending_topics youtube now time_span region)) ->
       (exists e, msg = ("Error fetching trending videos: " ++ exn_text e)%string
                  \/ msg = ("Error fetching category details: " ++ exn_text e)%string)
       /\ forall e, msg <> ("Error parsing threshold date: " ++ exn_text e)%string.
Proof.
  intros Hv Hp.
  destruct (get_published_after_inv now time_span published_after Hv Hp)
    as (cutoff & -> & Hvc & Hus & _).
  assert (Hparse : parse_iso_date (Some (isoformat cutoff ++ "Z")%string)
                   = inr cutoff) by now apply parse_isoformat.
  split.
  - exists cutoff. split; [assumption|].
    rewrite <- Hus.
    destruct (Z.eqb_spec (microsecond cutoff) 0) as [E|E].
    + now apply strptime_plain_isoformat.
    + rewrite strptime_fractional_isoformat by assumption.
      destruct (Z.eqb_spec (microsecond cutoff) 0); [contradiction | reflexivity].
  - intros youtube region msg H.
    assert (G : exists e,
               msg = ("Error fetching trending videos: " ++ exn_text e)%string
               \/ msg = ("Error fetching category details: " ++ exn_text e)%string);
      [|split; [exact G|];
        destruct G as (e0 & [-> | ->]); intros e; cbn [append]; discriminate].
    revert H.
    unfold get_trending_topics. rewrite Hp, Hparse.
    repeat match goal with
           | |- context [match videos_list ?y ?r ?n with _ => _ end] =>
               destruct (videos_list y r n) as [? | trending_response] eqn:?
           | |- context [match get_items ?r with _ => _ end] =>
               destruct (get_items r) as [| ? ?] eqn:?
           | |- context [match recency_filter ?a ?b with _ => _ end] =>
               destruct (recency_filter a b) as [| ? ?] eqn:?
           | |- context [match aggregate ?a with _ => _ end] =>
               let c := fresh "category_counter" in
               destruct (aggregate a) as [c category_videos] eqn:?;
               destruct c as [| ? ?]
           | |- context [match videoCategories_list ?y ?i with _ => _ end] =>
               destruct (videoCategories_list y i) as [? | categories_response] eqn:?
           end;
    cbn [trace app In]; intros H;
    repeat match type of H with
           | _ \/ _ => destruct H as [H | H]
           | False => contradiction
           end;
    try discriminate;
    inversion H; subst; eexists;
    first [left; reflexivity | right; reflexivity].
Qed.

Lemma cutoff_text_always_parses_witness :
  exists threshold_date,
    parse_iso_date (Some "2024-03-08T18:30:00.250000Z") = inr threshold_date
    /\ Strptime.strptime (Some "2024-03-08T18:30:00.250000Z")
         (if microsecond clock_2024_03_15 =? 0
          then "%Y-%m-%dT%H:%M:%SZ" else "%Y-%m-%dT%H:%M:%S.%fZ")
       = inr threshold_date.
Proof.
  apply (cutoff_text_always_parses clock_2024_03_15 "1 Week"
           "2024-03-08T18:30:00.250000Z"); vm_compute; reflexivity.
Defined.

End ThresholdFacts.

(* ================================================================== *)
(** * The scenario of the specification *)

Section ScenarioFacts.
Import Calendar.

(** C8.  Three raw records, "A" and "B" of category "10" published at the
    reading of the clock and "C" of category "20" published forty days
    before it: under the window of one week the recency filter keeps "A"
    and "B" and leaves "C" out, and the aggregator yields the one entry
    for category "10", with count 2 and the titles "A", "B". *)
Theorem scenario_one_category (idA idB idC : string) (now : datetime) :
  valid_datetime now = true ->
  40 < toordinal now ->
  exists ago threshold_date,
    datetime_sub_days now 40 = inr ago
    /\ bind (get_published_after now "1 Week")
            (fun published_after => parse_iso_date (Some published_after))
       = inr threshold_date
    /\ let records := scenario_records idA idB idC now ago in
       recency_filter records threshold_date = firstn 2 records
       /\ ~ In (nth 2 records (mkvideo "" (mksnippet None None None)))
               (recency_filter records threshold_date)
       /\ aggregate (recency_filter records threshold_date)
          = ([("10", 2%nat)], [("10", ["A"; "B"])])
       /\ selected records threshold_date
          = ([("10", 2%nat)], [("10", ["A"; "B"])]).
Proof.
  intros Hv Hd.
  pose proof (toordinal_range now Hv) as Hr.
  destruct (datetime_sub_days_spec now 40 Hv ltac:(lia))
    as (ago & Hago & Hvago & Hoago & Hh1 & Hm1 & Hs1 & Hu1).
  destruct (datetime_sub_days_spec now 7 Hv ltac:(lia))
    as (thr & Hthr & Hvthr & Hothr & Hh2 & Hm2 & Hs2 & Hu2).
  exists ago, thr. split; [assumption|].
  assert (Hpa : get_published_after now "1 Week"
                = inr (isoformat thr ++ "Z")%string).
  { unfold get_published_after. change (delta_days "1 Week") with 7.
    rewrite Hthr. reflexivity. }
  split; [rewrite Hpa; cbn [bind]; now apply parse_isoformat|].
  assert (Hnow : datetime_ge now thr = true).
  { rewrite datetime_ge_instant by assumption. apply Z.leb_le.
    rewrite (instant_sub_days now thr 7) by assumption.
    unfold microseconds_per_day. lia. }
  assert (Hold : datetime_ge ago thr = false).
  { rewrite datetime_ge_instant by assumption. apply Z.leb_gt.
    rewrite (instant_sub_days now thr 7) by assumption.
    rewrite (instant_sub_days now ago 40) by assumption.
    unfold microseconds_per_day. lia. }
  assert (Hf : recency_filter (scenario_records idA idB idC now ago) thr
               = firstn 2 (scenario_records idA idB idC now ago)).
  { rewrite recency_filter_filter. unfold scenario_records.
    cbn [filter firstn]. unfold recent. cbn [snippet publishedAt].
    rewrite !(parse_isoformat now Hv), (parse_isoformat ago Hvago), Hnow, Hold.
    reflexivity. }
  cbv zeta. split; [exact Hf|]. split; [|split].
  - rewrite Hf. cbn [scenario_records firstn nth In].
    intros [H | [H | []]]; inversion H.
  - rewrite Hf. reflexivity.
  - unfold selected. rewrite Hf. reflexivity.
Qed.

Lemma scenario_one_category_witness :
  exists ago threshold_date,
    datetime_sub_days clock_2024_03_15 40 = inr ago
    /\ bind (get_published_after clock_2024_03_15 "1 Week")
            (fun published_after => parse_iso_date (Some published_after))
       = inr threshold_date
    /\ let records := scenario_records "a" "b" "c" clock_2024_03_15 ago in
       recency_filter records threshold_date = firstn 2 records
       /\ ~ In (nth 2 records (mkvideo "" (mksnippet None None None)))
               (recency_filter records threshold_date)
       /\ aggregate (recency_filter records threshold_date)
          = ([("10", 2%nat)], [("10", ["A"; "B"])])
       /\ selected records threshold_date
          = ([("10", 2%nat)], [("10", ["A"; "B"])]).
Proof.
  apply (scenario_one_category "a" "b" "c" clock_2024_03_15);
    vm_compute; reflexivity.
Defined.

End ScenarioFacts.

(* ================================================================== *)
(** * The courses of an invocation *)

Section RunStructure.

Lemma most_common_nonempty (n : nat) (x : string * nat) (c : dict nat) :
  most_common (S n) (x :: c) <> [].
Proof.
  unfold most_common. cbn [sorted_by_count_desc fold_right].
  destruct (fold_right insert_by_count [] c) as [|y s]; cbn [insert_by_count].
  - discriminate.
  - destruct (snd x <? snd y)%nat; discriminate.
Qed.

(** The courses an invocation can take, for a reading of the clock that
    is a datetime. *)
Lemma run_structure (youtube : client) (now : datetime)
    (time_span region : string) :
  valid_datetime now = true ->
  let run := get_trending_topics youtube now time_span region in
  let rc := if String.eqb region "Brazil" then "BR" else "US" in
  (exists e, get_published_after now time_span = inl e
             /\ run = mkoutcome (inl e) [])
  \/ exists thr,
       bind (get_published_after now time_span)
            (fun pa => parse_iso_date (Some pa)) = inr thr
       /\ valid_datetime thr = true
       /\ instant thr = instant now - delta_days time_span * microseconds_per_day
       /\ ((exists e,
              videos_list youtube rc 50 = inl e
              /\ run = mkoutcome (inr [])
                         [Called_videos rc 50 (inl e);
                          St_error ("Error fetching trending videos: "
                                    ++ exn_text e)%string])
           \/ exists resp top vids,
                videos_list youtube rc 50 = inr resp
                /\ selected (get_items resp) thr = (top, vids)
                /\ ((top = []
                     /\ exists msg,
                          run = mkoutcome (inr [])
                                  [Called_videos rc 50 (inr resp); St_info msg])
                    \/ (top <> []
                        /\ ((exists e,
                               videoCategories_list youtube
                                 (join "," (keys (dict_of_pairs top))) = inl e
                               /\ run = mkoutcome (inr [])
                                    [Called_videos rc 50 (inr resp);
                                     Called_categories
                                       (join "," (keys (dict_of_pairs top)))
                                       (inl e);
                                     St_error ("Error fetching category details: "
                                               ++ exn_text e)%string])
                            \/ exists cresp,
                                 videoCategories_list youtube
                                   (join "," (keys (dict_of_pairs top)))
                                 = inr cresp
                                 /\ run = mkoutcome
                                      (inr (build_topics top (build_mapping cresp)
                                                         vids))
                                      [Called_videos rc 50 (inr resp);
                                       Called_categories
                                         (join "," (keys (dict_of_pairs top)))
                                         (inr cresp)])))).
Proof.
  intros Hv. cbv zeta.
  destruct (get_published_after now time_span) as [e|pa] eqn:Epa.
  - left. exists e. split; [reflexivity|].
    unfold get_trending_topics. now rewrite Epa.
  - right.
    destruct (get_published_after_inv now time_span pa Hv Epa)
      as (thr & -> & Hvt & _ & Hi).
    pose proof (parse_isoformat thr Hvt) as Hparse.
    exists thr. cbn [bind]. split; [assumption|]. split; [assumption|].
    split; [assumption|].
    unfold get_trending_topics. rewrite Epa, Hparse.
    set (rc := if String.eqb region "Brazil" then "BR" else "US").
    destruct (videos_list youtube rc 50) as [e|resp] eqn:Ev.
    + left. exists e. split; reflexivity.
    + right. exists resp. unfold selected.
      destruct (get_items resp) as [|v l] eqn:Ei.
      { exists [], []. split; [reflexivity|]. split; [reflexivity|].
        left. split; [reflexivity|]. eexists. reflexivity. }
      destruct (recency_filter (v :: l) thr) as [|v0 l0] eqn:Ef.
      { exists [], []. split; [reflexivity|]. split; [reflexivity|].
        left. split; [reflexivity|]. eexists. reflexivity. }
      destruct (aggregate (v0 :: l0)) as [[|p c] vids] eqn:Ea.
      { exists [], vids. split; [reflexivity|]. split; [reflexivity|].
        left. split; [reflexivity|]. eexists. reflexivity. }
      exists (most_common 10 (p :: c)), vids.
      split; [reflexivity|]. split; [reflexivity|].
      right. split; [apply most_common_nonempty|].
      destruct (videoCategories_list youtube _) as [e|cresp] eqn:Ec.
      * left. exists e. split; reflexivity.
      * right. exists cresp. split; reflexivity.
Qed.

End RunStructure.

(* ================================================================== *)
(** * What [parse_iso_date] returns and what it reads *)

Section ParseFacts.
Import Strptime.

Lemma strptime_none (fmt : string) :
  strptime None fmt = raise TypeError "strptime() argument 1 must be str, not None".
Proof. reflexivity. Qed.

Lemma parse_some_cases (s : string) :
  (exists t, parse_iso_date (Some s) = inr t /\ valid_datetime t = true)
  \/ parse_iso_date (Some s)
     = raise ValueError
         ("Time data '" ++ s ++ "' does not match expected formats.")%string.
Proof.
  unfold parse_iso_date, formats. cbn [parse_with].
  destruct (strptime (Some s) "%Y-%m-%dT%H:%M:%S.%fZ") as [e1|t1] eqn:E1.
  - rewrite (strptime_error_class _ _ _ E1).
    destruct (strptime (Some s) "%Y-%m-%dT%H:%M:%SZ") as [e2|t2] eqn:E2.
    + rewrite (strptime_error_class _ _ _ E2). right. reflexivity.
    + left. exists t2. split; [reflexivity|].
      now apply strptime_some in E2 as (_ & _ & _ & _ & H).
  - left. exists t1. split; [reflexivity|].
    now apply strptime_some in E1 as (_ & _ & _ & _ & H).
Qed.

(** X1.  [parse_iso_date] ends in one of three ways: on a text it
    returns a datetime the constructor accepts, or raises the
    [ValueError] whose message quotes the text; on a missing timestamp
    ([None]) the [TypeError] of [strptime] leaves it, since only
    [ValueError] is caught. *)
Theorem parse_iso_date_outcomes (date_str : option string) :
  match date_str, parse_iso_date date_str with
  | Some s, inr t => valid_datetime t = true
  | Some s, inl e =>
      e = Exn ValueError
            ("Time data '" ++ s ++ "' does not match expected formats.")%string
  | None, inl e => exn_class e = TypeError
  | None, inr _ => False
  end.
Proof.
  destruct date_str as [s|].
  - destruct (parse_some_cases s) as [(t & -> & Hv) | ->]; [assumption | reflexivity].
  - reflexivity.
Qed.

Lemma re_match_last_lit (c : ascii) (p : list atom) :
  forall (s : string) f tail,
  re_match (p ++ [Lit c]) s = Some (f, tail) ->
  exists body x, s = (body ++ String x tail)%string /\ eqb_ci x c = true.
Proof.
  induction p as [|a p IH]; intros s f tail H; cbn [app] in H.
  - destruct s as [|x s]; [discriminate|].
    rewrite re_match_lit in H.
    destruct (eqb_ci x c) eqn:E; [|discriminate].
    cbn in H. inversion H; subst. exists ""%string, x. auto.
  - destruct a as [l | d alts].
    + destruct s as [|x s]; [discriminate|].
      rewrite re_match_lit in H.
      destruct (eqb_ci x l); [|discriminate].
      destruct (IH _ _ _ H) as (body & y & -> & Hy).
      exists (String x body), y. auto.
    + rewrite re_match_group in H.
      apply first_alt_sound in H as (alt & m1 & rest & _ & Hm & Hk).
      unfold found_cons in Hk.
      destruct (re_match (p ++ [Lit c]) rest) as [[f' tail']|] eqn:Er;
        [|discriminate].
      inversion Hk; subst.
      destruct (IH _ _ _ Er) as (body & y & -> & Hy).
      destruct (match_alt_sound _ _ _ _ Hm) as [-> _].
      exists (m1 ++ body)%string, y. split; [now rewrite append_assoc | assumption].
Qed.

Lemma eqb_ci_Z (x : ascii) : eqb_ci x "Z" = true -> x = "Z"%char \/ x = "z"%char.
Proof.
  destruct x as [[] [] [] [] [] [] [] []]; vm_compute; intros H;
    first [discriminate | now left | now right].
Qed.

Lemma next_char_self (s : string) (cp : Z) (bytes rest : string) :
  next_char s = Some (cp, bytes, rest) ->
  forall t, next_char (bytes ++ t) = Some (cp, bytes, t).
Proof.
  intros E t. unfold next_char in E.
  destruct s as [|a s1]; [discriminate|].
  destruct (byte a <? 128) eqn:L.
  { inversion E; subst. cbn [append]. unfold next_char. now rewrite L. }
  destruct ((194 <=? byte a) && (byte a <=? 223)) eqn:T2.
  { destruct s1 as [|a1 s2]; [discriminate|].
    destruct (continuation a1) as [c1|] eqn:C1; [|discriminate].
    inversion E; subst. cbn [append]. unfold next_char.
    now rewrite L, T2, C1. }
  destruct ((224 <=? byte a) && (byte a <=? 239)) eqn:T3.
  { destruct s1 as [|a1 [|a2 s3]]; try discriminate.
    destruct (continuation a1) as [c1|] eqn:C1; [|discriminate].
    destruct (continuation a2) as [c2|] eqn:C2; [|discriminate].
    destruct (2048 <=? _) eqn:V; [|discriminate].
    inversion E; subst. cbn [append]. unfold next_char.
    now rewrite L, T2, T3, C1, C2, V. }
  destruct ((240 <=? byte a) && (byte a <=? 244)) eqn:T4; [|discriminate].
  destruct s1 as [|a1 [|a2 [|a3 s4]]]; try discriminate.
  destruct (continuation a1) as [c1|] eqn:C1; [|discriminate].
  destruct (continuation a2) as [c2|] eqn:C2; [|discriminate].
  destruct (continuation a3) as [c3|] eqn:C3; [|discriminate].
  destruct ((65536 <=? _) && (_ <=? 1114111)) eqn:V; [|discriminate].
  inversion E; subst. cbn [append]. unfold next_char.
  now rewrite L, T2, T3, T4, C1, C2, C3, V.
Qed.

Lemma made_of_app (P : Z -> bool) (a b : string) :
  made_of P a -> made_of P b -> made_of P (a ++ b).
Proof.
  intros Ha Hb. induction Ha as [|s cp bytes rest En Hp Hr IH]; [assumption|].
  destruct (next_char_sound _ _ _ _ En) as [-> _].
  rewrite append_assoc.
  apply (made_of_char P _ cp bytes (rest ++ b)%string);
    [exact (next_char_self _ _ _ _ En _) | assumption | assumption].
Qed.

Lemma cls_fine_code (k : cls) (cp : Z) :
  cls_fine k = true -> cls_ok k cp = true -> timestamp_code cp = true.
Proof.
  unfold timestamp_code. destruct k as [|lo hi|c]; cbn [cls_fine cls_ok].
  - intros _ H. destruct (decimal_value cp); [reflexivity | discriminate].
  - intros F H. apply andb_true_iff in F as [F1 F2].
    apply is_digit_byte in F1. apply is_digit_byte in F2.
    apply andb_true_iff in H as [H1 H2].
    apply Z.leb_le in H1. apply Z.leb_le in H2.
    now rewrite decimal_value_ascii by lia.
  - intros F H. apply Z.eqb_eq in H. subst cp.
    apply orb_true_iff in F as [F | F].
    + apply is_digit_byte in F. now rewrite decimal_value_ascii by lia.
    + apply Ascii.eqb_eq in F. subst c. reflexivity.
Qed.

Lemma lit_code (a l : ascii) :
  existsb (Ascii.eqb l) (list_ascii_of_string "-:.TZ") = true ->
  eqb_ci a l = true ->
  byte a < 128 /\ timestamp_code (byte a) = true.
Proof.
  cbn [list_ascii_of_string existsb]. intros Hl.
  repeat (apply orb_true_iff in Hl as [Hl | Hl];
          [apply Ascii.eqb_eq in Hl; subst l|]); try discriminate;
    destruct a as [[] [] [] [] [] [] [] []]; vm_compute; intros H;
    first [discriminate | split; reflexivity].
Qed.

Lemma match_alt_made (alt : list cls) :
  forallb cls_fine alt = true ->
  forall (s m rest : string),
  match_alt alt s = Some (m, rest) ->
  s = (m ++ rest)%string /\ made_of timestamp_code m.
Proof.
  induction alt as [|k alt IH]; intros F s m rest H; cbn [match_alt] in H.
  - inversion H; subst. split; [reflexivity | constructor].
  - cbn [forallb] in F. apply andb_true_iff in F as [Fk Fa].
    destruct (next_char s) as [[[cp bytes] s']|] eqn:En; [|discriminate].
    destruct (cls_ok k cp) eqn:Ek; [|discriminate].
    destruct (match_alt alt s') as [[m' rest']|] eqn:Em; [|discriminate].
    inversion H; subst. destruct (IH Fa _ _ _ Em) as [-> Hm].
    destruct (next_char_sound _ _ _ _ En) as [-> _].
    split; [now rewrite append_assoc|].
    apply (made_of_char _ _ cp bytes m');
      [exact (next_char_self _ _ _ _ En _) | | assumption].
    exact (cls_fine_code k cp Fk Ek).
Qed.

(** What an expression of fine atoms reads is made of the characters a
    timestamp may hold. *)
Lemma re_match_made (p : list atom) :
  forallb atom_fine p = true ->
  forall (s : string) f tail,
  re_match p s = Some (f, tail) ->
  exists m, s = (m ++ tail)%string /\ made_of timestamp_code m.
Proof.
  induction p as [|a p IH]; intros F s f tail H.
  - cbn in H. inversion H; subst. exists ""%string. split; [reflexivity | constructor].
  - cbn [forallb] in F. apply andb_true_iff in F as [Fa Fp].
    destruct a as [l | d alts].
    + destruct s as [|x s]; [discriminate|].
      rewrite re_match_lit in H.
      destruct (eqb_ci x l) eqn:E; [|discriminate].
      destruct (IH Fp _ _ _ H) as (m & -> & Hm).
      destruct (lit_code x l Fa E) as [Hx Hc].
      exists (String x m). split; [reflexivity|].
      apply (made_of_char _ _ (byte x) (String x "") m);
        [now apply next_char_ascii | assumption | assumption].
    + rewrite re_match_group in H.
      apply first_alt_sound in H as (alt & m1 & rest & Hin & Hm & Hk).
      unfold found_cons in Hk.
      destruct (re_match p rest) as [[f' tail']|] eqn:Er; [|discriminate].
      inversion Hk; subst.
      destruct (IH Fp _ _ _ Er) as (m2 & -> & Hm2).
      cbn [atom_fine] in Fa. rewrite forallb_forall in Fa.
      destruct (match_alt_made alt (Fa alt Hin) _ _ _ Hm) as [-> Hm1].
      exists (m1 ++ m2)%string. split; [now rewrite append_assoc|].
      now apply made_of_app.
Qed.

(** X2.  A publish timestamp that [parse_iso_date] reads ends in "Z" or
    "z" and is made only of decimal digits (of any script), "-", ":",
    ".", "T" or "t", "Z" or "z" and blanks; a timestamp with an offset
    written with "+" is therefore never read. *)
Theorem parse_iso_date_needs_zulu (s : string) (t : datetime) :
  parse_iso_date (Some s) = inr t ->
  made_of timestamp_code s
  /\ exists body z, s = (body ++ String z "")%string
                    /\ (z = "Z"%char \/ z = "z"%char).
Proof.
  intros H. apply parse_iso_date_iff in H as (fmt & Hin & Hs).
  apply strptime_some in Hs as (p & found & Hp & Hr & _).
  assert (Hpat : (p = date_time_atoms ++ [Lit "."; Group df (regex_of df)] ++ [Lit "Z"]
                  \/ p = date_time_atoms ++ [Lit "Z"])).
  { destruct Hin as [<- | [<- | []]].
    - left. rewrite pattern_fractional in Hp. now inversion Hp.
    - right. rewrite pattern_plain in Hp. now inversion Hp. }
  split.
  - assert (F : forallb atom_fine p = true)
      by (destruct Hpat as [-> | ->]; vm_compute; reflexivity).
    destruct (re_match_made p F _ _ _ Hr) as (m & Hm & Hmade).
    rewrite append_nil_r in Hm. now subst m.
  - assert (Hz : exists body x, s = (body ++ String x "")%string
                                /\ eqb_ci x "Z" = true).
    { destruct Hpat as [-> | ->].
      - rewrite app_assoc in Hr. exact (re_match_last_lit _ _ _ _ _ Hr).
      - exact (re_match_last_lit _ _ _ _ _ Hr). }
    destruct Hz as (body & x & -> & Hx).
    exists body, x. split; [reflexivity | now apply eqb_ci_Z].
Qed.

Lemma parse_iso_date_needs_zulu_witness :
  made_of timestamp_code "2024-03-15T12:00:00Z"
  /\ exists body z, "2024-03-15T12:00:00Z" = (body ++ String z "")%string
                    /\ (z = "Z"%char \/ z = "z"%char).
Proof.
  apply (parse_iso_date_needs_zulu "2024-03-15T12:00:00Z"
           (mkdatetime 2024 3 15 12 0 0 0)).
  vm_compute. reflexivity.
Defined.

(** X3.  The order of the two formats in [parse_iso_date] does not
    matter: tried the other way round they give the same datetime or the
    same exception, because no text is read by both. *)
Theorem parse_iso_date_format_order (date_str : option string) :
  parse_with (rev formats) date_str = parse_iso_date date_str.
Proof.
  unfold parse_iso_date, formats. cbn [rev app parse_with].
  destruct date_str as [s|]; [|reflexivity].
  destruct (strptime (Some s) "%Y-%m-%dT%H:%M:%S.%fZ") as [e1|t1] eqn:E1;
  destruct (strptime (Some s) "%Y-%m-%dT%H:%M:%SZ") as [e2|t2] eqn:E2.
  - rewrite (strptime_error_class _ _ _ E1), (strptime_error_class _ _ _ E2).
    reflexivity.
  - rewrite (strptime_error_class _ _ _ E1). reflexivity.
  - rewrite (strptime_error_class _ _ _ E2). reflexivity.
  - exfalso. exact (formats_exclusive s t1 t2 E1 E2).
Qed.

End ParseFacts.

(* ================================================================== *)
(** * The resolver at its bounds, and wider windows *)

Section WindowExtras.
Import Calendar.

Lemma datetime_sub_days_range (now : datetime) (k : Z) :
  valid_datetime now = true ->
  match datetime_sub_days now k with
  | inr _ => 0 < toordinal now - k <= _MAXORDINAL
  | inl e => ~ (0 < toordinal now - k <= _MAXORDINAL)
             /\ e = Exn OverflowError "date value out of range"
  end.
Proof.
  intros Hv.
  pose proof (valid_datetime_fields now Hv) as (_ & Hh & Hm & Hs & Hu).
  unfold datetime_sub_days.
  rewrite (Z.div_small (microsecond now)) by lia.
  rewrite Z.add_0_r.
  rewrite (Z.div_small (hour now * 3600 + minute now * 60 + second now)) by lia.
  rewrite Z.add_0_r.
  destruct (Z.ltb_spec 0 (toordinal now - k));
  destruct (Z.leb_spec (toordinal now - k) _MAXORDINAL); cbn [andb].
  - destruct (_ord2ymd _) as [[y m] d]. cbn. lia.
  - split; [lia | reflexivity].
  - split; [lia | reflexivity].
  - split; [lia | reflexivity].
Qed.

Lemma isoformat_length (t : datetime) :
  valid_datetime t = true ->
  String.length (isoformat t ++ "Z")
  = if microsecond t =? 0 then 20%nat else 27%nat.
Proof.
  intros Hv. rewrite (isoformat_text t Hv). unfold date_time_text.
  repeat (rewrite append_length || rewrite digits_length
          || cbn [String.length]).
  destruct (microsecond t =? 0);
    repeat (rewrite append_length || rewrite digits_length
            || cbn [String.length]); lia.
Qed.

(** X4.  For a reading of the clock that is a datetime,
    [get_published_after] raises exactly when the reading lies within
    the window of the first day of year 1, and then it is the
    [OverflowError] of the subtraction; otherwise it returns a text of
    20 characters when the reading has no microseconds and of 27 when it
    has. *)
Theorem get_published_after_outcomes (now : datetime) (time_span : string) :
  valid_datetime now = true ->
  match get_published_after now time_span with
  | inl e =>
      toordinal now <= delta_days time_span
      /\ e = Exn OverflowError "date value out of range"
  | inr published_after =>
      delta_days time_span < toordinal now
      /\ String.length published_after
         = if microsecond now =? 0 then 20%nat else 27%nat
  end.
Proof.
  intros Hv.
  pose proof (toordinal_range now Hv) as Hr.
  pose proof (delta_days_cases time_span) as Hc.
  pose proof (datetime_sub_days_range now (delta_days time_span) Hv) as Hs.
  destruct (get_published_after now time_span) as [e|pa] eqn:E.
  - unfold get_published_after in E.
    destruct (datetime_sub_days now (delta_days time_span)) as [e'|t];
      [|discriminate].
    cbn [bind] in E. inversion E; subst. destruct Hs as [Hn ->].
    split; [lia | reflexivity].
  - destruct (get_published_after_inv now time_span pa Hv E)
      as (t & -> & Hvt & Hus & _).
    unfold get_published_after in E.
    destruct (datetime_sub_days now (delta_days time_span)) as [e'|t'];
      [discriminate|].
    split; [lia|]. rewrite <- Hus. now apply isoformat_length.
Qed.

Lemma get_published_after_outcomes_witness :
  match get_published_after (mkdatetime 1 2 1 0 0 0 0) "1 Month" with
  | inl e =>
      toordinal (mkdatetime 1 2 1 0 0 0 0) <= delta_days "1 Month"
      /\ e = Exn OverflowError "date value out of range"
  | inr published_after =>
      delta_days "1 Month" < toordinal (mkdatetime 1 2 1 0 0 0 0)
      /\ String.length published_after
         = if microsecond (mkdatetime 1 2 1 0 0 0 0) =? 0
           then 20%nat else 27%nat
  end.
Proof.
  apply (get_published_after_outcomes (mkdatetime 1 2 1 0 0 0 0) "1 Month").
  vm_compute. reflexivity.
Defined.

Lemma subsequence_refl {A} (l : list A) : subsequence l l.
Proof. induction l; constructor; assumption. Qed.

Lemma filter_subsequence_impl {A} (f g : A -> bool) (l : list A) :
  (forall x, In x l -> f x = true -> g x = true) ->
  subsequence (filter f l) (filter g l).
Proof.
  induction l as [|x l IH]; intros H; cbn [filter]; [constructor|].
  assert (IH' : subsequence (filter f l) (filter g l))
    by (apply IH; intros y Hy; apply H; now right).
  destruct (f x) eqn:Ef.
  - rewrite (H x (or_introl eq_refl) Ef). now constructor.
  - destruct (g x); [now constructor | assumption].
Qed.

Lemma recent_earlier_cutoff (c1 c2 : datetime) (item : video) :
  valid_datetime c1 = true -> valid_datetime c2 = true ->
  instant c2 <= instant c1 ->
  recent c1 item = true -> recent c2 item = true.
Proof.
  intros H1 H2 Hle. rewrite (recent_instant c1 item H1), (recent_instant c2 item H2).
  intros (t & Hp & Ht). exists t. split; [assumption | lia].
Qed.

(** The threshold an invocation compares with, read off the resolver. *)
Lemma threshold_of_window (now : datetime) (time_span : string) :
  valid_datetime now = true ->
  delta_days time_span < toordinal now ->
  exists thr,
    bind (get_published_after now time_span)
         (fun pa => parse_iso_date (Some pa)) = inr thr
    /\ valid_datetime thr = true
    /\ instant thr = instant now - delta_days time_span * microseconds_per_day.
Proof.
  intros Hv Hd.
  pose proof (toordinal_range now Hv) as Hr.
  pose proof (delta_days_cases time_span) as Hc.
  destruct (datetime_sub_days_spec now (delta_days time_span) Hv ltac:(lia))
    as (t & Hs & Hvt & Ho & Hh & Hm & Hsec & Hu).
  exists t. unfold get_published_after. rewrite Hs. cbn [bind ret].
  split; [now apply parse_isoformat|]. split; [assumption|].
  now apply instant_sub_days.
Qed.

(** X5.  A longer time span never shows fewer videos: of the records
    fetched, those kept under "1 Week" are among those kept under
    "1 Month", and these among those kept under "6 Months", in the same
    order. *)
Theorem longer_window_keeps_more (now : datetime) (items : list video) :
  valid_datetime now = true ->
  180 < toordinal now ->
  exists week month half_year,
    bind (get_published_after now "1 Week")
         (fun pa => parse_iso_date (Some pa)) = inr week
    /\ bind (get_published_after now "1 Month")
            (fun pa => parse_iso_date (Some pa)) = inr month
    /\ bind (get_published_after now "6 Months")
            (fun pa => parse_iso_date (Some pa)) = inr half_year
    /\ subsequence (recency_filter items week) (recency_filter items month)
    /\ subsequence (recency_filter items month)
                   (recency_filter items half_year).
Proof.
  intros Hv Hd.
  destruct (threshold_of_window now "1 Week" Hv) as (w & Ew & Vw & Iw);
    [change (delta_days "1 Week") with 7; lia|].
  destruct (threshold_of_window now "1 Month" Hv) as (m & Em & Vm & Im);
    [change (delta_days "1 Month") with 30; lia|].
  destruct (threshold_of_window now "6 Months" Hv) as (h & Eh & Vh & Ih);
    [change (delta_days "6 Months") with 180; lia|].
  exists w, m, h. repeat (split; [assumption|]).
  change (delta_days "1 Week") with 7 in Iw.
  change (delta_days "1 Month") with 30 in Im.
  change (delta_days "6 Months") with 180 in Ih.
  unfold microseconds_per_day in *.
  rewrite !recency_filter_filter. split.
  - apply filter_subsequence_impl. intros x _.
    apply recent_earlier_cutoff; [assumption | assumption | lia].
  - apply filter_subsequence_impl. intros x _.
    apply recent_earlier_cutoff; [assumption | assumption | lia].
Qed.

Lemma longer_window_keeps_more_witness :
  exists week month half_year,
    bind (get_published_after clock_2024_03_15 "1 Week")
         (fun pa => parse_iso_date (Some pa)) = inr week
    /\ bind (get_published_after clock_2024_03_15 "1 Month")
            (fun pa => parse_iso_date (Some pa)) = inr month
    /\ bind (get_published_after clock_2024_03_15 "6 Months")
            (fun pa => parse_iso_date (Some pa)) = inr half_year
    /\ subsequence (recency_filter [recent_video; untitled_video] week)
                   (recency_filter [recent_video; untitled_video] month)
    /\ subsequence (recency_filter [recent_video; untitled_video] month)
                   (recency_filter [recent_video; untitled_video] half_year).
Proof.
  apply (longer_window_keeps_more clock_2024_03_15
           [recent_video; untitled_video]); vm_compute; reflexivity.
Defined.

Lemma filter_idempotent {A} (f : A -> bool) (l : list A) :
  filter f (filter f l) = filter f l.
Proof.
  induction l as [|x l IH]; [reflexivity|]. cbn [filter].
  destruct (f x) eqn:E; [|assumption]. cbn [filter]. now rewrite E, IH.
Qed.

(** X6.  The recency filter works record by record: over two lists put
    together it gives the two results put together, filtering its own
    result again with the same cutoff changes nothing, and it never
    returns more records than it was given. *)
Theorem recency_filter_composes (first_part second_part : list video)
    (cutoff : datetime) :
  recency_filter (first_part ++ second_part) cutoff
  = recency_filter first_part cutoff ++ recency_filter second_part cutoff
  /\ recency_filter (recency_filter first_part cutoff) cutoff
     = recency_filter first_part cutoff
  /\ (List.length (recency_filter first_part cutoff)
      <= List.length first_part)%nat.
Proof.
  rewrite !recency_filter_filter. split; [apply filter_app|].
  split; [apply filter_idempotent | apply filter_length_le].
Qed.

End WindowExtras.

(* ================================================================== *)
(** * The dictionaries of the aggregator and what a report holds *)

Section AggregateExtras.

Lemma in_category_inv (k : string) (item : video) :
  in_category k item = true ->
  counted item = true /\ categoryId (snippet item) = Some k
  /\ exists t, title (snippet item) = Some t.
Proof.
  unfold in_category. intros H. apply andb_true_iff in H as [Hc Hk].
  split; [assumption|].
  destruct (categoryId (snippet item)) as [c|]; [|discriminate].
  apply String.eqb_eq in Hk. subst c. split; [reflexivity|].
  unfold counted in Hc. apply andb_true_iff in Hc as [_ Ht].
  destruct (title (snippet item)) as [t|]; [eauto | discriminate].
Qed.

Lemma category_titles_in (k x : string) (items : list video) :
  In x (category_titles k items) <->
  exists item, In item items /\ in_category k item = true
               /\ title (snippet item) = Some x.
Proof.
  induction items as [|y items IH]; cbn [category_titles In].
  - split; [contradiction | intros (i & [] & _)].
  - destruct (in_category k y) eqn:E.
    + destruct (in_category_inv k y E) as (_ & _ & t & Ht). rewrite Ht.
      cbn [In]. rewrite IH. split.
      * intros [<- | (i & Hi & Hc & Hx)]; [exists y; auto | exists i; auto].
      * intros (i & [<- | Hi] & Hc & Hx).
        -- left. congruence.
        -- right. exists i. auto.
    + rewrite IH. split.
      * intros (i & Hi & Hc & Hx). exists i. auto.
      * intros (i & [<- | Hi] & Hc & Hx); [congruence | exists i; auto].
Qed.

Lemma first_seen_some (k : string) (items : list video) :
  first_seen k items <> None <->
  exists item, In item items /\ in_category k item = true.
Proof.
  induction items as [|y items IH]; cbn [first_seen In].
  - split; [congruence | intros (i & [] & _)].
  - destruct (in_category k y) eqn:E.
    + split; [intros _; exists y; auto | discriminate].
    + destruct (first_seen k items) as [a|]; cbn [option_map].
      * split; [|discriminate]. intros _.
        destruct (proj1 IH ltac:(discriminate)) as (i & Hi & Hc).
        exists i. auto.
      * split; [congruence|]. intros (i & [<- | Hi] & Hc); [congruence|].
        exfalso. apply (proj2 IH); [exists i; auto | reflexivity].
Qed.

Lemma category_titles_nonempty (k : string) (items : list video) :
  first_seen k items <> None -> category_titles k items <> [].
Proof.
  intros H. apply first_seen_some in H as (i & Hi & Hc).
  destruct (in_category_inv k i Hc) as (_ & _ & t & Ht).
  assert (In t (category_titles k items))
    by (apply category_titles_in; exists i; auto).
  intros E. rewrite E in *. contradiction.
Qed.

(** X7.  After any list of records the aggregator's two dictionaries have
    the same keys, each once; a category id is a key exactly when some
    record with that id has both a category id and a title, not empty;
    the title list of a category holds the titles of those records in the
    order they were met, and its count is their number, never zero. *)
Theorem aggregate_dictionaries (filtered_items : list video) :
  let '(category_counter, category_videos) := aggregate filtered_items in
  keys category_counter = keys category_videos
  /\ NoDup (keys category_counter)
  /\ (forall k, In k (keys category_counter) <->
                exists item, In item filtered_items
                             /\ in_category k item = true)
  /\ (forall k, dict_get_default category_videos k []
                = category_titles k filtered_items)
  /\ (forall k n, In (k, n) category_counter ->
                  n = List.length (category_titles k filtered_items)
                  /\ (1 <= n)%nat).
Proof.
  pose proof (aggregate_invariant filtered_items) as Inv.
  destruct (aggregate filtered_items) as [counter vids].
  destruct Inv as (K & ND & CNT & TIT & _ & SEEN & _).
  split; [assumption|]. split; [assumption|].
  split; [intros k; rewrite SEEN; apply first_seen_some|].
  split; [assumption|].
  intros k n Hin.
  assert (Hk : In k (keys counter))
    by (change k with (fst (k, n)); now apply in_map).
  apply (dict_in_get _ _ _ ND) in Hin.
  assert (Hn : n = List.length (category_titles k filtered_items))
    by (rewrite <- CNT; unfold dict_get_default; now rewrite Hin).
  split; [assumption|].
  apply SEEN, category_titles_nonempty in Hk.
  destruct (category_titles k filtered_items); [contradiction | cbn in Hn; lia].
Qed.

Lemma selected_titles_nonempty (filtered_items : list video)
    (cid : string) (count : nat) :
  In (cid, count) (most_common 10 (fst (aggregate filtered_items))) ->
  dict_get_default (snd (aggregate filtered_items)) cid [] <> [].
Proof.
  intros H.
  destruct (selected_count_titles filtered_items cid count H) as [Hc Ht].
  pose proof (aggregate_invariant filtered_items) as Inv.
  destruct (aggregate filtered_items) as [counter vids].
  destruct Inv as (_ & _ & _ & _ & _ & SEEN & _). cbn [fst snd] in *.
  rewrite Ht. apply category_titles_nonempty, SEEN.
  apply most_common_in in H.
  change cid with (fst (cid, count)). now apply in_map.
Qed.

(** X8.  No report has a topic without titles: in every report every
    topic lists at least one video title, so the title section of a
    topic is never left out by [main]. *)
Theorem report_topics_have_titles (youtube : client) (utcnow : datetime)
    (time_span region : string) :
  match returned (get_trending_topics youtube utcnow time_span region) with
  | inr topics => Forall (fun t => videos t <> []) topics
  | inl _ => True
  end.
Proof.
  run_cases; try exact I; try (constructor; fail).
  match goal with
  | E : aggregate ?f = (?c, ?v) |- _ =>
      pose proof (selected_titles_nonempty f) as HS; rewrite E in HS;
      cbn [fst snd] in HS
  end.
  rewrite build_topics_map. apply Forall_forall. intros t Ht.
  apply in_map_iff in Ht as ([cid count] & <- & Hin).
  cbn [make_topic videos]. exact (HS cid count Hin).
Qed.

Lemma sum_counts_app (a b : dict nat) :
  sum_counts (a ++ b) = (sum_counts a + sum_counts b)%nat.
Proof.
  unfold sum_counts. induction a as [|x a IH]; cbn [app fold_right]; lia.
Qed.

Lemma sum_counts_insert (x : string * nat) (s : list (string * nat)) :
  sum_counts (insert_by_count x s) = (snd x + sum_counts s)%nat.
Proof.
  unfold sum_counts.
  induction s as [|y s IH]; cbn [insert_by_count fold_right]; [reflexivity|].
  destruct (snd x <? snd y)%nat; cbn [fold_right]; lia.
Qed.

Lemma sum_counts_sorted (l : list (string * nat)) :
  sum_counts (sorted_by_count_desc l) = sum_counts l.
Proof.
  induction l as [|x l IH]; [reflexivity|].
  cbn [sorted_by_count_desc fold_right].
  fold (sorted_by_count_desc l). rewrite sum_counts_insert, IH. reflexivity.
Qed.

Lemma report_titles_length (top : list (string * nat)) (mapping : dict string)
    (vids : dict (list string)) :
  (forall cid count, In (cid, count) top ->
                     count = List.length (dict_get_default vids cid [])) ->
  List.length (report_titles (build_topics top mapping vids)) = sum_counts top.
Proof.
  rewrite build_topics_map. unfold report_titles, sum_counts.
  induction top as [|[cid count] top IH]; intros H; [reflexivity|].
  cbn [map flat_map fold_right snd make_topic videos].
  rewrite length_app, IH by (intros c n Hin; apply H; now right).
  rewrite <- (H cid count (or_introl eq_refl)). reflexivity.
Qed.

(** X9.  The only records the report loses are those of the categories
    beyond the tenth: the number of titles in the report, plus the counts
    of the categories after the first ten in the order of selection,
    is the number of records that were counted. *)
Theorem report_loses_only_beyond_ten (filtered_items : list video)
    (category_mapping : dict string) :
  let '(category_counter, category_videos) := aggregate filtered_items in
  (List.length
     (report_titles (build_topics (most_common 10 category_counter)
                                  category_mapping category_videos))
   + sum_counts (skipn 10 (sorted_by_count_desc category_counter))
   = List.length (filter counted filtered_items))%nat.
Proof.
  pose proof (selected_count_titles filtered_items) as HS.
  pose proof (aggregate_invariant filtered_items) as Inv.
  destruct (aggregate filtered_items) as [counter vids].
  destruct Inv as (_ & _ & _ & _ & SUM & _). cbn [fst snd] in HS.
  rewrite report_titles_length by (intros c n Hin; now apply HS).
  unfold most_common. rewrite <- sum_counts_app, firstn_skipn.
  now rewrite sum_counts_sorted.
Qed.

End AggregateExtras.

(* ================================================================== *)
(** * What the category lookup is asked *)

Section LookupExtras.

Lemma insert_by_count_keys (x : string * nat) (s : list (string * nat)) (k : string) :
  In k (map fst (insert_by_count x s)) <-> k = fst x \/ In k (map fst s).
Proof.
  rewrite !in_map_iff. split.
  - intros (e & <- & He). apply insert_by_count_in in He as [-> | He];
      [now left | right; exists e; auto].
  - intros [-> | (e & <- & He)].
    + exists x. split; [reflexivity|]. apply insert_by_count_in. now left.
    + exists e. split; [reflexivity|]. apply insert_by_count_in. now right.
Qed.

Lemma insert_by_count_nodup (x : string * nat) (s : list (string * nat)) :
  NoDup (fst x :: map fst s) -> NoDup (map fst (insert_by_count x s)).
Proof.
  induction s as [|y s IH]; intros H; cbn [insert_by_count]; [exact H|].
  destruct (snd x <? snd y)%nat; [|exact H].
  cbn [map] in *. inversion H as [|? ? Hx Hys]; subst.
  inversion Hys as [|? ? Hy Hs]; subst.
  constructor.
  - rewrite insert_by_count_keys. intros [E | Hin]; [|contradiction].
    apply Hx. left. congruence.
  - apply IH. constructor; [|assumption]. intros Hin. apply Hx. now right.
Qed.

Lemma sorted_by_count_desc_nodup (l : list (string * nat)) :
  NoDup (map fst l) -> NoDup (map fst (sorted_by_count_desc l)).
Proof.
  induction l as [|x l IH]; intros H; [constructor|].
  cbn [sorted_by_count_desc fold_right]. fold (sorted_by_count_desc l).
  cbn [map] in H. inversion H as [|? ? Hx Hl]; subst.
  apply insert_by_count_nodup. constructor; [|exact (IH Hl)].
  intros Hin. apply Hx.
  apply in_map_iff in Hin as (e & <- & He).
  apply in_map. exact (proj1 (sorted_by_count_desc_in e l) He).
Qed.

Lemma most_common_nodup (n : nat) (counter : dict nat) :
  NoDup (keys counter) -> NoDup (map fst (most_common n counter)).
Proof.
  intros H. unfold most_common.
  apply sorted_by_count_desc_nodup in H.
  rewrite <- (firstn_skipn n (sorted_by_count_desc counter)), map_app in H.
  exact (NoDup_app_remove_r _ _ H).
Qed.

Lemma dict_of_pairs_nodup {V} (pairs : list (string * V)) :
  NoDup (map fst pairs) -> dict_of_pairs pairs = pairs.
Proof.
  unfold dict_of_pairs.
  assert (G : forall acc,
            NoDup (keys acc ++ map fst pairs) ->
            fold_left (fun d kv => dict_set d (fst kv) (snd kv)) pairs acc
            = acc ++ pairs).
  { induction pairs as [|[k v] pairs IH]; intros acc H; cbn [fold_left].
    - now rewrite app_nil_r.
    - cbn [map fst snd] in *.
      assert (Hk : ~ In k (keys acc)).
      { intros Hin. apply NoDup_remove_2 in H. apply H.
        apply in_or_app. now left. }
      assert (Hs : dict_set acc k v = acc ++ [(k, v)]).
      { clear -Hk. induction acc as [|[k' v'] acc IHa]; [reflexivity|].
        cbn [dict_set]. cbn in Hk.
        destruct (String.eqb_spec k' k) as [->|N]; [tauto|].
        cbn [app]. f_equal. apply IHa. tauto. }
      rewrite Hs, IH.
      + now rewrite <- app_assoc.
      + unfold keys. rewrite map_app. cbn [map fst].
        rewrite <- app_assoc. exact H. }
  intros H. apply (G []). exact H.
Qed.

Lemma selected_facts (items : list video) (thr : datetime)
    (top : list (string * nat)) (vids : dict (list string)) :
  selected items thr = (top, vids) ->
  NoDup (map fst top) /\ (List.length top <= 10)%nat
  /\ keys (dict_of_pairs top) = map fst top.
Proof.
  unfold selected. intros Es.
  pose proof (aggregate_invariant (recency_filter items thr)) as Inv.
  destruct (aggregate (recency_filter items thr)) as [c v].
  destruct Inv as (_ & ND & _). inversion Es; subst.
  assert (N : NoDup (map fst (most_common 10 c))) by now apply most_common_nodup.
  split; [assumption|]. split; [apply firstn_le_length|].
  now rewrite (dict_of_pairs_nodup _ N).
Qed.

(** X10.  When the category lookup is called, it is asked once for the
    category ids of the selected entries, in the order of the report,
    joined by commas: at least one id, at most ten, and no id twice. *)
Theorem lookup_request (youtube : client) (now : datetime)
    (time_span region id : string) (answer : raises (response category)) :
  valid_datetime now = true ->
  In (Called_categories id answer)
     (trace (get_trending_topics youtube now time_span region)) ->
  exists trending_response threshold_date top_categories category_videos,
    In (Called_videos (if String.eqb region "Brazil" then "BR" else "US") 50
                      (inr trending_response))
       (trace (get_trending_topics youtube now time_span region))
    /\ selected (get_items trending_response) threshold_date
       = (top_categories, category_videos)
    /\ id = join "," (map fst top_categories)
    /\ answer = videoCategories_list youtube id
    /\ NoDup (map fst top_categories)
    /\ (1 <= List.length top_categories <= 10)%nat.
Proof.
  intros Hv Hin.
  assert (G : forall resp thr top vids,
            selected (get_items resp) thr = (top, vids) -> top <> [] ->
            id = join "," (keys (dict_of_pairs top)) ->
            answer = videoCategories_list youtube id ->
            In (Called_videos (if String.eqb region "Brazil" then "BR" else "US")
                              50 (inr resp))
               (trace (get_trending_topics youtube now time_span region)) ->
            exists trending_response threshold_date top_categories category_videos,
              In (Called_videos (if String.eqb region "Brazil" then "BR" else "US")
                                50 (inr trending_response))
                 (trace (get_trending_topics youtube now time_span region))
              /\ selected (get_items trending_response) threshold_date
                 = (top_categories, category_videos)
              /\ id = join "," (map fst top_categories)
              /\ answer = videoCategories_list youtube id
              /\ NoDup (map fst top_categories)
              /\ (1 <= List.length top_categories <= 10)%nat).
  { intros resp thr top vids Es Hne Hid Ha Hcall.
    destruct (selected_facts _ _ _ _ Es) as (ND & Hlen & Hk).
    exists resp, thr, top, vids.
    split; [assumption|]. split; [assumption|].
    split; [now rewrite <- Hk|]. split; [assumption|].
    split; [assumption|].
    split; [|assumption]. destruct top; [contradiction | cbn; lia]. }
  destruct (run_structure youtube now time_span region Hv)
    as [(e & _ & E) | (thr & _ & _ & _ & [(e & _ & E) |
         (resp & top & vids & Er & Es &
          [(_ & msg & E) | (Hne & [(e & Ee & E) | (cresp & Ec & E)])])])];
    rewrite E in Hin; cbn [trace In] in Hin;
    repeat match type of Hin with
           | _ \/ _ => destruct Hin as [Hin | Hin]
           | False => contradiction
           end;
    try discriminate;
    inversion Hin; subst id answer; clear Hin;
    apply (G resp thr top vids Es Hne eq_refl);
    [ now rewrite ?Ee, ?Ec | rewrite E; cbn [trace In]; left; reflexivity
    | now rewrite ?Ee, ?Ec | rewrite E; cbn [trace In]; left; reflexivity ].
Qed.

Lemma lookup_request_witness :
  exists trending_response threshold_date top_categories category_videos,
    In (Called_videos "US" 50 (inr trending_response))
       (trace (get_trending_topics silent_lookup clock_2024_03_15
                                   "1 Week" "World"))
    /\ selected (get_items trending_response) threshold_date
       = (top_categories, category_videos)
    /\ "10" = join "," (map fst top_categories)
    /\ inr (mkresponse (Some [mkcategory "24" "Entertainment"]))
       = videoCategories_list silent_lookup "10"
    /\ NoDup (map fst top_categories)
    /\ (1 <= List.length top_categories <= 10)%nat.
Proof.
  apply (lookup_request silent_lookup clock_2024_03_15 "1 Week" "World" "10"
           (inr (mkresponse (Some [mkcategory "24" "Entertainment"])))).
  - vm_compute. reflexivity.
  - vm_compute. right. left. reflexivity.
Defined.

End LookupExtras.

(* ================================================================== *)
(** * The order of events, and the names of categories *)

Section DisciplineExtras.

Lemma build_topics_nonempty (top : list (string * nat)) (mapping : dict string)
    (vids : dict (list string)) :
  top <> [] -> build_topics top mapping vids <> [].
Proof.
  rewrite build_topics_map. destruct top; [contradiction | discriminate].
Qed.

Lemma get_published_after_error (now : datetime) (time_span : string) (e : exn) :
  valid_datetime now = true ->
  get_published_after now time_span = inl e ->
  e = Exn OverflowError "date value out of range".
Proof.
  intros Hv H. unfold get_published_after in H.
  pose proof (datetime_sub_days_range now (delta_days time_span) Hv) as Hs.
  destruct (datetime_sub_days now (delta_days time_span)) as [e'|t];
    [|discriminate].
  cbn [bind] in H. inversion H; subst. now destruct Hs.
Qed.

(** X11.  The order of events in an invocation, for a reading of the
    clock that is a datetime.  If the resolver raises, its exception
    leaves the invocation and nothing has been called or written.  If
    the invocation returns a report, the first event is the one listing
    call, for region code "BR" when the region is "Brazil" and "US" for
    any other, asking for 50 results; at most two events follow, none of
    them a listing call; and exactly one message is written when the
    report is empty, none when it is not. *)
Theorem invocation_discipline (youtube : client) (now : datetime)
    (time_span region : string) :
  valid_datetime now = true ->
  let run := get_trending_topics youtube now time_span region in
  let regionCode := if String.eqb region "Brazil" then "BR" else "US" in
  (forall e, get_published_after now time_span = inl e ->
             run = mkoutcome (inl e) [])
  /\ (forall topics,
        returned run = inr topics ->
        exists later,
          trace run
          = Called_videos regionCode 50 (videos_list youtube regionCode 50)
            :: later
          /\ (List.length later <= 2)%nat
          /\ Forall (fun ev => match ev with
                               | Called_videos _ _ _ => False
                               | _ => True
                               end) later
          /\ List.length (filter is_message (trace run))
             = match topics with [] => 1%nat | _ :: _ => 0%nat end).
Proof.
  intros Hv. cbv zeta.
  destruct (run_structure youtube now time_span region Hv)
    as [(e & Ee & E) | (thr & Ht & _ & _ & [(e & Ee & E) |
         (resp & top & vids & Er & Es &
          [(_ & msg & E) | (Hne & [(e & Ee & E) | (cresp & Ec & E)])])])];
    rewrite E; cbn [returned trace];
    (split;
     [ intros e' He'
     | intros topics Hret; try discriminate; inversion Hret; subst topics ]);
    try (rewrite He' in Ht; discriminate).
  - congruence.
  - rewrite Ee. eexists. split; [reflexivity|].
    split; [cbn; lia|]. split; [repeat constructor|]. reflexivity.
  - rewrite Er. eexists. split; [reflexivity|].
    split; [cbn; lia|]. split; [repeat constructor|]. reflexivity.
  - rewrite Er. eexists. split; [reflexivity|].
    split; [cbn; lia|]. split; [repeat constructor|]. reflexivity.
  - rewrite Er. eexists. split; [reflexivity|].
    split; [cbn; lia|]. split; [repeat constructor|].
    pose proof (build_topics_nonempty top (build_mapping cresp) vids Hne) as Hb.
    destruct (build_topics top (build_mapping cresp) vids);
      [contradiction | reflexivity].
Qed.

Lemma invocation_discipline_witness :
  (forall e, get_published_after clock_2024_03_15 "1 Week" = inl e ->
             get_trending_topics two_names_lookup clock_2024_03_15
                                 "1 Week" "World"
             = mkoutcome (inl e) [])
  /\ (forall topics,
        returned (get_trending_topics two_names_lookup clock_2024_03_15
                                      "1 Week" "World") = inr topics ->
        exists later,
          trace (get_trending_topics two_names_lookup clock_2024_03_15
                                     "1 Week" "World")
          = Called_videos "US" 50 (videos_list two_names_lookup "US" 50)
            :: later
          /\ (List.length later <= 2)%nat
          /\ Forall (fun ev => match ev with
                               | Called_videos _ _ _ => False
                               | _ => True
                               end) later
          /\ List.length (filter is_message
               (trace (get_trending_topics two_names_lookup clock_2024_03_15
                                           "1 Week" "World")))
             = match topics with [] => 1%nat | _ :: _ => 0%nat end).
Proof.
  apply (invocation_discipline two_names_lookup clock_2024_03_15
           "1 Week" "World").
  vm_compute. reflexivity.
Defined.

Lemma selected_empty_iff (items : list video) (thr : datetime)
    (top : list (string * nat)) (vids : dict (list string)) :
  selected items thr = (top, vids) ->
  (top <> [] <->
   exists item, In item items /\ recent thr item = true
                /\ counted item = true).
Proof.
  unfold selected. intros Es.
  pose proof (aggregate_invariant (recency_filter items thr)) as Inv.
  destruct (aggregate (recency_filter items thr)) as [c v].
  destruct Inv as (_ & _ & _ & _ & _ & SEEN & _). inversion Es; subst.
  split.
  - intros Hne. destruct c as [|[k n] c]; [now contradiction Hne|].
    destruct (proj1 (first_seen_some k _)
                    (proj1 (SEEN k) (or_introl eq_refl)))
      as (item & Hin & Hc).
    rewrite recency_filter_filter in Hin. apply filter_In in Hin as [Hi Hr].
    exists item. split; [assumption|]. split; [assumption|].
    now destruct (in_category_inv k item Hc).
  - intros (item & Hi & Hr & Hc).
    assert (Hcat : exists k, in_category k item = true).
    { unfold in_category. rewrite Hc. unfold counted in Hc.
      apply andb_true_iff in Hc as [Hk _].
      destruct (categoryId (snippet item)) as [k|]; [|discriminate].
      exists k. cbn. apply String.eqb_refl. }
    destruct Hcat as (k & Hk).
    assert (Hkey : In k (keys c)).
    { apply SEEN, first_seen_some. exists item.
      split; [|assumption]. rewrite recency_filter_filter.
      apply filter_In. auto. }
    destruct c as [|x c]; [contradiction|]. apply most_common_nonempty.
Qed.

(** X12.  In an invocation that returns, after the listing has
    answered, the category lookup is called exactly when some listed
    record has a category id and a title, both not empty, and a publish
    timestamp that reads under "%Y-%m-%dT%H:%M:%S.%fZ" or
    "%Y-%m-%dT%H:%M:%SZ" as an instant no earlier than the reading of
    the clock less the window; if there is none, the second remote call
    is not made. *)
Theorem lookup_called_iff (youtube : client) (now : datetime)
    (time_span region : string) (trending_response : response video)
    (topics : list topic_t) :
  valid_datetime now = true ->
  returned (get_trending_topics youtube now time_span region) = inr topics ->
  In (Called_videos (if String.eqb region "Brazil" then "BR" else "US") 50
                    (inr trending_response))
     (trace (get_trending_topics youtube now time_span region)) ->
  (exists id answer,
     In (Called_categories id answer)
        (trace (get_trending_topics youtube now time_span region)))
  <-> exists item published,
        In item (get_items trending_response)
        /\ reads_as (publishedAt (snippet item)) published
        /\ instant now - delta_days time_span * microseconds_per_day
           <= instant published
        /\ counted item = true.
Proof.
  intros Hv Hret Hin.
  assert (Hrec : forall thr item,
            valid_datetime thr = true ->
            instant thr
            = instant now - delta_days time_span * microseconds_per_day ->
            ((exists published,
                reads_as (publishedAt (snippet item)) published
                /\ instant now - delta_days time_span * microseconds_per_day
                   <= instant published)
             <-> recent thr item = true)).
  { intros thr item Hvt Hi.
    rewrite (recent_published_since thr item Hvt), published_since_iff, Hi.
    reflexivity. }
  destruct (run_structure youtube now time_span region Hv)
    as [(e & _ & E) | (thr & Ht & Hvt & Hi & [(e & _ & E) |
         (resp & top & vids & Er & Es & Hcourse)])].
  { rewrite E in Hin. contradiction. }
  { rewrite E in Hin. cbn [trace In] in Hin.
    destruct Hin as [Hin | [Hin | []]]; discriminate. }
  assert (Hsel : top <> [] <->
                 exists item published,
                   In item (get_items resp)
                   /\ reads_as (publishedAt (snippet item)) published
                   /\ instant now - delta_days time_span * microseconds_per_day
                      <= instant published
                   /\ counted item = true).
  { rewrite (selected_empty_iff _ _ _ _ Es). split.
    - intros (item & Hitem & Hr & Hc).
      apply (Hrec thr item Hvt Hi) in Hr as (p & Hp & Hle).
      exists item, p. auto.
    - intros (item & p & Hitem & Hp & Hle & Hc).
      exists item. split; [assumption|]. split; [|assumption].
      apply (Hrec thr item Hvt Hi). exists p. auto. }
  assert (Hresp : resp = trending_response).
  { destruct Hcourse as [(_ & msg & E) | (_ & [(e & _ & E) | (cresp & _ & E)])];
      rewrite E in Hin; cbn [trace In] in Hin;
      repeat match type of Hin with
             | _ \/ _ => destruct Hin as [Hin | Hin]
             | False => contradiction
             end;
      try discriminate; now inversion Hin. }
  rewrite <- Hresp, <- Hsel.
  destruct Hcourse as [(Hnil & msg & E) | (Hne & [(e & Ee & E) | (cresp & Ec & E)])];
    rewrite E.
  - split; [|intros H; now contradiction H].
    intros (id & a & H). cbn [trace In] in H.
    destruct H as [H | [H | []]]; discriminate.
  - split; [intros _; assumption|]. intros _.
    eexists _, _. cbn [trace In]. right. left. reflexivity.
  - split; [intros _; assumption|]. intros _.
    eexists _, _. cbn [trace In]. right. left. reflexivity.
Qed.

Lemma lookup_called_iff_witness :
  (exists id answer,
     In (Called_categories id answer)
        (trace (get_trending_topics two_names_lookup clock_2024_03_15
                                    "1 Week" "World")))
  <-> exists item published,
        In item (get_items (mkresponse (Some [recent_video; untitled_video])))
        /\ reads_as (publishedAt (snippet item)) published
        /\ instant clock_2024_03_15
           - delta_days "1 Week" * microseconds_per_day
           <= instant published
        /\ counted item = true.
Proof.
  apply (lookup_called_iff two_names_lookup clock_2024_03_15 "1 Week" "World"
           (mkresponse (Some [recent_video; untitled_video]))
           [mktopic "Musique"
              "There are 1 popular videos trending in the 'Musique' category during this period."
              ["A"]]).
  - vm_compute. reflexivity.
  - vm_compute. reflexivity.
  - vm_compute. left. reflexivity.
Defined.

Lemma build_mapping_fold (l : list category) :
  forall (acc : dict string) (k : string),
  dict_get (fold_left (fun m item => dict_set m (cat_id item) (cat_title item))
                      l acc) k
  = match last_title k l with
    | Some t => Some t
    | None => dict_get acc k
    end.
Proof.
  induction l as [|c l IH]; intros acc k; cbn [fold_left last_title].
  - reflexivity.
  - rewrite IH. destruct (last_title k l); [reflexivity|].
    destruct (String.eqb_spec (cat_id c) k) as [<-|N].
    + apply dict_get_set_same.
    + now apply dict_get_set_other.
Qed.

(** X13.  The name shown for a category is the title of the last
    category of the lookup's answer that has its id, whatever stands
    before it, and "Unknown" when the answer has none. *)
Theorem category_name_is_last_title (categories_response : response category)
    (category_videos : dict (list string)) (cat_id_ : string) (count : nat) :
  topic (make_topic (build_mapping categories_response) category_videos
                    (cat_id_, count))
  = match last_title cat_id_ (get_items categories_response) with
    | Some t => t
    | None => "Unknown"
    end.
Proof.
  cbn [make_topic topic]. unfold dict_get_default, build_mapping.
  rewrite build_mapping_fold. cbn [dict_get].
  destruct (last_title cat_id_ (get_items categories_response)); reflexivity.
Qed.

End DisciplineExtras.

(* ================================================================== *)
(** * Where the titles of a report come from *)

Section ProvenanceExtras.

(** X14.  Every title in a report is the title of a record the listing
    returned, one with a category id and a title, whose publish
    timestamp parses under an accepted format to an instant no earlier
    than the reading of the clock less the window; and the titles of one
    topic all come from records of one category. *)
Theorem report_titles_are_recent (youtube : client) (now : datetime)
    (time_span region : string) (topics : list topic_t) :
  valid_datetime now = true ->
  returned (get_trending_topics youtube now time_span region) = inr topics ->
  forall t, In t topics ->
  exists trending_response cid,
    In (Called_videos (if String.eqb region "Brazil" then "BR" else "US") 50
                      (inr trending_response))
       (trace (get_trending_topics youtube now time_span region))
    /\ forall x, In x (videos t) ->
       exists item published,
         In item (get_items trending_response)
         /\ title (snippet item) = Some x
         /\ categoryId (snippet item) = Some cid
         /\ parses_to (publishedAt (snippet item)) published
         /\ instant now - delta_days time_span * microseconds_per_day
            <= instant published.
Proof.
  intros Hv Hret t Ht.
  destruct (run_structure youtube now time_span region Hv)
    as [(e & _ & E) | (thr & _ & Hvt & Hi & [(e & _ & E) |
         (resp & top & vids & Er & Es &
          [(_ & msg & E) | (Hne & [(e & Ee & E) | (cresp & Ec & E)])])])];
    rewrite E in Hret |- *; cbn [returned] in Hret;
    inversion Hret; subst topics; try contradiction.
  rewrite build_topics_map in Ht.
  apply in_map_iff in Ht as ([cid count] & <- & Hin).
  exists resp, cid. split; [cbn [trace In]; left; reflexivity|].
  intros x Hx. cbn [make_topic videos] in Hx.
  unfold selected in Es.
  pose proof (selected_count_titles (recency_filter (get_items resp) thr)
                                    cid count) as HS.
  destruct (aggregate (recency_filter (get_items resp) thr)) as [c v].
  inversion Es; subst top vids. cbn [fst snd] in HS.
  destruct (HS Hin) as [_ Htit]. rewrite Htit in Hx.
  apply category_titles_in in Hx as (item & Hitem & Hcat & Htitle).
  rewrite recency_filter_filter in Hitem. apply filter_In in Hitem as [Hi1 Hr].
  apply (recent_instant thr item Hvt) in Hr as (p & Hp & Hle).
  destruct (in_category_inv cid item Hcat) as (_ & Hcid & _).
  exists item, p. rewrite <- Hi. auto.
Qed.

Lemma report_titles_are_recent_witness :
  exists trending_response cid,
    In (Called_videos "US" 50 (inr trending_response))
       (trace (get_trending_topics two_names_lookup clock_2024_03_15
                                   "1 Week" "World"))
    /\ forall x, In x ["A"] ->
       exists item published,
         In item (get_items trending_response)
         /\ title (snippet item) = Some x
         /\ categoryId (snippet item) = Some cid
         /\ parses_to (publishedAt (snippet item)) published
         /\ instant clock_2024_03_15
            - delta_days "1 Week" * microseconds_per_day
            <= instant published.
Proof.
  apply (report_titles_are_recent two_names_lookup clock_2024_03_15
           "1 Week" "World"
           [mktopic "Musique" (make_comment 1 "Musique") ["A"]]
           eq_refl eq_refl
           (mktopic "Musique" (make_comment 1 "Musique") ["A"])).
  left. reflexivity.
Defined.

End ProvenanceExtras.

(* ================================================================== *)
(** * The page of [main]: rendering *)

Section PageExtras.

Lemma run_topics_facts (youtube : client) (utcnow : datetime)
    (time_span region : string) :
  match returned (get_trending_topics youtube utcnow time_span region) with
  | inl e => trace (get_trending_topics youtube utcnow time_span region) = []
  | inr topics =>
      (List.length topics <= 10)%nat
      /\ Forall (fun t => videos t <> []
                          /\ exists n, comment t = make_comment n (topic t))
                topics
      /\ (topics = [] <->
          exists e,
            In e (trace (get_trending_topics youtube utcnow time_span region))
            /\ is_message e = true)
  end.
Proof.
  run_cases;
    try reflexivity;
    try (split; [cbn; lia|]; split; [constructor|];
         split; [intros _; eexists; split; [cbn [In]; right; left; reflexivity
                                           | reflexivity]
                | reflexivity]);
    try (split; [cbn; lia|]; split; [constructor|];
         split; [intros _; eexists; split; [cbn [In]; right; right; left; reflexivity
                                           | reflexivity]
                | reflexivity]).
  match goal with
  | E : aggregate ?f = (?c, ?v) |- _ =>
      pose proof (selected_titles_nonempty f) as HS; rewrite E in HS;
      cbn [fst snd] in HS
  end.
  rewrite build_topics_map.
  split; [rewrite length_map; apply firstn_le_length|].
  split.
  - apply Forall_forall. intros t Ht.
    apply in_map_iff in Ht as ([cid count] & <- & Hin).
    cbn [make_topic videos comment topic].
    split; [exact (HS cid count Hin) | eexists; reflexivity].
  - split.
    + intros E. exfalso.
      apply (most_common_nonempty 9 p category_counter).
      destruct (most_common 10 (p :: category_counter)); [reflexivity | discriminate].
    + intros (e & [He | [He | []]] & Hm); subst e; discriminate.
Qed.

Lemma bullets_fold (l : list string) (acc : list ui) :
  fold_left (fun out title => out ++ [Markdown ("- " ++ title)%string]) l acc
  = acc ++ map (fun title => Markdown ("- " ++ title)%string) l.
Proof.
  revert acc. induction l as [|x l IH]; intros acc; cbn [fold_left map].
  - now rewrite app_nil_r.
  - rewrite IH, <- app_assoc. reflexivity.
Qed.

Lemma render_topic_block (acc : list ui) (numbered : Z * topic_t) :
  render_topic acc numbered = acc ++ topic_block numbered.
Proof. destruct numbered as [i t]. reflexivity. Qed.

Lemma render_fold (l : list (Z * topic_t)) (acc : list ui) :
  fold_left render_topic l acc = acc ++ flat_map topic_block l.
Proof.
  revert acc. induction l as [|x l IH]; intros acc; cbn [fold_left flat_map].
  - now rewrite app_nil_r.
  - rewrite IH, render_topic_block, <- app_assoc. reflexivity.
Qed.

Lemma markdowns_app (a b : list ui) :
  markdowns (a ++ b) = markdowns a ++ markdowns b.
Proof.
  induction a as [|x a IH]; [reflexivity|].
  destruct x; cbn [app markdowns]; rewrite IH; reflexivity.
Qed.

Lemma subheadings_app (a b : list ui) :
  subheadings (a ++ b) = subheadings a ++ subheadings b.
Proof.
  induction a as [|x a IH]; [reflexivity|].
  destruct x; cbn [app subheadings]; rewrite IH; reflexivity.
Qed.

Lemma markdowns_during (l : list event) : markdowns (map During l) = [].
Proof. induction l; [reflexivity | assumption]. Qed.

Lemma subheadings_during (l : list event) : subheadings (map During l) = [].
Proof. induction l; [reflexivity | assumption]. Qed.

Lemma markdowns_bullets (l : list string) :
  markdowns (map (fun title => Markdown ("- " ++ title)%string) l)
  = map (fun title => ("- " ++ title)%string) l.
Proof. induction l as [|x l IH]; [reflexivity|]. cbn [map markdowns]. now rewrite IH. Qed.

Lemma subheadings_bullets (l : list string) :
  subheadings (map (fun title => Markdown ("- " ++ title)%string) l) = [].
Proof. induction l; [reflexivity | assumption]. Qed.

Lemma topic_block_markdowns (i : Z) (t : topic_t) :
  videos t <> [] -> markdowns (topic_block (i, t)) = topic_markdowns t.
Proof.
  intros H. unfold topic_block, render_topic, topic_markdowns.
  destruct (videos t) as [|x l] eqn:E; [contradiction|].
  rewrite bullets_fold. cbn [app markdowns].
  rewrite markdowns_app, markdowns_bullets. reflexivity.
Qed.

Lemma topic_block_subheadings (i : Z) (t : topic_t) :
  subheadings (topic_block (i, t)) = [(str_int i ++ ". " ++ topic t)%string].
Proof.
  unfold topic_block, render_topic.
  destruct (videos t) as [|x l]; [reflexivity|].
  rewrite bullets_fold. cbn [app subheadings].
  rewrite subheadings_app, subheadings_bullets. reflexivity.
Qed.

Lemma blocks_markdowns (topics : list topic_t) (i : Z) :
  Forall (fun t => videos t <> []) topics ->
  markdowns (flat_map topic_block (enumerate topics i))
  = flat_map topic_markdowns topics.
Proof.
  revert i. induction topics as [|t topics IH]; intros i H; [reflexivity|].
  inversion H; subst. cbn [enumerate flat_map].
  rewrite markdowns_app, topic_block_markdowns, IH by assumption. reflexivity.
Qed.

Lemma blocks_subheadings (topics : list topic_t) (i : Z) :
  subheadings (flat_map topic_block (enumerate topics i))
  = map (fun numbered => (str_int (fst numbered) ++ ". "
                          ++ topic (snd numbered))%string)
        (enumerate topics i).
Proof.
  revert i. induction topics as [|t topics IH]; intros i; [reflexivity|].
  cbn [enumerate flat_map map fst snd].
  rewrite subheadings_app, topic_block_subheadings, IH. reflexivity.
Qed.

Lemma enumerate_nth {A} (l : list A) (i : Z) (n : nat) (x : A) :
  nth_error l n = Some x ->
  nth_error (enumerate l i) n = Some (i + Z.of_nat n, x).
Proof.
  revert i n. induction l as [|y l IH]; intros i [|n] H; try discriminate.
  - cbn in *. inversion H. f_equal. f_equal. lia.
  - cbn [enumerate nth_error] in *. rewrite (IH (i + 1) n H).
    f_equal. f_equal. lia.
Qed.

Lemma enumerate_length {A} (l : list A) (i : Z) :
  List.length (enumerate l i) = List.length l.
Proof. revert i. induction l as [|y l IH]; intros i; cbn; [reflexivity | now rewrite IH]. Qed.

Lemma main_page (youtube : client) (utcnow : datetime)
    (time_span_choice region_choice : nat) (now_text : string) :
  let run := get_trending_topics youtube utcnow
               (radio time_span_options time_span_choice)
               (radio region_options region_choice) in
  let m := main youtube utcnow time_span_choice region_choice now_text in
  match returned run with
  | inl e =>
      finished m = inl e /\ markdowns (page m) = [] /\ subheadings (page m) = []
      /\ ~ In (Write no_data_text) (page m)
      /\ forall text, ~ In (Caption text) (page m)
  | inr topics =>
      finished m = inr tt
      /\ exists top_of_page body,
           page m = top_of_page ++ map During (trace run) ++ body
                    ++ [Markdown "---";
                        Caption ("Data last updated: " ++ now_text)%string]
           /\ List.length top_of_page = 6%nat
           /\ markdowns top_of_page = [] /\ subheadings top_of_page = []
           /\ ~ In (Write no_data_text) top_of_page
           /\ (forall ev, ~ In (During ev) top_of_page)
           /\ body = match topics with
                     | [] => [Write no_data_text]
                     | _ :: _ => flat_map topic_block (enumerate topics 1)
                     end
  end.
Proof.
  cbv zeta. unfold main.
  pose proof (run_topics_facts youtube utcnow
                (radio time_span_options time_span_choice)
                (radio region_options region_choice)) as F.
  destruct (returned (get_trending_topics youtube utcnow
                        (radio time_span_options time_span_choice)
                        (radio region_options region_choice)))
    as [e|topics] eqn:E.
  - rewrite F. cbn [finished page map app markdowns subheadings].
    split; [reflexivity|]. split; [reflexivity|]. split; [reflexivity|].
    split.
    + cbn [In]. intros H.
      repeat (destruct H as [H | H]; [discriminate|]). exact H.
    + intros text H. cbn [In] in H.
      repeat (destruct H as [H | H]; [discriminate|]). exact H.
  - cbn [finished page]. split; [reflexivity|].
    eexists _, _. split; [rewrite <- app_assoc; reflexivity|].
    split; [reflexivity|]. split; [reflexivity|]. split; [reflexivity|].
    split; [|split].
    + cbn [In]. intros H.
      repeat (destruct H as [H | H]; [discriminate|]). exact H.
    + intros ev H. cbn [In] in H.
      repeat (destruct H as [H | H]; [discriminate|]). exact H.
    + destruct topics; [reflexivity|]. now rewrite render_fold.
Qed.

End PageExtras.

(* ================================================================== *)
(** * The page of [main]: what it shows *)

Section MainExtras.

(** X15.  What [main] writes with [st.markdown] is fixed by the report:
    for each topic in order the line "**Trending Video Titles:**", one
    line "- title" for each of its titles in order, and the rule "---";
    then the closing rule.  No topic is shown without its titles, and
    when an exception leaves [main] nothing of this has been written. *)
Theorem page_markdown_lines (youtube : client) (utcnow : datetime)
    (time_span_choice region_choice : nat) (now_text : string) :
  match returned (get_trending_topics youtube utcnow
                    (radio time_span_options time_span_choice)
                    (radio region_options region_choice)) with
  | inl e =>
      finished (main youtube utcnow time_span_choice region_choice now_text)
      = inl e
      /\ markdowns (page (main youtube utcnow time_span_choice region_choice
                               now_text)) = []
  | inr topics =>
      finished (main youtube utcnow time_span_choice region_choice now_text)
      = inr tt
      /\ markdowns (page (main youtube utcnow time_span_choice region_choice
                               now_text))
         = flat_map topic_markdowns topics ++ ["---"]
  end.
Proof.
  pose proof (main_page youtube utcnow time_span_choice region_choice now_text)
    as M. cbv zeta in M.
  pose proof (run_topics_facts youtube utcnow
                (radio time_span_options time_span_choice)
                (radio region_options region_choice)) as F.
  destruct (returned _) as [e|topics].
  - destruct M as (M1 & M2 & _). auto.
  - destruct M as (M1 & top & body & -> & _ & Hm & _ & _ & _ & ->).
    destruct F as (_ & Fv & _).
    split; [assumption|].
    rewrite !markdowns_app, Hm, markdowns_during. cbn [app].
    destruct topics as [|t topics]; [reflexivity|].
    rewrite blocks_markdowns; [reflexivity|].
    revert Fv. apply Forall_impl. tauto.
Qed.

(** X16.  The sub-headings of the page are the names of the report's
    topics, in order and numbered from 1: the heading of the topic at
    position n, counted from 0, is "n+1. name"; there are at most ten. *)
Theorem page_subheadings_numbered (youtube : client) (utcnow : datetime)
    (time_span_choice region_choice : nat) (now_text : string) :
  match returned (get_trending_topics youtube utcnow
                    (radio time_span_options time_span_choice)
                    (radio region_options region_choice)) with
  | inl e =>
      subheadings (page (main youtube utcnow time_span_choice region_choice
                              now_text)) = []
  | inr topics =>
      List.length (subheadings (page (main youtube utcnow time_span_choice
                                           region_choice now_text)))
      = List.length topics
      /\ (List.length topics <= 10)%nat
      /\ forall n t,
           nth_error topics n = Some t ->
           nth_error (subheadings (page (main youtube utcnow time_span_choice
                                              region_choice now_text))) n
           = Some (str_int (Z.of_nat n + 1) ++ ". " ++ topic t)%string
  end.
Proof.
  pose proof (main_page youtube utcnow time_span_choice region_choice now_text)
    as M. cbv zeta in M.
  pose proof (run_topics_facts youtube utcnow
                (radio time_span_options time_span_choice)
                (radio region_options region_choice)) as F.
  destruct (returned _) as [e|topics].
  - now destruct M as (_ & _ & M3 & _).
  - destruct M as (_ & top & body & -> & _ & _ & Hs & _ & _ & ->).
    destruct F as (Fl & _ & _).
    assert (S : subheadings
                  (top ++ map During
                     (trace (get_trending_topics youtube utcnow
                               (radio time_span_options time_span_choice)
                               (radio region_options region_choice)))
                   ++ match topics with
                      | [] => [Write no_data_text]
                      | _ :: _ => flat_map topic_block (enumerate topics 1)
                      end
                   ++ [Markdown "---";
                       Caption ("Data last updated: " ++ now_text)%string])
                = map (fun numbered => (str_int (fst numbered) ++ ". "
                                        ++ topic (snd numbered))%string)
                      (enumerate topics 1)).
    { rewrite !subheadings_app, Hs, subheadings_during. cbn [app].
      destruct topics as [|t topics]; [reflexivity|].
      rewrite blocks_subheadings. cbn [subheadings]. now rewrite app_nil_r. }
    rewrite S. split; [now rewrite length_map, enumerate_length|].
    split; [assumption|].
    intros n t Hn. rewrite nth_error_map, (enumerate_nth topics 1 n t Hn).
    cbn [option_map fst snd]. do 2 f_equal. f_equal. lia.
Qed.

Lemma no_data_not_in_blocks (topics : list topic_t) (i : Z) :
  Forall (fun t => exists n, comment t = make_comment n (topic t)) topics ->
  ~ In (Write no_data_text) (flat_map topic_block (enumerate topics i)).
Proof.
  revert i. induction topics as [|t topics IH]; intros i H; [intros []|].
  inversion H as [|? ? (n & Hc) Hrest]; subst.
  cbn [enumerate flat_map]. rewrite in_app_iff. intros [Hin | Hin].
  - unfold topic_block, render_topic in Hin. cbn [app In] in Hin.
    destruct Hin as [Hin | [Hin | Hin]]; [discriminate | |].
    + rewrite Hc in Hin. unfold make_comment, no_data_text in Hin.
      cbn [append] in Hin. discriminate.
    + apply in_app_iff in Hin as [Hin | [Hin | []]]; [|discriminate].
      destruct (videos t); [contradiction|].
      destruct Hin as [Hin | Hin]; [discriminate|].
      rewrite bullets_fold in Hin. cbn [app] in Hin.
      apply in_map_iff in Hin as (x & Hx & _). discriminate.
  - exact (IH (i + 1) Hrest Hin).
Qed.

(** X17.  [main] writes "No data available for the selected time span
    and region." exactly when the report is empty, which is exactly when
    the invocation has written one of its messages before; and unless an
    exception leaves it, the page ends with the rule and the caption
    "Data last updated: ...". *)
Theorem page_no_data (youtube : client) (utcnow : datetime)
    (time_span_choice region_choice : nat) (now_text : string) :
  match returned (get_trending_topics youtube utcnow
                    (radio time_span_options time_span_choice)
                    (radio region_options region_choice)) with
  | inl e =>
      ~ In (Write no_data_text)
           (page (main youtube utcnow time_span_choice region_choice now_text))
      /\ forall text,
           ~ In (Caption text)
                (page (main youtube utcnow time_span_choice region_choice
                            now_text))
  | inr topics =>
      (In (Write no_data_text)
          (page (main youtube utcnow time_span_choice region_choice now_text))
       <-> topics = [])
      /\ (topics = [] <->
          exists e, In (During e)
                       (page (main youtube utcnow time_span_choice
                                   region_choice now_text))
                    /\ is_message e = true)
      /\ exists front,
           page (main youtube utcnow time_span_choice region_choice now_text)
           = front ++ [Markdown "---";
                       Caption ("Data last updated: " ++ now_text)%string]
  end.
Proof.
  pose proof (main_page youtube utcnow time_span_choice region_choice now_text)
    as M. cbv zeta in M.
  pose proof (run_topics_facts youtube utcnow
                (radio time_span_options time_span_choice)
                (radio region_options region_choice)) as F.
  destruct (returned _) as [e|topics].
  - destruct M as (_ & _ & _ & M4 & M5). auto.
  - destruct M as (_ & top & body & -> & _ & _ & _ & Hno & Hnd & ->).
    destruct F as (_ & Fc & Fm).
    split; [|split].
    + rewrite !in_app_iff. split.
      * intros [Hin | [Hin | [Hin | Hin]]].
        -- contradiction.
        -- apply in_map_iff in Hin as (x & Hx & _). discriminate.
        -- destruct topics as [|t topics]; [reflexivity|]. exfalso.
           revert Hin. apply no_data_not_in_blocks.
           revert Fc. apply Forall_impl. tauto.
        -- destruct Hin as [Hin | [Hin | []]]; discriminate.
      * intros ->. right. right. left. left. reflexivity.
    + rewrite Fm. split.
      * intros (e & He & Hm). exists e. split; [|assumption].
        rewrite !in_app_iff. right. left. now apply in_map.
      * intros (e & He & Hm). exists e. split; [|assumption].
        rewrite !in_app_iff in He.
        destruct He as [He | [He | [He | He]]].
        -- exfalso. exact (Hnd e He).
        -- apply in_map_iff in He as (x & Hx & Hin). now inversion Hx; subst.
        -- exfalso. destruct topics as [|t topics].
           ++ destruct He as [He | []]. discriminate.
           ++ clear -He. revert He. generalize 1.
              induction (t :: topics) as [|u l IH]; intros i He; [exact He|].
              cbn [enumerate flat_map] in He. apply in_app_iff in He as [He | He].
              ** unfold topic_block, render_topic in He. cbn [app In] in He.
                 destruct He as [He | [He | He]]; [discriminate | discriminate |].
                 apply in_app_iff in He as [He | [He | []]]; [|discriminate].
                 destruct (videos u); [contradiction|].
                 destruct He as [He | He]; [discriminate|].
                 rewrite bullets_fold in He. cbn [app] in He.
                 apply in_map_iff in He as (x & Hx & _). discriminate.
              ** exact (IH _ He).
        -- destruct He as [He | [He | []]]; discriminate.
    + eexists. rewrite !app_assoc. reflexivity.
Qed.

End MainExtras.

(* ================================================================== *)
(** * Writing and reading a timestamp *)

Section RoundTripExtras.

(** X18.  Writing a datetime with [isoformat] and "Z", as the resolver
    does, and reading the text with [parse_iso_date] gives the datetime
    back, microseconds included; so two datetimes with the same text are
    the same. *)
Theorem isoformat_round_trip (t u : datetime) :
  valid_datetime t = true -> valid_datetime u = true ->
  parse_iso_date (Some (isoformat t ++ "Z")%string) = inr t
  /\ (isoformat t = isoformat u -> t = u).
Proof.
  intros Ht Hu. split; [now apply parse_isoformat|].
  intros E. pose proof (parse_isoformat t Ht) as Pt.
  rewrite E, (parse_isoformat u Hu) in Pt. now inversion Pt.
Qed.

Lemma isoformat_round_trip_witness :
  parse_iso_date (Some (isoformat clock_2024_03_15 ++ "Z")%string)
  = inr clock_2024_03_15
  /\ (isoformat clock_2024_03_15 = isoformat cutoff_2024_03_08 ->
      clock_2024_03_15 = cutoff_2024_03_08).
Proof.
  apply (isoformat_round_trip clock_2024_03_15 cutoff_2024_03_08);
    vm_compute; reflexivity.
Defined.

End RoundTripExtras.
